(** * svg-to-inline.js: a shallow embedding and its verified properties

    The module [SVGToInline] of [src/js/svg-to-inline.js] fetches the SVG
    file an image element points at, parses it, splices the [<svg>] root
    in place of the image and runs three fixups on the inserted root.

    The embedding follows the source function by function.  The host
    services the code calls into (network, XML parser, CSS parser, layout,
    URL resolution) are fields of a [Browser] record; the clock reading
    [Date.now()] is an argument.  The document is a tree of elements; a
    JavaScript reference to a node of the live document is the path of
    that node from the document node. *)

From Stdlib Require Import String Ascii List Bool Arith NArith Lia.
From Stdlib Require Import DecimalString DecimalN.
Import ListNotations.

Open Scope string_scope.
Open Scope list_scope.

(* ================================================================== *)
(** * JavaScript values *)

Module Js.

(** The values the code inspects with [typeof], [!], [||] and [&&]:
    property reads give [undefined], [null], a string, or (for
    [className] of an SVG element) an [SVGAnimatedString] object. *)
Inductive Value : Type :=
| Undefined
| Null
| Str (s : string)
| AnimatedString (baseVal : string).

Definition typeof (v : Value) : string :=
  match v with
  | Undefined => "undefined"
  | Null => "object"
  | Str _ => "string"
  | AnimatedString _ => "object"
  end.

(** ToBoolean. *)
Definition truthy (v : Value) : bool :=
  match v with
  | Undefined | Null => false
  | Str s => negb (s =? "")
  | AnimatedString _ => true
  end.

(** ToString, as applied by string concatenation, [setAttribute] and
    [fetch]. *)
Definition toString (v : Value) : string :=
  match v with
  | Undefined => "undefined"
  | Null => "null"
  | Str s => s
  | AnimatedString _ => "[object SVGAnimatedString]"
  end.

(** [a || b]. *)
Definition or (a b : Value) : Value := if truthy a then a else b.

(** What a rejected promise or a thrown exception carries. *)
Inductive Error : Type :=
| NetworkError          (* fetch could not retrieve the resource *)
| TypeError             (* property read on null/undefined, missing method *)
| SyntaxError           (* DOMTokenList: empty token *)
| InvalidCharacterError (* DOMTokenList: token with whitespace *).

(** [String.prototype.substring(1)]. *)
Definition substring1 (s : string) : string :=
  match s with
  | EmptyString => EmptyString
  | String _ r => r
  end.

Definition isDigit (c : ascii) : bool :=
  let n := nat_of_ascii c in (48 <=? n)%nat && (n <=? 57)%nat.

(** [s.replace(/^[0-9]+/, '')]: the longest run of leading digits is
    removed; a string that does not start with a digit is unchanged. *)
Fixpoint replaceLeadingDigits (s : string) : string :=
  match s with
  | EmptyString => EmptyString
  | String c r => if isDigit c then replaceLeadingDigits r else s
  end.

(** [Array.prototype.join]. *)
Fixpoint join (sep : string) (l : list string) : string :=
  match l with
  | [] => ""
  | [a] => a
  | a :: r => a ++ sep ++ join sep r
  end.

(** Decimal rendering of a non-negative integer, as a template literal
    renders [Date.now()] (milliseconds since the epoch). *)
Definition natToString (n : N) : string :=
  NilEmpty.string_of_uint (N.to_uint n).

End Js.

(* ================================================================== *)
(** * Elements, attributes and class lists *)

(** What an element holds itself: its name, its attribute list in order,
    the declarations of its inline [style] object, and, for a style node,
    the CSS text that is its content. *)
Record Element : Type := mkElement {
  qualifiedName : string;
  attributes : list (string * string);
  inlineStyle : list (string * string);
  innerHTML : string
}.

Module Attr.

Fixpoint get (name : string) (l : list (string * string)) : option string :=
  match l with
  | [] => None
  | (k, v) :: r => if k =? name then Some v else get name r
  end.

(** An existing attribute keeps its place, a new one is appended. *)
Fixpoint set (name value : string) (l : list (string * string))
  : list (string * string) :=
  match l with
  | [] => [(name, value)]
  | (k, v) :: r =>
      if k =? name then (k, value) :: r else (k, v) :: set name value r
  end.

(** The first attribute of that name is removed. *)
Fixpoint remove (name : string) (l : list (string * string))
  : list (string * string) :=
  match l with
  | [] => []
  | (k, v) :: r => if k =? name then r else (k, v) :: remove name r
  end.

(** Attribute names are distinct on an element a parser built. *)
Fixpoint distinct (l : list (string * string)) : bool :=
  match l with
  | [] => true
  | (k, _) :: r =>
      match get k r with
      | Some _ => false
      | None => distinct r
      end
  end.

End Attr.

(** [el.getAttribute(name)]: [null] when absent. *)
Definition getAttribute (el : Element) (name : string) : Js.Value :=
  match Attr.get name (attributes el) with
  | Some v => Js.Str v
  | None => Js.Null
  end.

Definition setAttribute (name value : string) (el : Element) : Element :=
  mkElement (qualifiedName el) (Attr.set name value (attributes el))
            (inlineStyle el) (innerHTML el).

Definition removeAttribute (name : string) (el : Element) : Element :=
  mkElement (qualifiedName el) (Attr.remove name (attributes el))
            (inlineStyle el) (innerHTML el).

(** [el.id]: reflects the [id] attribute, the empty string when absent. *)
Definition id (el : Element) : Js.Value :=
  match Attr.get "id" (attributes el) with
  | Some v => Js.Str v
  | None => Js.Str ""
  end.

(** [el.className] of an SVG element: an [SVGAnimatedString] whose
    [baseVal] reflects the [class] attribute.  (On an element outside the
    SVG namespace the getter gives the string itself; neither is
    [undefined].) *)
Definition className (el : Element) : Js.Value :=
  match Attr.get "class" (attributes el) with
  | Some v => Js.AnimatedString v
  | None => Js.AnimatedString ""
  end.

(** The text of a declaration block, as the [style] attribute reflects
    it: [property: value;] for every declaration, with one space between
    declarations. *)
Definition styleText (decls : list (string * string)) : string :=
  Js.join " " (map (fun d => (fst d ++ ": " ++ snd d ++ ";")%string) decls).

(** [el.style.display = v], for a keyword [v] of the display property
    (the call sites pass none and flex).  A declaration that has this
    value already is left alone; otherwise the declaration is set in the
    block, in its place or at the end, and the [style] attribute of the
    element is rewritten to the text of the block. *)
Definition setStyleDisplay (v : string) (el : Element) : Element :=
  let decls := Attr.set "display" v (inlineStyle el) in
  let updated :=
    mkElement (qualifiedName el)
              (Attr.set "style" (styleText decls) (attributes el))
              decls (innerHTML el) in
  match Attr.get "display" (inlineStyle el) with
  | Some old => if old =? v then el else updated
  | None => updated
  end.

Definition setInnerHTML (s : string) (el : Element) : Element :=
  mkElement (qualifiedName el) (attributes el) (inlineStyle el) s.

(** ** DOMTokenList on the class attribute *)
Module TokenList.

(** ASCII whitespace: TAB, LF, FF, CR, SPACE. *)
Definition isWhitespace (c : ascii) : bool :=
  let n := nat_of_ascii c in
  (n =? 9)%nat || (n =? 10)%nat || (n =? 12)%nat || (n =? 13)%nat
  || (n =? 32)%nat.

Fixpoint hasWhitespace (s : string) : bool :=
  match s with
  | EmptyString => false
  | String c r => isWhitespace c || hasWhitespace r
  end.

(** Split on ASCII whitespace; [cur] is the token being read. *)
Fixpoint split (s : string) (cur : string) : list string :=
  match s with
  | EmptyString => if cur =? "" then [] else [cur]
  | String c r =>
      if isWhitespace c
      then (if cur =? "" then split r "" else cur :: split r "")
      else split r (cur ++ String c "")
  end.

Definition mem (t : string) (l : list string) : bool :=
  existsb (String.eqb t) l.

(** Append to an ordered set. *)
Definition append (l : list string) (t : string) : list string :=
  if mem t l then l else l ++ [t].

(** The ordered set parser: tokens in order of first occurrence. *)
Definition parse (s : string) : list string :=
  fold_left append (split s "") [].

(** The ordered set serializer. *)
Definition serialize (l : list string) : string := Js.join " " l.

Definition tokens (el : Element) : list string :=
  match Attr.get "class" (attributes el) with
  | Some v => parse v
  | None => []
  end.

(** The update steps: nothing when there is no class attribute and the
    set is empty, otherwise the attribute is rewritten from the set. *)
Definition update (el : Element) (ts : list string) : Element :=
  match Attr.get "class" (attributes el), ts with
  | None, [] => el
  | _, _ => setAttribute "class" (serialize ts) el
  end.

(** Token validation shared by [add] and [replace]. *)
Definition validate (t : string) : option Js.Error :=
  if t =? "" then Some Js.SyntaxError
  else if hasWhitespace t then Some Js.InvalidCharacterError
  else None.

(** [el.classList.add(t)] for a token that passes validation (the two
    call sites pass the literals replaced-svg and img-fluid). *)
Definition add (t : string) (el : Element) : Element :=
  update el (append (tokens el) t).

(** Replace [t] by [u] in an ordered set: the first occurrence of
    either becomes [u], every other occurrence of either is dropped. *)
Fixpoint replaceIn (t u : string) (l : list string) : list string :=
  match l with
  | [] => []
  | a :: r =>
      if (a =? t) || (a =? u)
      then u :: filter (fun b => negb ((b =? t) || (b =? u))) r
      else a :: replaceIn t u r
  end.

(** [el.classList.replace(t, u)]: both tokens are validated first; an
    element that does not carry [t] is left alone. *)
Definition replace (t u : string) (el : Element) : Js.Error + Element :=
  match validate t with
  | Some e => inl e
  | None =>
      match validate u with
      | Some e => inl e
      | None =>
          if mem t (tokens el)
          then inr (update el (replaceIn t u (tokens el)))
          else inr el
      end
  end.

(** An element matches [getElementsByClassName(names)] when it carries
    every token of [names]. *)
Definition hasAll (cls : list string) (el : Element) : bool :=
  forallb (fun c => mem c (tokens el)) cls.

End TokenList.

(* ================================================================== *)
(** * Attribute optimisation (source lines 108-150) *)

(** [setViewport(svg)]. *)
Definition setViewport (svg : Element) : Element :=
  if negb (Js.truthy (getAttribute svg "viewBox"))
     && Js.truthy (getAttribute svg "height")
     && Js.truthy (getAttribute svg "width")
  then setAttribute "viewBox"
         ("0 0 " ++ Js.toString (getAttribute svg "height") ++ " "
                 ++ Js.toString (getAttribute svg "width")) svg
  else svg.

(** [optimizeInlineSVG(svgInline)].  Both [imgID] and [imgClass] are read
    from [svgInline] itself. *)
Definition optimizeInlineSVG (svgInline : Element) : Element :=
  let imgID := id svgInline in
  let imgClass := className svgInline in
  let s1 := if negb (Js.typeof imgID =? "undefined")
            then setAttribute "id" (Js.toString imgID) svgInline
            else svgInline in
  let s2 := if negb (Js.typeof imgClass =? "undefined")
            then TokenList.add "replaced-svg" s1
            else s1 in
  let s3 := TokenList.add "img-fluid" s2 in
  let s4 := removeAttribute "xmlns:a" s3 in
  setViewport s4.

(* ================================================================== *)
(** * The document tree *)

#[warnings="-register-all"]
Inductive Node : Type :=
| mkNode (element : Element) (childNodes : list Node).

Definition element (n : Node) : Element :=
  match n with mkNode e _ => e end.

Definition childNodes (n : Node) : list Node :=
  match n with mkNode _ cs => cs end.

(** A reference to a node: the child indices leading to it from the
    document node.  [replaceChild] keeps every index in place, and nothing
    else in this module changes the shape of the tree, so a reference
    stays valid through a conversion. *)
Definition Path : Type := list nat.

Fixpoint nodeAt (n : Node) (q : Path) : option Node :=
  match q with
  | [] => Some n
  | i :: q' =>
      match nth_error (childNodes n) i with
      | Some c => nodeAt c q'
      | None => None
      end
  end.

Definition elementAt (n : Node) (q : Path) : option Element :=
  option_map element (nodeAt n q).

Fixpoint updateNth {A : Type} (i : nat) (f : A -> A) (l : list A) {struct l}
  : list A :=
  match l, i with
  | [], _ => []
  | a :: r, O => f a :: r
  | a :: r, S j => a :: updateNth j f r
  end.

Fixpoint updateAt (f : Node -> Node) (q : Path) (n : Node) : Node :=
  match q with
  | [] => f n
  | i :: q' => mkNode (element n) (updateNth i (updateAt f q') (childNodes n))
  end.

(** A change to what the element at [q] holds itself. *)
Definition modifyAt (g : Element -> Element) (q : Path) (n : Node) : Node :=
  updateAt (fun m => mkNode (g (element m)) (childNodes m)) q n.

(** The node at [q] is swapped for [r]. *)
Definition replaceAt (r : Node) (q : Path) (n : Node) : Node :=
  updateAt (fun _ => r) q n.

(** Every node of the tree in tree order, the node itself first. *)
Fixpoint paths (n : Node) : list Path :=
  match n with
  | mkNode _ cs =>
      [] :: (fix below (i : nat) (l : list Node) : list Path :=
               match l with
               | [] => []
               | c :: r => map (cons i) (paths c) ++ below (S i) r
               end) O cs
  end.

(** The inner loop of [paths] on its own: the nodes at and below the
    children [l], the first of which has index [i]. *)
Fixpoint pathsBelow (i : nat) (l : list Node) : list Path :=
  match l with
  | [] => []
  | c :: r => map (cons i) (paths c) ++ pathsBelow (S i) r
  end.

Definition descendants (n : Node) : list Path := tl (paths n).

Fixpoint pathEqb (a b : Path) : bool :=
  match a, b with
  | [], [] => true
  | i :: a', j :: b' => (i =? j)%nat && pathEqb a' b'
  | _, _ => false
  end.

(** [a] leads to [b] or to an ancestor of [b]. *)
Fixpoint isPrefix (a b : Path) : bool :=
  match a, b with
  | [], _ => true
  | i :: a', j :: b' => (i =? j)%nat && isPrefix a' b'
  | _ :: _, [] => false
  end.

(** [b] is a descendant of [a]. *)
Definition strictlyBelow (a b : Path) : bool :=
  isPrefix a b && negb (pathEqb a b).

(** [node.parentNode]; the document node has none. *)
Definition parentNode (q : Path) : option Path :=
  match q with
  | [] => None
  | _ => Some (removelast q)
  end.

(** [root.getElementsByTagName(name)], as nodes in tree order. *)
Definition getElementsByTagName (root : Node) (name : string) : list Node :=
  flat_map (fun q => match nodeAt root q with
                     | Some m => if qualifiedName (element m) =? name
                                 then [m] else []
                     | None => []
                     end) (descendants root).

(** [svgInline.getElementsByClassName(names)] on the live document, for
    the node referenced by [p]: its descendants carrying every class of
    [names], in tree order; empty when [names] holds no token. *)
Definition getElementsByClassName (doc : Node) (p : Path) (names : string)
  : list Path :=
  match nodeAt doc p with
  | None => []
  | Some root =>
      match TokenList.parse names with
      | [] => []
      | classes =>
          map (app p)
              (filter (fun q => match elementAt root q with
                                | Some el => TokenList.hasAll classes el
                                | None => false
                                end) (descendants root))
      end
  end.

(** ASCII lower case of a string. *)
Definition lowerAscii (c : ascii) : ascii :=
  let n := nat_of_ascii c in
  if (65 <=? n)%nat && (n <=? 90)%nat then ascii_of_nat (n + 32) else c.

Fixpoint asciiLowercase (s : string) : string :=
  match s with
  | EmptyString => EmptyString
  | String c r => String (lowerAscii c) (asciiLowercase r)
  end.

(** A style element of the document owns a CSS style sheet unless it has
    a [type] attribute that is neither empty nor, ASCII case aside,
    [text/css]; such a style element has no sheet at all. *)
Definition ownsSheet (el : Element) : bool :=
  (qualifiedName el =? "style")
  && match Attr.get "type" (attributes el) with
     | None => true
     | Some type => (type =? "") || (asciiLowercase type =? "text/css")
     end.

(** [document.styleSheets], by owner node: the style elements of the
    document that own a style sheet, in tree order. *)
Definition styleSheets (doc : Node) : list Path :=
  filter (fun q => match elementAt doc q with
                   | Some el => ownsSheet el
                   | None => false
                   end) (paths doc).

(* ================================================================== *)
(** * The host *)

(** A rule of a CSSOM rule list: a style rule with its selector text and
    its declarations in order (property, value as [style[property]]
    reads it), or a rule of another kind (at-rules), which has no
    [selectorText]. *)
Inductive CSSRule : Type :=
| CSSStyleRule (selectorText : string) (style : list (string * string))
| CSSOtherRule.

Record SVGRect (Number : Type) : Type := mkRect {
  x : Number;
  y : Number;
  width : Number;
  height : Number
}.

Arguments mkRect {Number}.
Arguments x {Number}.
Arguments y {Number}.
Arguments width {Number}.
Arguments height {Number}.

(** The services of the browser the module relies on.  Coordinates are
    IEEE doubles in the browser; their type and their conversion to a
    string are left to the host. *)
Record Browser (Number : Type) : Type := mkBrowser {
  (** [fetch(url).then(r => r.text())]: the body, or [None] when the
      promise rejects. *)
  fetch : string -> option string;
  (** [new DOMParser().parseFromString(text, 'image/svg+xml')]: the
      document node of the parsed tree. *)
  parseFromString : string -> Node;
  (** The rule list of the style sheet a style node with this text owns. *)
  cssRules : string -> list CSSRule;
  (** [el.getBBox()] for the element referenced in the given document;
      [None] when the call throws (no such method on the element). *)
  getBBox : Node -> Path -> option (SVGRect Number);
  (** URL resolution against the document base, as the [src] getter of
      an image applies it. *)
  resolveURL : string -> string;
  numberToString : Number -> string
}.

Arguments fetch {Number}.
Arguments parseFromString {Number}.
Arguments cssRules {Number}.
Arguments getBBox {Number}.
Arguments resolveURL {Number}.
Arguments numberToString {Number}.

(* ================================================================== *)
(** * Effects: the live document and the calls made on it *)

(** The calls whose order the module fixes. *)
Inductive Call : Type :=
| CallFetch (url : string)
| CallOptimizeInlineSVG
| CallReplaceChild
| CallRemoveSVGWhiteSpace
| CallSvgPrependClassIdentifiers
| CallSafariHack.

Record World : Type := mkWorld {
  document : Node;
  calls : list Call
}.

(** How a piece of code ends: normally or by throwing.  A throw inside
    the promise callback rejects the promise; nothing catches it. *)
Inductive Completion : Type :=
| Normal
| Throw (e : Js.Error).

(** A statement: it ends in some way and leaves a world behind (what was
    mutated before a throw stays mutated). *)
Definition Step : Type := World -> Completion * World.

Definition andThen (a b : Step) : Step :=
  fun w => match a w with
           | (Normal, w') => b w'
           | (Throw e, w') => (Throw e, w')
           end.

Notation "a ;; b" := (andThen a b) (at level 61, right associativity).

Definition called (c : Call) : Step :=
  fun w => (Normal, mkWorld (document w) (calls w ++ [c])).

Definition mutate (f : Node -> Node) : Step :=
  fun w => (Normal, mkWorld (f (document w)) (calls w)).

Definition throw (e : Js.Error) : Step := fun w => (Throw e, w).

(** A computation on the document alone that may throw. *)
Definition onDocument (f : Node -> Completion * Node) : Step :=
  fun w => let (c, d) := f (document w) in (c, mkWorld d (calls w)).

(* ================================================================== *)
(** * Style namespacing (source lines 40-87) *)

(** [`uid-${Date.now()}`] followed by [uid.replace(/^[0-9]+/, '')]. *)
Definition uid (now : N) : string :=
  Js.replaceLeadingDigits ("uid-" ++ Js.natToString now).

(** [`${uid}-${oldElementClass}`]. *)
Definition newElementClass (now : N) (oldElementClass : string) : string :=
  uid now ++ "-" ++ oldElementClass.

Definition LF : string := String (ascii_of_nat 10) "".

(** The text one declaration adds to the style node (line 73). *)
Definition ruleText (newClass : string) (decl : string * string) : string :=
  "." ++ newClass ++ "{" ++ fst decl ++ ": " ++ snd decl ++ ";}" ++ LF.

(** [styleNode.innerHTML += ...] for every declaration of a rule
    (lines 68-74). *)
Definition emitRule (styleNode : Path) (newClass : string)
    (decls : list (string * string)) (doc : Node) : Node :=
  fold_left
    (fun d decl =>
       modifyAt (fun el => setInnerHTML (innerHTML el ++ ruleText newClass decl) el)
                styleNode d)
    decls doc.

(** The loop of lines 77-83, from index [m] down to 0.  [elements] is a
    live collection: it is read again at every index, and an index it no
    longer has is skipped. *)
Fixpoint alterClasses (svgInline : Path) (oldClass newClass : string)
    (m : nat) (doc : Node) : Completion * Node :=
  let elements := getElementsByClassName doc svgInline oldClass in
  let here :=
    match nth_error elements m with
    | None => (Normal, doc)
    | Some q =>
        match elementAt doc q with
        | None => (Normal, doc)
        | Some el =>
            match TokenList.replace oldClass newClass el with
            | inl e => (Throw e, doc)
            | inr el' => (Normal, modifyAt (fun _ => el') q doc)
            end
        end
    end in
  match here with
  | (Throw e, d) => (Throw e, d)
  | (Normal, d) =>
      match m with
      | O => (Normal, d)
      | S m' => alterClasses svgInline oldClass newClass m' d
      end
  end.

(** One turn of the loop over the rules (lines 63-83).  Reading
    [selectorText] of a rule that has none gives [undefined], and
    [.substring] on it throws. *)
Definition prependRule (now : N) (svgInline styleNode : Path)
    (rule : CSSRule) (doc : Node) : Completion * Node :=
  match rule with
  | CSSOtherRule => (Throw Js.TypeError, doc)
  | CSSStyleRule selectorText style =>
      let oldElementClass := Js.substring1 selectorText in
      let newClass := newElementClass now oldElementClass in
      let doc1 := emitRule styleNode newClass style doc in
      match length (getElementsByClassName doc1 svgInline oldElementClass) with
      | O => (Normal, doc1)
      | S m => alterClasses svgInline oldElementClass newClass m doc1
      end
  end.

Fixpoint prependRules (now : N) (svgInline styleNode : Path)
    (rules : list CSSRule) (doc : Node) : Completion * Node :=
  match rules with
  | [] => (Normal, doc)
  | r :: rest =>
      match prependRule now svgInline styleNode r doc with
      | (Throw e, d) => (Throw e, d)
      | (Normal, d) => prependRules now svgInline styleNode rest d
      end
  end.

(** The body of the [forEach] callback for one sheet (lines 51-85).
    [svgStyleRules] is read from the sheet before the text of the style
    node is cleared; it is the rule list of that sheet object, which
    clearing the node does not empty (the node gets a new sheet). *)
Definition prependSheet {Number} (B : Browser Number) (now : N)
    (svgInline styleNode : Path) (doc : Node) : Completion * Node :=
  match parentNode styleNode with
  | Some parent =>
      if pathEqb svgInline parent
      then
        match elementAt doc styleNode with
        | None => (Normal, doc)
        | Some el =>
            let svgStyleRules := cssRules B (innerHTML el) in
            let doc1 := modifyAt (setInnerHTML "") styleNode doc in
            prependRules now svgInline styleNode svgStyleRules doc1
        end
      else (Normal, doc)
  | None => (Normal, doc)
  end.

Fixpoint prependSheets {Number} (B : Browser Number) (now : N)
    (svgInline : Path) (sheets : list Path) (doc : Node)
  : Completion * Node :=
  match sheets with
  | [] => (Normal, doc)
  | s :: rest =>
      match prependSheet B now svgInline s doc with
      | (Throw e, d) => (Throw e, d)
      | (Normal, d) => prependSheets B now svgInline rest d
      end
  end.

(** [svgPrependClassIdentifiers(svgInline)]: [Array.from] takes the list
    of sheets once, before the loop. *)
Definition svgPrependClassIdentifiers {Number} (B : Browser Number)
    (now : N) (svgInline : Path) : Step :=
  called CallSvgPrependClassIdentifiers ;;
  onDocument (fun doc => prependSheets B now svgInline (styleSheets doc) doc).

(* ================================================================== *)
(** * Bounds trimming, repaint and the pipeline (lines 17-30, 95-101,
      158-196) *)

(** [[bbox.x, bbox.y, bbox.width, bbox.height].join(' ')]. *)
Definition viewBoxOf {Number} (B : Browser Number) (bbox : SVGRect Number)
  : string :=
  Js.join " " (map (numberToString B)
                   [x bbox; y bbox; width bbox; height bbox]).

(** [removeSVGWhiteSpace(svgInline)]. *)
Definition removeSVGWhiteSpace {Number} (B : Browser Number)
    (svgInline : Path) : Step :=
  called CallRemoveSVGWhiteSpace ;;
  onDocument (fun doc =>
    match getBBox B doc svgInline with
    | None => (Throw Js.TypeError, doc)
    | Some bbox =>
        (Normal, modifyAt (setAttribute "viewBox" (viewBoxOf B bbox))
                          svgInline doc)
    end).

(** [safariHack(svgInline)]; reading [offsetHeight] changes nothing. *)
Definition safariHack (svgInline : Path) : Step :=
  called CallSafariHack ;;
  mutate (modifyAt (setStyleDisplay "none") svgInline) ;;
  mutate (modifyAt (setStyleDisplay "flex") svgInline).

(** [processFeaturedMerchantsImages(svgInline)], on the inserted root. *)
Definition processFeaturedMerchantsImages {Number} (B : Browser Number)
    (now : N) (svgInline : Path) : Step :=
  (called CallOptimizeInlineSVG ;;
   mutate (modifyAt optimizeInlineSVG svgInline)) ;;
  removeSVGWhiteSpace B svgInline ;;
  svgPrependClassIdentifiers B now svgInline ;;
  safariHack svgInline.

(** [svgSource.dataset.svgSrc]: the [data-svg-src] attribute,
    [undefined] when absent. *)
Definition dataset_svgSrc (svgSource : Element) : Js.Value :=
  match Attr.get "data-svg-src" (attributes svgSource) with
  | Some v => Js.Str v
  | None => Js.Undefined
  end.

(** The elements that have a [src] property: it reflects their [src]
    attribute as a URL. *)
Definition hasSrc (name : string) : bool :=
  existsb (String.eqb name)
          ["img"; "input"; "script"; "iframe"; "embed"; "source"; "track";
           "audio"; "video"; "frame"].

(** [svgSource.src]: on an element that has the property, the resolved
    [src] attribute and the empty string when there is none; an element
    without such a property gives [undefined]. *)
Definition src {Number} (B : Browser Number) (svgSource : Element)
  : Js.Value :=
  if hasSrc (qualifiedName svgSource)
  then match Attr.get "src" (attributes svgSource) with
       | Some v => Js.Str (resolveURL B v)
       | None => Js.Str ""
       end
  else Js.Undefined.

(** Line 160. *)
Definition imgURL {Number} (B : Browser Number) (svgSource : Element)
  : Js.Value :=
  Js.or (dataset_svgSrc svgSource) (src B svgSource).

(** The second [then] callback (lines 167-182), run on the text of the
    response. *)
Definition onText {Number} (B : Browser Number) (now : N)
    (svgSource : Path) (text : string) : Step :=
  let xmlDoc := parseFromString B text in
  match getElementsByTagName xmlDoc "svg" with
  | [] =>
      (* svgInline is undefined: reading its id throws *)
      called CallOptimizeInlineSVG ;; throw Js.TypeError
  | svgInline :: _ =>
      let optimized :=
        mkNode (optimizeInlineSVG (element svgInline)) (childNodes svgInline) in
      called CallOptimizeInlineSVG ;;
      match parentNode svgSource with
      | None => throw Js.TypeError
      | Some _ =>
          (called CallReplaceChild ;;
           mutate (replaceAt optimized svgSource)) ;;
          processFeaturedMerchantsImages B now svgSource
      end
  end.

(** [convertSVGtoInline(svgSource)] together with the promise chain it
    starts, run to the end: [Normal] when the chain fulfils, [Throw e]
    when it rejects with [e] (or, for a reference to no element, when
    line 160 throws).  The document is the one the response finds. *)
Definition convertSVGtoInline {Number} (B : Browser Number) (now : N)
    (svgSource : Path) : Step :=
  fun w =>
    match elementAt (document w) svgSource with
    | None => (Throw Js.TypeError, w)
    | Some source =>
        let url := Js.toString (imgURL B source) in
        (called (CallFetch url) ;;
         match fetch B url with
         | None => throw Js.NetworkError
         | Some text => onText B now svgSource text
         end) w
    end.

(** The errors the platform reports for a run: the unhandled rejection,
    if any. *)
Definition reported (c : Completion) : list Js.Error :=
  match c with
  | Normal => []
  | Throw e => [e]
  end.

(* ================================================================== *)
(** * Vocabulary of the statements *)

(** What namespacing the root at [p] may do to the element at [q]: the
    class attribute may change if [q] is a descendant of [p], the text
    may change if [q] is a child of [p], and nothing else changes. *)
Definition keptBy (p q : Path) (e e' : Element) : Prop :=
  qualifiedName e' = qualifiedName e /\
  inlineStyle e' = inlineStyle e /\
  (forall name, ("class" =? name) = false ->
                Attr.get name (attributes e') = Attr.get name (attributes e)) /\
  (strictlyBelow p q = false -> attributes e' = attributes e) /\
  (parentNode q <> Some p -> innerHTML e' = innerHTML e).

(** [d'] has the nodes of [d], each changed at most as [keptBy] allows. *)
Definition Touches (p : Path) (d d' : Node) : Prop :=
  paths d' = paths d /\
  forall q,
    match elementAt d q, elementAt d' q with
    | Some e, Some e' => keptBy p q e e'
    | None, None => True
    | _, _ => False
    end.

(** A class token [classList] accepts. *)
Definition validToken (t : string) : Prop :=
  t <> "" /\ TokenList.hasWhitespace t = false.

(** An ordered set of class tokens. *)
Definition tokenSet (ts : list string) : Prop :=
  NoDup ts /\ Forall validToken ts.

(** The class attribute is the serialisation of the class list. *)
Definition classNormal (el : Element) : Prop :=
  Attr.get "class" (attributes el) = Some (TokenList.serialize (TokenList.tokens el)).

(** Nothing is left for [optimizeInlineSVG] to do on the element. *)
Definition Optimized (el : Element) : Prop :=
  (exists v, Attr.get "id" (attributes el) = Some v)
  /\ classNormal el
  /\ TokenList.mem "replaced-svg" (TokenList.tokens el) = true
  /\ TokenList.mem "img-fluid" (TokenList.tokens el) = true
  /\ Attr.get "xmlns:a" (attributes el) = None
  /\ negb (Js.truthy (getAttribute el "viewBox"))
     && Js.truthy (getAttribute el "height")
     && Js.truthy (getAttribute el "width") = false.

(** How many times [replaceChild] was called. *)
Definition replacements (l : list Call) : nat :=
  length (filter (fun c => match c with
                           | CallReplaceChild => true
                           | _ => false
                           end) l).

(** [c] carries the prefix namespacing at clock reading [t] gives. *)
Definition uidPrefixed (t : N) (c : string) : bool :=
  String.prefix (uid t ++ "-") c.

(** The class a rule is renamed from ([oldElementClass], line 63). *)
Definition ruleOldClass (r : CSSRule) : option string :=
  match r with
  | CSSStyleRule selectorText _ => Some (Js.substring1 selectorText)
  | CSSOtherRule => None
  end.

(** The rule lists of the style sheets that children of a parsed root
    own. *)
Definition childSheets {Number} (B : Browser Number) (svgInline : Node)
  : list (list CSSRule) :=
  flat_map (fun c => if ownsSheet (element c)
                     then [cssRules B (innerHTML (element c))] else [])
           (childNodes svgInline).

(** A style sheet owned by a child of the root has a rule [.a]. *)
Definition definesClass {Number} (B : Browser Number) (svgInline : Node)
    (a : string) : bool :=
  existsb (existsb (fun r => match r with
                             | CSSStyleRule sel _ => sel =? ("." ++ a)
                             | CSSOtherRule => false
                             end))
          (childSheets B svgInline).

(** No rule of those style sheets is about a name that starts with
    uid- already. *)
Definition freshRules {Number} (B : Browser Number) (svgInline : Node) : bool :=
  forallb (forallb (fun r => match ruleOldClass r with
                             | Some old => negb (String.prefix "uid-" old)
                             | None => true
                             end))
          (childSheets B svgInline).

(** No element below the root carries a class that starts with uid-
    already. *)
Definition freshClasses (svgInline : Node) : bool :=
  forallb (fun q => match elementAt svgInline q with
                    | Some e => forallb (fun c => negb (String.prefix "uid-" c))
                                        (TokenList.tokens e)
                    | None => true
                    end)
          (descendants svgInline).

(** No descendant of the node at [p] carries the class [c]. *)
Definition noCarrier (p : Path) (c : string) (d : Node) : Prop :=
  forall q e, strictlyBelow p q = true -> elementAt d q = Some e ->
              TokenList.mem c (TokenList.tokens e) = false.

(** How the class list of an element may differ after namespacing at
    clock reading [t], as far as the class [a] is concerned: new names
    carry the prefix of [t]; an element that carried [a] or its new name
    carries one of them; [a] is not given to an element that had not
    got it. *)
Definition TokRel (t : N) (a : string) (e e' : Element) : Prop :=
  (forall c, In c (TokenList.tokens e') ->
             In c (TokenList.tokens e) \/ uidPrefixed t c = true)
  /\ (TokenList.mem a (TokenList.tokens e) = true
      \/ TokenList.mem (newElementClass t a) (TokenList.tokens e) = true ->
      TokenList.mem a (TokenList.tokens e') = true
      \/ TokenList.mem (newElementClass t a) (TokenList.tokens e') = true)
  /\ (TokenList.mem a (TokenList.tokens e) = false ->
      TokenList.mem a (TokenList.tokens e') = false).

(** [Touches], with [TokRel] on every element, and with the text of
    every node outside [ss] kept. *)
Definition Renames (t : N) (a : string) (p : Path) (ss : list Path)
    (d d' : Node) : Prop :=
  Touches p d d'
  /\ forall q e e',
      elementAt d q = Some e -> elementAt d' q = Some e' ->
      TokRel t a e e' /\ (~ In q ss -> innerHTML e' = innerHTML e).

(** The rules of the sheets in [ss] that style nodes under the root at
    [p] own in [d] are about names that do not start with uid-. *)
Definition FreshIn {Number} (B : Browser Number) (p : Path)
    (ss : list Path) (d : Node) : Prop :=
  forall s el r old,
    In s ss -> parentNode s = Some p -> elementAt d s = Some el ->
    In r (cssRules B (innerHTML el)) -> ruleOldClass r = Some old ->
    String.prefix "uid-" old = false.

(** One of the sheets in [ss] that style nodes under the root at [p] own
    in [d] has a rule [.a]. *)
Definition DefinedIn {Number} (B : Browser Number) (a : string) (p : Path)
    (ss : list Path) (d : Node) : Prop :=
  exists s el decls,
    In s ss /\ parentNode s = Some p /\ elementAt d s = Some el
    /\ In (CSSStyleRule ("." ++ a) decls) (cssRules B (innerHTML el)).

(** The descendants of the root of the graphic [svgInline], now below
    [p] in [doc], carry the new name of the class [a] for clock reading
    [t] where the markup had [a], none of them carries [a] or the name
    [a] has for clock reading [t'], and every class the markup did not
    have starts with the prefix of [t].  The root itself is not among
    them. *)
Definition NamespacedUnder (t t' : N) (a : string) (svgInline : Node)
    (p : Path) (doc : Node) : Prop :=
  forall rel e0,
    rel <> [] -> elementAt svgInline rel = Some e0 ->
    exists e,
      elementAt doc (p ++ rel) = Some e
      /\ (TokenList.mem a (TokenList.tokens e0) = true ->
          TokenList.mem (newElementClass t a) (TokenList.tokens e) = true)
      /\ TokenList.mem a (TokenList.tokens e) = false
      /\ TokenList.mem (newElementClass t' a) (TokenList.tokens e) = false
      /\ (forall c, In c (TokenList.tokens e) ->
                    In c (TokenList.tokens e0) \/ uidPrefixed t c = true).

(** The root of the graphic [svgInline], now at [p] in [doc], has the
    class list of its markup with replaced-svg and img-fluid added where
    they were missing: no class of the root itself has been renamed. *)
Definition RootClassesKept (svgInline : Node) (p : Path) (doc : Node)
  : Prop :=
  exists root,
    elementAt doc p = Some root
    /\ TokenList.tokens root
       = TokenList.append
           (TokenList.append (TokenList.tokens (element svgInline))
                             "replaced-svg")
           "img-fluid".

(** The stages of a conversion that goes through, named after what has
    been done to the document so far. *)
Module Stage.

Definition optimizedRoot (svgInline : Node) : Node :=
  mkNode (optimizeInlineSVG (element svgInline)) (childNodes svgInline).

(** After [replaceChild]. *)
Definition spliced (svgInline : Node) (p : Path) (doc : Node) : Node :=
  replaceAt (optimizedRoot svgInline) p doc.

(** After the second run of [optimizeInlineSVG], on the inserted root. *)
Definition reoptimized (svgInline : Node) (p : Path) (doc : Node) : Node :=
  modifyAt optimizeInlineSVG p (spliced svgInline p doc).

(** After [removeSVGWhiteSpace]. *)
Definition trimmed (viewBox : string) (svgInline : Node) (p : Path)
    (doc : Node) : Node :=
  modifyAt (setAttribute "viewBox" viewBox) p (reoptimized svgInline p doc).

(** After [safariHack]. *)
Definition repainted (p : Path) (doc : Node) : Node :=
  modifyAt (setStyleDisplay "flex") p (modifyAt (setStyleDisplay "none") p doc).

(** The calls of a conversion that goes through, in order. *)
Definition allCalls (url : string) : list Call :=
  [CallFetch url; CallOptimizeInlineSVG; CallReplaceChild;
   CallOptimizeInlineSVG; CallRemoveSVGWhiteSpace;
   CallSvgPrependClassIdentifiers; CallSafariHack].

End Stage.

(* ================================================================== *)
(** * Concrete pages and hosts used by the examples below *)

Module Sample.

Definition el (name : string) (attrs : list (string * string)) : Element :=
  mkElement name attrs [] "".

(** An image with an id and no class, pointing at [logo.svg]. *)
Definition img : Node :=
  mkNode (el "img" [("id", "logo"); ("data-svg-src", "logo.svg")]) [].

(** [<html><body><img id="logo" data-svg-src="logo.svg"></body></html>] *)
Definition page : Node :=
  mkNode (el "#document" [])
    [mkNode (el "html" []) [mkNode (el "body" []) [img]]].

Definition imgRef : Path := [0; 0; 0]%nat.

(** [<svg height="100" width="50"><style>.a{fill:red}</style>
     <rect class="a"/></svg>] as the parser returns it. *)
Definition logo : Node :=
  mkNode (el "#document" [])
    [mkNode (el "svg" [("height", "100"); ("width", "50")])
       [mkNode (mkElement "style" [] [] ".a{fill:red}") [];
        mkNode (el "rect" [("class", "a")]) []]].

(** A host that serves [logo.svg], parses it to [logo], reads the one
    rule of its style node and lays every root out in the same box. *)
Definition host : Browser N :=
  mkBrowser N
    (fun url => if url =? "logo.svg" then Some "<svg/>" else None)
    (fun _ => logo)
    (fun css => if css =? ".a{fill:red}"
                then [CSSStyleRule ".a" [("fill", "red")]] else [])
    (fun _ _ => Some (mkRect 1%N 2%N 30%N 40%N))
    (fun url => url)
    Js.natToString.

(** The conversion of the image of [page] at clock reading 7. *)
Definition world : World := mkWorld page [].

Definition run : Completion * World :=
  convertSVGtoInline host 7 imgRef world.

(** A page after an insertion: a page-wide style sheet in the head and,
    in the body, an inserted root with its own style node. *)
Definition inlined : Node :=
  mkNode (el "#document" [])
    [mkNode (el "html" [])
       [mkNode (el "head" [])
          [mkNode (mkElement "style" [] [] ".a{color:blue}") []];
        mkNode (el "body" [])
          [mkNode (el "svg" [])
             [mkNode (mkElement "style" [] [] ".a{fill:red}") [];
              mkNode (el "rect" [("class", "a")]) []]]]].

Definition inlinedRoot : Path := [0; 1; 0]%nat.

Definition headStyle : Path := [0; 0; 0]%nat.

Definition namespaced : Completion * World :=
  svgPrependClassIdentifiers host 7 inlinedRoot (mkWorld inlined []).

(** The page with an image that has a [src] nobody serves. *)
Definition gone : Element := el "img" [("src", "gone.svg")].

Definition goneWorld : World :=
  mkWorld (replaceAt (mkNode gone []) imgRef page) [].

(** The page with an image that has neither URL channel. *)
Definition bare : Element := el "img" [].

Definition bareWorld : World :=
  mkWorld (replaceAt (mkNode bare []) imgRef page) [].

(** A host that answers every URL, the empty one too, with the markup of
    [logo] (a page that is itself that graphic). *)
Definition openHost : Browser N :=
  mkBrowser N (fun _ => Some "<svg/>") (parseFromString host)
            (cssRules host) (getBBox host) (resolveURL host)
            (numberToString host).

End Sample.

(** ** A page whose graphic styles an element by its name *)
Module Hidden.

(** [<svg><style>rect{display:none}</style><rect width="5"
    height="5"/></svg>] *)
Definition art : Node :=
  mkNode (Sample.el "#document" [])
    [mkNode (Sample.el "svg" [])
       [mkNode (mkElement "style" [] [] "rect{display:none}") [];
        mkNode (Sample.el "rect" [("width", "5"); ("height", "5")]) []]].

(** The layout of this graphic: while the style node holds the rule
    [rect{display:none}] the rectangle is not rendered and the box of the
    root is empty; with any other style text the rectangle is rendered
    and the box is 5 by 5. *)
Definition layout (doc : Node) (root : Path) : option (SVGRect N) :=
  match elementAt doc (root ++ [0%nat]) with
  | Some styleNode =>
      if innerHTML styleNode =? "rect{display:none}"
      then Some (mkRect 0%N 0%N 0%N 0%N)
      else Some (mkRect 0%N 0%N 5%N 5%N)
  | None => None
  end.

Definition host : Browser N :=
  mkBrowser N
    (fun url => if url =? "logo.svg" then Some "<svg/>" else None)
    (fun _ => art)
    (fun css => if css =? "rect{display:none}"
                then [CSSStyleRule "rect" [("display", "none")]] else [])
    layout
    (fun url => url)
    Js.natToString.

Definition run : Completion * World :=
  convertSVGtoInline host 7 Sample.imgRef Sample.world.

End Hidden.

(** ** A page with two images whose graphics both define [.a] *)
Module Pair.

Definition page : Node :=
  mkNode (Sample.el "#document" [])
    [mkNode (Sample.el "html" [])
       [mkNode (Sample.el "body" [])
          [mkNode (Sample.el "img" [("data-svg-src", "one.svg")]) [];
           mkNode (Sample.el "img" [("data-svg-src", "two.svg")]) []]]].

Definition first : Path := [0; 0; 0]%nat.
Definition second : Path := [0; 0; 1]%nat.

(** [<svg><style>.a{fill:red}</style><rect class="a"/></svg>] and the
    same with blue. *)
Definition graphic (css : string) : Node :=
  mkNode (Sample.el "svg" [])
    [mkNode (mkElement "style" [] [] css) [];
     mkNode (Sample.el "rect" [("class", "a")]) []].

Definition one : Node := graphic ".a{fill:red}".
Definition two : Node := graphic ".a{fill:blue}".

(** The same graphics as an authoring tool may write them, with the
    style node inside [<defs>]. *)
Definition nested (css : string) : Node :=
  mkNode (Sample.el "svg" [])
    [mkNode (Sample.el "defs" []) [mkNode (mkElement "style" [] [] css) []];
     mkNode (Sample.el "rect" [("class", "a")]) []].

(** The same graphics with the class on the svg element as well. *)
Definition rooted (css : string) : Node :=
  mkNode (Sample.el "svg" [("class", "a")])
    [mkNode (mkElement "style" [] [] css) [];
     mkNode (Sample.el "rect" [("class", "a")]) []].

Definition rules (css : string) : list CSSRule :=
  if css =? ".a{fill:red}" then [CSSStyleRule ".a" [("fill", "red")]]
  else if css =? ".a{fill:blue}" then [CSSStyleRule ".a" [("fill", "blue")]]
  else [].

Definition host (shape : string -> Node) : Browser N :=
  mkBrowser N
    (fun url => if url =? "one.svg" then Some "1"
                else if url =? "two.svg" then Some "2" else None)
    (fun text => mkNode (Sample.el "#document" [])
                   [shape (if text =? "1" then ".a{fill:red}"
                           else ".a{fill:blue}")])
    rules
    (fun _ _ => Some (mkRect 0%N 0%N 10%N 10%N))
    (fun url => url)
    Js.natToString.

(** The first image converted at clock reading [t1], then the second at
    [t2]. *)
Definition afterFirst (shape : string -> Node) (t1 : N) : Completion * World :=
  convertSVGtoInline (host shape) t1 first (mkWorld page []).

Definition afterBoth (shape : string -> Node) (t1 t2 : N)
  : Completion * World :=
  convertSVGtoInline (host shape) t2 second (snd (afterFirst shape t1)).

End Pair.

(** ** The claims that fail on the code, as the specification words them *)
Module AsStated.

(** Style namespacing run on the inserted root before the box is
    measured, as the specification orders the fixups. *)
Definition namespacedFirst {Number} (B : Browser Number) (t : N)
    (svgInline : Node) (p : Path) (doc : Node) : Completion * Node :=
  let d1 := Stage.reoptimized svgInline p doc in
  prependSheets B t p (styleSheets d1) d1.

(** C3: the final view box is the box of the root measured after
    insertion and after namespacing. *)
Definition C3 : Prop :=
  forall Number (B : Browser Number) t p w w',
    convertSVGtoInline B t p w = (Normal, w') ->
    exists source text svgInline rest dNS bbox root,
      elementAt (document w) p = Some source
      /\ fetch B (Js.toString (imgURL B source)) = Some text
      /\ getElementsByTagName (parseFromString B text) "svg" = svgInline :: rest
      /\ namespacedFirst B t svgInline p (document w) = (Normal, dNS)
      /\ getBBox B dNS p = Some bbox
      /\ elementAt (document w') p = Some root
      /\ Attr.get "viewBox" (attributes root) = Some (viewBoxOf B bbox).

(** C5: with no usable URL on either channel nothing happens at all. *)
Definition C5 : Prop :=
  forall Number (B : Browser Number) t p w source,
    elementAt (document w) p = Some source ->
    Js.truthy (dataset_svgSrc source) = false ->
    Js.truthy (src B source) = false ->
    exists w', convertSVGtoInline B t p w = (Normal, w')
               /\ document w' = document w.

(** Some style sheet of the parsed graphic, at any depth, has a rule
    [.a]. *)
Definition markupDefinesClass {Number} (B : Browser Number) (svgInline : Node)
    (a : string) : bool :=
  existsb (fun q => match elementAt svgInline q with
                    | Some el =>
                        ownsSheet el
                        && existsb (fun r => match r with
                                             | CSSStyleRule sel _ => sel =? ("." ++ a)
                                             | CSSOtherRule => false
                                             end)
                                   (cssRules B (innerHTML el))
                    | None => false
                    end)
          (descendants svgInline).

(** The elements of the graphic that had the class [a] carry [n] in its
    place and do not carry [n']. *)
Definition Carry (a n n' : string) (svgInline : Node) (p : Path) (doc : Node)
  : Prop :=
  forall rel e0,
    rel <> [] -> elementAt svgInline rel = Some e0 ->
    TokenList.mem a (TokenList.tokens e0) = true ->
    exists e,
      elementAt doc (p ++ rel) = Some e
      /\ TokenList.mem n (TokenList.tokens e) = true
      /\ TokenList.mem a (TokenList.tokens e) = false
      /\ TokenList.mem n' (TokenList.tokens e) = false.

(** C6: whenever two graphics converted into one page both define a
    class [.a], the class has got two different names in the two roots,
    and the elements of each root carry the name of their root only. *)
Definition C6 : Prop :=
  forall Number (B : Browser Number) t1 t2 p1 p2 w0 w1 w2
         source1 text1 svg1 rest1 source2 text2 svg2 rest2 a,
    convertSVGtoInline B t1 p1 w0 = (Normal, w1) ->
    convertSVGtoInline B t2 p2 w1 = (Normal, w2) ->
    elementAt (document w0) p1 = Some source1 ->
    fetch B (Js.toString (imgURL B source1)) = Some text1 ->
    getElementsByTagName (parseFromString B text1) "svg" = svg1 :: rest1 ->
    elementAt (document w1) p2 = Some source2 ->
    fetch B (Js.toString (imgURL B source2)) = Some text2 ->
    getElementsByTagName (parseFromString B text2) "svg" = svg2 :: rest2 ->
    isPrefix p1 p2 = false -> isPrefix p2 p1 = false ->
    markupDefinesClass B svg1 a = true ->
    markupDefinesClass B svg2 a = true ->
    exists n1 n2,
      n1 <> n2
      /\ Carry a n1 n2 svg1 p1 (document w2)
      /\ Carry a n2 n1 svg2 p2 (document w2).

(** C7: a root with no viewBox attribute and with both a height and a
    width attribute gets the synthesised view box; a root that has a
    viewBox attribute keeps it. *)
Definition C7 : Prop :=
  forall el : Element,
    (forall h w,
        Attr.get "viewBox" (attributes el) = None ->
        Attr.get "height" (attributes el) = Some h ->
        Attr.get "width" (attributes el) = Some w ->
        Attr.get "viewBox" (attributes (optimizeInlineSVG el))
        = Some ("0 0 " ++ h ++ " " ++ w)%string)
    /\ (forall v,
           Attr.get "viewBox" (attributes el) = Some v ->
           Attr.get "viewBox" (attributes (optimizeInlineSVG el)) = Some v).

End AsStated.

(** The text lines 68-74 write for the declarations of one rule. *)
Definition declsText (newClass : string) (decls : list (string * string))
  : string :=
  fold_right (fun decl rest => (ruleText newClass decl ++ rest)%string) ""
             decls.

(** The text namespacing at clock reading [t] writes for a rule list:
    one line for every declaration of every rule, in order, under the
    new name of the rule. *)
Definition rulesText (t : N) (rules : list CSSRule) : string :=
  fold_right
    (fun r rest =>
       match r with
       | CSSStyleRule sel decls =>
           (declsText (newElementClass t (Js.substring1 sel)) decls ++ rest)%string
       | CSSOtherRule => rest
       end) "" rules.

(** The text a node holds, if there is such a node. *)
Definition textAt (d : Node) (q : Path) : option string :=
  option_map innerHTML (elementAt d q).

(** A style sheet owned by a child of the root has a rule that is not a
    style rule. *)
Definition hasAtRule {Number} (B : Browser Number) (svgInline : Node) : bool :=
  existsb (existsb (fun r => match r with
                             | CSSOtherRule => true
                             | CSSStyleRule _ _ => false
                             end))
          (childSheets B svgInline).

(** Between [d0] and [d] every element is as it was or, if it is a
    descendant of [p] that carried [old], has had [old] replaced by [new]
    in its class list, once. *)
Definition RenamedOnce (p : Path) (old new : string) (d0 d : Node) : Prop :=
  forall q e e',
    elementAt d0 q = Some e -> elementAt d q = Some e' ->
    e' = e
    \/ (strictlyBelow p q = true
        /\ TokenList.mem old (TokenList.tokens e) = true
        /\ TokenList.tokens e'
           = TokenList.replaceIn old new (TokenList.tokens e)).

(** ** Further pages for the properties beyond the claims *)
Module More.

(** A root as an authoring tool exports it: a stray namespace
    declaration, a class list with a repeated class, a data attribute
    and both dimensions. *)
Definition exported : Element :=
  Sample.el "svg" [("xmlns:a", "http://ns.adobe.com/AdobeSVGViewerExtensions/3.0/");
                   ("class", "logo  big logo"); ("data-name", "Layer 1");
                   ("height", "100"); ("width", "50")].

(** A host like [Sample.host] whose layout has no [getBBox] for the
    root (markup without the SVG namespace). *)
Definition noBox : Browser N :=
  mkBrowser N (fetch Sample.host) (parseFromString Sample.host)
            (cssRules Sample.host) (fun _ _ => None)
            (resolveURL Sample.host) (numberToString Sample.host).

(** A host like [Sample.host] whose response holds no svg element. *)
Definition noGraphic : Browser N :=
  mkBrowser N (fetch Sample.host)
            (fun _ => mkNode (Sample.el "#document" [])
                        [mkNode (Sample.el "parsererror" []) []])
            (cssRules Sample.host) (getBBox Sample.host)
            (resolveURL Sample.host) (numberToString Sample.host).

(** An image that is in no document: a tree of its own. *)
Definition detached : World := mkWorld Sample.img [].

(** An inserted root whose style node holds a media query. *)
Definition responsive : Node :=
  mkNode (Sample.el "#document" [])
    [mkNode (Sample.el "svg" [])
       [mkNode (mkElement "style" [] [] "@media print{.a{fill:black}}") [];
        mkNode (Sample.el "rect" [("class", "a")]) []]].

(** A host like [Sample.host] that serves that graphic and reads its
    sheet as one at-rule. *)
Definition mediaHost : Browser N :=
  mkBrowser N (fetch Sample.host) (fun _ => responsive)
            (fun css => if css =? "@media print{.a{fill:black}}"
                        then [CSSOtherRule] else [])
            (getBBox Sample.host) (resolveURL Sample.host)
            (numberToString Sample.host).

Definition responsiveRun : Completion * World :=
  svgPrependClassIdentifiers mediaHost 7 [0%nat] (mkWorld responsive []).

(** An inserted root with two style elements: one whose type is not a
    style sheet language, which owns no sheet, and one of type
    text/css. *)
Definition typed : Node :=
  mkNode (Sample.el "#document" [])
    [mkNode (Sample.el "svg" [])
       [mkNode (mkElement "style" [("type", "text/x-none")] []
                          ".a{fill:red}") [];
        mkNode (mkElement "style" [("type", "text/css")] []
                          ".a{fill:red}") [];
        mkNode (Sample.el "rect" [("class", "a")]) []]].

Definition typedRun : Completion * World :=
  svgPrependClassIdentifiers Sample.host 7 [0%nat] (mkWorld typed []).

(** An image input with a [src] and no data field. *)
Definition field : Element :=
  Sample.el "input" [("type", "image"); ("src", "other.svg")].

(** A placeholder that has no [src] property and no data field. *)
Definition plain : Element := Sample.el "div" [("src", "other.svg")].

(** The conversion of the image of [Sample.page] on that host. *)
Definition mediaRun : Completion * World :=
  convertSVGtoInline mediaHost 7 Sample.imgRef Sample.world.

(** The rule [.a rect{fill:red}] of the style node of [Sample.inlined],
    gone through at clock reading 7. *)
Definition compound : Completion * Node :=
  prependRule 7 Sample.inlinedRoot (Sample.inlinedRoot ++ [0%nat])
              (CSSStyleRule ".a rect" [("fill", "red")]) Sample.inlined.

(** The rule [.a{fill:red}] of the same style node. *)
Definition simple : Completion * Node :=
  prependRule 7 Sample.inlinedRoot (Sample.inlinedRoot ++ [0%nat])
              (CSSStyleRule ".a" [("fill", "red")]) Sample.inlined.

End More.

(** Unfolding of the statements of a run. *)
Ltac run_steps :=
  cbv beta delta [andThen called mutate onDocument throw
                  processFeaturedMerchantsImages removeSVGWhiteSpace
                  svgPrependClassIdentifiers safariHack] iota;
  cbn [document calls].

(* ================================================================== *)
(** * Attribute lists *)

Module AttrFacts.

Lemma get_set_same name v l : Attr.get name (Attr.set name v l) = Some v.
Proof.
  induction l as [|[k w] r IH]; simpl.
  - now rewrite String.eqb_refl.
  - destruct (k =? name) eqn:E; simpl; rewrite E; auto.
Qed.

Lemma get_set_other name other v l :
  (name =? other) = false ->
  Attr.get other (Attr.set name v l) = Attr.get other l.
Proof.
  intros Hne. induction l as [|[k w] r IH]; simpl.
  - now rewrite Hne.
  - destruct (k =? name) eqn:E; simpl.
    + apply String.eqb_eq in E. subst k. now rewrite Hne.
    + destruct (k =? other); auto.
Qed.

Lemma get_remove_other name other l :
  (name =? other) = false ->
  Attr.get other (Attr.remove name l) = Attr.get other l.
Proof.
  intros Hne. induction l as [|[k w] r IH]; simpl; auto.
  destruct (k =? name) eqn:E; simpl.
  - apply String.eqb_eq in E. subst k. now rewrite Hne.
  - destruct (k =? other); auto.
Qed.

(** Writing the value an attribute already has changes nothing. *)
Lemma set_current name v l :
  Attr.get name l = Some v -> Attr.set name v l = l.
Proof.
  induction l as [|[k w] r IH]; simpl; intros H; try discriminate.
  destruct (k =? name) eqn:E.
  - now inversion H.
  - now rewrite IH.
Qed.

Lemma remove_absent name l :
  Attr.get name l = None -> Attr.remove name l = l.
Proof.
  induction l as [|[k w] r IH]; simpl; intros H; auto.
  destruct (k =? name) eqn:E; try discriminate.
  now rewrite IH.
Qed.

Lemma get_remove_same name l :
  Attr.distinct l = true -> Attr.get name (Attr.remove name l) = None.
Proof.
  induction l as [|[k w] r IH]; simpl; intros H; auto.
  destruct (Attr.get k r) eqn:Hk; try discriminate.
  destruct (k =? name) eqn:E; simpl.
  - apply String.eqb_eq in E. now subst k.
  - rewrite E. auto.
Qed.

End AttrFacts.

(* ================================================================== *)
(** * Attribute optimisation *)

Lemma attributes_add_other t name el :
  ("class" =? name) = false ->
  Attr.get name (attributes (TokenList.add t el)) = Attr.get name (attributes el).
Proof.
  intros Hne. unfold TokenList.add, TokenList.update.
  destruct (Attr.get "class" (attributes el));
    [|destruct (TokenList.append (TokenList.tokens el) t)];
    simpl; auto using AttrFacts.get_set_other.
Qed.

(** The steps of [optimizeInlineSVG] before [setViewport] touch the
    attributes id, class and xmlns:a only. *)
Lemma optimize_prefix_other name el :
  ("id" =? name) = false -> ("class" =? name) = false ->
  ("xmlns:a" =? name) = false ->
  Attr.get name
    (attributes
       (removeAttribute "xmlns:a"
          (TokenList.add "img-fluid"
             (TokenList.add "replaced-svg"
                (setAttribute "id" (Js.toString (id el)) el)))))
  = Attr.get name (attributes el).
Proof.
  intros H1 H2 H3. simpl.
  rewrite AttrFacts.get_remove_other by assumption.
  rewrite !attributes_add_other by assumption.
  simpl. now apply AttrFacts.get_set_other.
Qed.

Lemma optimizeInlineSVG_unfold el :
  optimizeInlineSVG el =
  setViewport
    (removeAttribute "xmlns:a"
       (TokenList.add "img-fluid"
          (TokenList.add "replaced-svg"
             (setAttribute "id" (Js.toString (id el)) el)))).
Proof.
  unfold optimizeInlineSVG, id, className.
  destruct (Attr.get "id" (attributes el)), (Attr.get "class" (attributes el));
    reflexivity.
Qed.

Lemma truthy_Str s : Js.truthy (Js.Str s) = true <-> s <> "".
Proof.
  simpl. rewrite negb_true_iff. split.
  - intros H E. subst. discriminate.
  - intros H. apply String.eqb_neq. exact H.
Qed.

Lemma viewBox_setViewport svg :
  Attr.get "viewBox" (attributes (setViewport svg)) =
  if negb (Js.truthy (getAttribute svg "viewBox"))
     && Js.truthy (getAttribute svg "height")
     && Js.truthy (getAttribute svg "width")
  then Some ("0 0 " ++ Js.toString (getAttribute svg "height") ++ " "
                    ++ Js.toString (getAttribute svg "width"))%string
  else Attr.get "viewBox" (attributes svg).
Proof.
  unfold setViewport.
  destruct (negb (Js.truthy (getAttribute svg "viewBox"))
            && Js.truthy (getAttribute svg "height")
            && Js.truthy (getAttribute svg "width")); auto.
  apply AttrFacts.get_set_same.
Qed.

(** C7 (as amended).  [optimizeInlineSVG] writes the view box
    "0 0 <height> <width>", height first, exactly when the root has no
    view box or an empty one and has a non-empty height and a non-empty
    width; in every other case the viewBox attribute is left as it was. *)
Theorem C7_viewBox_synthesised_on_truthy_attributes :
  forall el : Element,
    (forall h w,
        (Attr.get "viewBox" (attributes el) = None
         \/ Attr.get "viewBox" (attributes el) = Some "") ->
        Attr.get "height" (attributes el) = Some h -> h <> "" ->
        Attr.get "width" (attributes el) = Some w -> w <> "" ->
        Attr.get "viewBox" (attributes (optimizeInlineSVG el))
        = Some ("0 0 " ++ h ++ " " ++ w)%string)
    /\
    ((exists v, Attr.get "viewBox" (attributes el) = Some v /\ v <> "")
     \/ Attr.get "height" (attributes el) = None
     \/ Attr.get "height" (attributes el) = Some ""
     \/ Attr.get "width" (attributes el) = None
     \/ Attr.get "width" (attributes el) = Some "" ->
     Attr.get "viewBox" (attributes (optimizeInlineSVG el))
     = Attr.get "viewBox" (attributes el)).
Proof.
  intros el. rewrite optimizeInlineSVG_unfold.
  set (s4 := removeAttribute "xmlns:a" _).
  assert (Hv : Attr.get "viewBox" (attributes s4) = Attr.get "viewBox" (attributes el))
    by (apply optimize_prefix_other; reflexivity).
  assert (Hh : Attr.get "height" (attributes s4) = Attr.get "height" (attributes el))
    by (apply optimize_prefix_other; reflexivity).
  assert (Hw : Attr.get "width" (attributes s4) = Attr.get "width" (attributes el))
    by (apply optimize_prefix_other; reflexivity).
  rewrite viewBox_setViewport. unfold getAttribute.
  rewrite Hv, Hh, Hw. clearbody s4. split.
  - intros h w Hvb Hh' Hhne Hw' Hwne. rewrite Hh', Hw'.
    apply truthy_Str in Hhne. apply truthy_Str in Hwne.
    rewrite Hhne, Hwne.
    destruct Hvb as [-> | ->]; reflexivity.
  - intros [[v [Hv' Hne]] | [H | [H | [H | H]]]].
    + rewrite Hv'. apply truthy_Str in Hne. now rewrite Hne.
    + rewrite H. cbn [Js.truthy]. now rewrite andb_false_r.
    + rewrite H. cbn [Js.truthy String.eqb negb]. now rewrite andb_false_r.
    + rewrite H. cbn [Js.truthy]. now rewrite andb_false_r.
    + rewrite H. cbn [Js.truthy String.eqb negb]. now rewrite andb_false_r.
Qed.

(** C7 as the specification words it fails: a root with an empty height
    attribute, a width and no viewBox declares both attributes and gets
    no view box. *)
Lemma C7_counterexample_empty_height : ~ AsStated.C7.
Proof.
  intros H.
  destruct (H (Sample.el "svg" [("height", ""); ("width", "50")])) as [H1 _].
  specialize (H1 "" "50" eq_refl eq_refl eq_refl).
  vm_compute in H1. discriminate.
Qed.

Lemma C7_witness :
  Attr.get "viewBox"
    (attributes (optimizeInlineSVG
                   (Sample.el "svg" [("height", "100"); ("width", "50")])))
  = Some "0 0 100 50"
  /\ Attr.get "viewBox"
       (attributes (optimizeInlineSVG
                      (Sample.el "svg" [("height", ""); ("width", "50")])))
     = None.
Proof.
  split.
  - apply (proj1 (C7_viewBox_synthesised_on_truthy_attributes
                    (Sample.el "svg" [("height", "100"); ("width", "50")]))
                 "100" "50");
      solve [left; reflexivity | reflexivity | discriminate].
  - apply (proj2 (C7_viewBox_synthesised_on_truthy_attributes
                    (Sample.el "svg" [("height", ""); ("width", "50")]))).
    right. right. left. reflexivity.
Defined.

(* ================================================================== *)
(** * Paths and updates of the tree *)

Lemma pathEqb_eq a b : pathEqb a b = true <-> a = b.
Proof.
  revert b. induction a as [|i a IH]; destruct b as [|j b]; simpl;
    try (split; [discriminate | discriminate]); try tauto.
  rewrite andb_true_iff, Nat.eqb_eq, IH. split.
  - intros [-> ->]. reflexivity.
  - intros H. inversion H. auto.
Qed.

Lemma pathEqb_refl a : pathEqb a a = true.
Proof. now apply pathEqb_eq. Qed.

Lemma pathEqb_neq a b : pathEqb a b = false <-> a <> b.
Proof.
  split.
  - intros H E. apply pathEqb_eq in E. congruence.
  - intros H. destruct (pathEqb a b) eqn:E; auto.
    apply pathEqb_eq in E. contradiction.
Qed.

Lemma isPrefix_app a r : isPrefix a (a ++ r) = true.
Proof. induction a; simpl; auto. now rewrite Nat.eqb_refl. Qed.

Lemma isPrefix_inv a b : isPrefix a b = true -> exists r, b = a ++ r.
Proof.
  revert b. induction a as [|i a IH]; intros b H.
  - now exists b.
  - destruct b as [|j b]; try discriminate. simpl in H.
    apply andb_true_iff in H. destruct H as [Hi H].
    apply Nat.eqb_eq in Hi. subst j.
    destruct (IH _ H) as [r ->]. now exists r.
Qed.

Lemma strictlyBelow_app p r : r <> [] -> strictlyBelow p (p ++ r) = true.
Proof.
  intros Hr. unfold strictlyBelow. rewrite isPrefix_app. simpl.
  apply negb_true_iff, pathEqb_neq. intros E.
  rewrite <- (app_nil_r p) in E at 1. apply app_inv_head in E. auto.
Qed.

Lemma strictlyBelow_irrefl p : strictlyBelow p p = false.
Proof. unfold strictlyBelow. now rewrite pathEqb_refl, andb_false_r. Qed.

Lemma parentNode_app p i : parentNode (p ++ [i]) = Some p.
Proof.
  unfold parentNode. rewrite removelast_last. now destruct p.
Qed.

Lemma parentNode_inv q p : parentNode q = Some p -> exists i, q = p ++ [i].
Proof.
  destruct q as [|j q]; try discriminate.
  destruct (exists_last (l := j :: q)) as [l [a E]]; try discriminate.
  rewrite E, parentNode_app. intros H. inversion H. now exists a.
Qed.

Lemma nth_error_updateNth {A} (f : A -> A) l i j :
  nth_error (updateNth i f l) j =
  if (i =? j)%nat then option_map f (nth_error l j) else nth_error l j.
Proof.
  revert i j. induction l as [|a l IH]; intros i j.
  - simpl. destruct j; simpl; destruct (i =? _)%nat; reflexivity.
  - destruct i, j; simpl; auto.
Qed.

Lemma elementAt_cons n i q :
  elementAt n (i :: q) =
  match nth_error (childNodes n) i with
  | Some c => elementAt c q
  | None => None
  end.
Proof. unfold elementAt. simpl. now destruct (nth_error (childNodes n) i). Qed.

(** A change to one element is seen at its path and nowhere else. *)
Lemma elementAt_modifyAt g q n q' :
  elementAt (modifyAt g q n) q' =
  if pathEqb q q' then option_map g (elementAt n q') else elementAt n q'.
Proof.
  revert n q'. induction q as [|i q IH]; intros n q'.
  - destruct q' as [|j q']; simpl; auto.
  - destruct q' as [|j q']; auto.
    unfold modifyAt in *. cbn [updateAt pathEqb].
    rewrite !elementAt_cons. cbn [childNodes].
    rewrite nth_error_updateNth.
    destruct (i =? j)%nat eqn:E; cbn [andb]; auto.
    apply Nat.eqb_eq in E. subst j.
    destruct (nth_error (childNodes n) i); cbn [option_map].
    + apply IH.
    + now destruct (pathEqb q q').
Qed.

(** Whatever is done to the node at [q], an element that is neither that
    node nor one of its descendants is unchanged. *)
Lemma elementAt_updateAt_off f q n q' :
  isPrefix q q' = false -> elementAt (updateAt f q n) q' = elementAt n q'.
Proof.
  revert n q'. induction q as [|i q IH]; intros n q' H; try discriminate.
  destruct q' as [|j q']; auto.
  cbn [updateAt]. rewrite !elementAt_cons. cbn [childNodes].
  rewrite nth_error_updateNth. simpl in H.
  destruct (i =? j)%nat eqn:E; auto.
  destruct (nth_error (childNodes n) j); cbn [option_map]; auto.
Qed.

Lemma nodeAt_updateAt_same f q n :
  nodeAt (updateAt f q n) q = option_map f (nodeAt n q).
Proof.
  revert n. induction q as [|i q IH]; intros n; auto.
  cbn [updateAt nodeAt childNodes]. rewrite nth_error_updateNth, Nat.eqb_refl.
  destruct (nth_error (childNodes n) i); cbn [option_map]; auto.
Qed.

(** Below the node a change is applied to, the change is all there is. *)
Lemma nodeAt_updateAt_below f q n r :
  nodeAt (updateAt f q n) (q ++ r) =
  match nodeAt n q with
  | Some m => nodeAt (f m) r
  | None => None
  end.
Proof.
  revert n. induction q as [|i q IH]; intros n; auto.
  cbn [updateAt nodeAt childNodes app]. rewrite nth_error_updateNth, Nat.eqb_refl.
  destruct (nth_error (childNodes n) i); cbn [option_map]; auto.
Qed.

Lemma nodeAt_app n q r :
  nodeAt n (q ++ r) =
  match nodeAt n q with
  | Some m => nodeAt m r
  | None => None
  end.
Proof.
  revert n. induction q as [|i q IH]; intros n; auto.
  cbn [nodeAt app]. destruct (nth_error (childNodes n) i); auto.
Qed.

Lemma elementAt_app n q r :
  elementAt n (q ++ r) =
  match nodeAt n q with
  | Some m => elementAt m r
  | None => None
  end.
Proof.
  unfold elementAt. rewrite nodeAt_app. now destruct (nodeAt n q).
Qed.

Lemma elementAt_some_nodeAt n q e :
  elementAt n q = Some e -> exists m, nodeAt n q = Some m /\ element m = e.
Proof.
  unfold elementAt. destruct (nodeAt n q) as [m|]; simpl; intros H;
    inversion H. now exists m.
Qed.

Lemma paths_unfold e cs : paths (mkNode e cs) = [] :: pathsBelow 0 cs.
Proof.
  reflexivity.
Qed.

Lemma pathsBelow_nonempty l : forall i r, In r (pathsBelow i l) -> r <> [].
Proof.
  induction l as [|c l IH]; simpl; intros i r H; try contradiction.
  apply in_app_or in H. destruct H as [H | H].
  - apply in_map_iff in H. destruct H as [x [<- _]]. discriminate.
  - eapply IH; eauto.
Qed.

Lemma descendants_nonempty n r : In r (descendants n) -> r <> [].
Proof.
  destruct n as [e cs]. unfold descendants. rewrite paths_unfold. simpl.
  apply pathsBelow_nonempty.
Qed.

(** Every element [getElementsByClassName] returns is a descendant of
    the node it is called on. *)
Lemma getElementsByClassName_below doc p names q :
  In q (getElementsByClassName doc p names) -> strictlyBelow p q = true.
Proof.
  unfold getElementsByClassName.
  destruct (nodeAt doc p) as [root|]; try contradiction.
  destruct (TokenList.parse names) as [|c cs]; try contradiction.
  intros H. apply in_map_iff in H. destruct H as [r [<- H]].
  apply filter_In in H. destruct H as [H _].
  apply strictlyBelow_app. eapply descendants_nonempty; eauto.
Qed.

(* ================================================================== *)
(** * What style namespacing leaves alone *)

Lemma keptBy_refl p q e : keptBy p q e e.
Proof. repeat split; auto. Qed.

Lemma keptBy_trans p q e1 e2 e3 :
  keptBy p q e1 e2 -> keptBy p q e2 e3 -> keptBy p q e1 e3.
Proof.
  intros (A1 & A2 & A3 & A4 & A5) (B1 & B2 & B3 & B4 & B5).
  repeat split; try congruence.
  - intros name H. rewrite B3, A3; auto.
  - intros H. rewrite B4, A4; auto.
  - intros H. rewrite B5, A5; auto.
Qed.

Lemma pathsBelow_updateNth (G : Node -> Node) :
  (forall c, paths (G c) = paths c) ->
  forall cs i k, pathsBelow k (updateNth i G cs) = pathsBelow k cs.
Proof.
  intros HG. induction cs as [|c cs IH]; intros i k; auto.
  destruct i; simpl.
  - now rewrite HG.
  - now rewrite IH.
Qed.

(** A change to what an element holds keeps the shape of the tree. *)
Lemma paths_modifyAt g q : forall n, paths (modifyAt g q n) = paths n.
Proof.
  unfold modifyAt. induction q as [|i q IH]; intros [e cs].
  - reflexivity.
  - cbn [updateAt element childNodes]. rewrite !paths_unfold.
    f_equal. now apply pathsBelow_updateNth.
Qed.

Lemma Touches_refl p d : Touches p d d.
Proof.
  split; auto. intros q. destruct (elementAt d q); auto using keptBy_refl.
Qed.

Lemma Touches_trans p d1 d2 d3 :
  Touches p d1 d2 -> Touches p d2 d3 -> Touches p d1 d3.
Proof.
  intros [P1 H1] [P2 H2]. split; [congruence|].
  intros q. specialize (H1 q). specialize (H2 q).
  destruct (elementAt d1 q), (elementAt d2 q), (elementAt d3 q);
    try contradiction; eauto using keptBy_trans.
Qed.

(** A change at one path is within bounds as soon as it is there. *)
Lemma Touches_modifyAt p g q d :
  (forall e, elementAt d q = Some e -> keptBy p q e (g e)) ->
  Touches p d (modifyAt g q d).
Proof.
  intros H. split; [apply paths_modifyAt|].
  intros q'. rewrite elementAt_modifyAt.
  destruct (pathEqb q q') eqn:E.
  - apply pathEqb_eq in E. subst q'.
    destruct (elementAt d q); simpl; auto.
  - destruct (elementAt d q'); auto using keptBy_refl.
Qed.

Lemma keptBy_setInnerHTML p q s e :
  parentNode q = Some p -> keptBy p q e (setInnerHTML s e).
Proof.
  intros H. repeat split; auto. intros H'. contradiction.
Qed.

Lemma keptBy_update p q e ts :
  strictlyBelow p q = true -> keptBy p q e (TokenList.update e ts).
Proof.
  intros H. unfold TokenList.update.
  destruct (Attr.get "class" (attributes e)); [|destruct ts];
    repeat split; simpl; auto using AttrFacts.get_set_other;
    intros H'; congruence.
Qed.

Lemma keptBy_replace p q t u e e' :
  strictlyBelow p q = true ->
  TokenList.replace t u e = inr e' -> keptBy p q e e'.
Proof.
  intros Hq. unfold TokenList.replace.
  destruct (TokenList.validate t); try discriminate.
  destruct (TokenList.validate u); try discriminate.
  destruct (TokenList.mem t (TokenList.tokens e)); intros H; inversion H.
  - now apply keptBy_update.
  - apply keptBy_refl.
Qed.

Lemma Touches_emitRule p styleNode newClass decls d :
  parentNode styleNode = Some p ->
  Touches p d (emitRule styleNode newClass decls d).
Proof.
  intros Hp. unfold emitRule. revert d.
  induction decls as [|decl decls IH]; intros d; simpl.
  - apply Touches_refl.
  - eapply Touches_trans; [|apply IH].
    apply Touches_modifyAt. intros e _. now apply keptBy_setInnerHTML.
Qed.

Lemma Touches_alterClasses p old new m : forall d c d',
  alterClasses p old new m d = (c, d') -> Touches p d d'.
Proof.
  induction m as [|m IH]; intros d c d'; cbn [alterClasses];
    destruct (nth_error (getElementsByClassName d p old) _) as [q|] eqn:Hq.
  all: try (apply nth_error_In, getElementsByClassName_below in Hq).
  all: try destruct (elementAt d q) as [el|] eqn:Hel.
  all: try destruct (TokenList.replace old new el) as [e|el'] eqn:Hr.
  all: intros H; try (inversion H; subst; apply Touches_refl).
  - inversion H; subst. apply Touches_modifyAt. intros e He.
    rewrite Hel in He. inversion He; subst. eapply keptBy_replace; eauto.
  - eapply Touches_trans; [|eapply IH; eauto].
    apply Touches_modifyAt. intros e He.
    rewrite Hel in He. inversion He; subst. eapply keptBy_replace; eauto.
  - eapply IH; eauto.
  - eapply IH; eauto.
Qed.

Lemma Touches_prependRule now p styleNode rule d c d' :
  parentNode styleNode = Some p ->
  prependRule now p styleNode rule d = (c, d') -> Touches p d d'.
Proof.
  intros Hp. destruct rule as [sel decls|]; unfold prependRule.
  - destruct (length _) eqn:E; intros H.
    + inversion H; subst. apply Touches_emitRule. exact Hp.
    + eapply Touches_trans; [apply Touches_emitRule; exact Hp|].
      eapply Touches_alterClasses; eauto.
  - intros H. inversion H. apply Touches_refl.
Qed.

Lemma Touches_prependRules now p styleNode rules : forall d c d',
  parentNode styleNode = Some p ->
  prependRules now p styleNode rules d = (c, d') -> Touches p d d'.
Proof.
  induction rules as [|r rules IH]; intros d c d' Hp; simpl.
  - intros H. inversion H. apply Touches_refl.
  - destruct (prependRule now p styleNode r d) as [[|e] d1] eqn:E; intros H.
    + eapply Touches_trans; [eapply Touches_prependRule; eauto|].
      eapply IH; eauto.
    + inversion H; subst. eapply Touches_prependRule; eauto.
Qed.

Lemma Touches_prependSheet {Number} (B : Browser Number) now p s d c d' :
  prependSheet B now p s d = (c, d') -> Touches p d d'.
Proof.
  unfold prependSheet.
  destruct (parentNode s) as [parent|] eqn:Hp;
    [destruct (pathEqb p parent) eqn:E;
     [apply pathEqb_eq in E; subst parent;
      destruct (elementAt d s) as [el|] eqn:Hel|]|];
    intros H; try (inversion H; apply Touches_refl).
  eapply Touches_trans; [|eapply Touches_prependRules; eauto].
  apply Touches_modifyAt. intros e _. now apply keptBy_setInnerHTML.
Qed.

Lemma Touches_prependSheets {Number} (B : Browser Number) now p sheets :
  forall d c d',
    prependSheets B now p sheets d = (c, d') -> Touches p d d'.
Proof.
  induction sheets as [|s sheets IH]; intros d c d'; simpl.
  - intros H. inversion H. apply Touches_refl.
  - destruct (prependSheet B now p s d) as [[|e] d1] eqn:E; intros H.
    + eapply Touches_trans; [eapply Touches_prependSheet; eauto|].
      eapply IH; eauto.
    + inversion H; subst. eapply Touches_prependSheet; eauto.
Qed.

(** [svgPrependClassIdentifiers] changes the document within the bounds
    of [Touches] and records its call, however it ends. *)
Lemma svgPrependClassIdentifiers_Touches {Number} (B : Browser Number)
    now p w c w' :
  svgPrependClassIdentifiers B now p w = (c, w') ->
  Touches p (document w) (document w')
  /\ calls w' = calls w ++ [CallSvgPrependClassIdentifiers].
Proof.
  unfold svgPrependClassIdentifiers, andThen, called, onDocument. simpl.
  destruct (prependSheets B now p _ _) as [c' d'] eqn:E.
  intros H. inversion H; subst. simpl. split; auto.
  eapply Touches_prependSheets; eauto.
Qed.

(* ================================================================== *)
(** * The shape of a run *)


(** A conversion that fulfils went through every stage. *)
Lemma convert_fulfilled {Number} (B : Browser Number) t p w w' :
  convertSVGtoInline B t p w = (Normal, w') ->
  exists source text svgInline rest bbox d3,
    elementAt (document w) p = Some source
    /\ fetch B (Js.toString (imgURL B source)) = Some text
    /\ getElementsByTagName (parseFromString B text) "svg" = svgInline :: rest
    /\ parentNode p <> None
    /\ getBBox B (Stage.reoptimized svgInline p (document w)) p = Some bbox
    /\ (let d2 := Stage.trimmed (viewBoxOf B bbox) svgInline p (document w) in
        prependSheets B t p (styleSheets d2) d2 = (Normal, d3))
    /\ w' = mkWorld (Stage.repainted p d3)
                    (calls w ++ Stage.allCalls (Js.toString (imgURL B source))).
Proof.
  unfold convertSVGtoInline.
  destruct (elementAt (document w) p) as [source|] eqn:Hsrc; try discriminate.
  destruct (fetch B _) as [text|] eqn:Hfetch; [|run_steps; discriminate].
  unfold onText.
  destruct (getElementsByTagName _ _) as [|svgInline rest] eqn:Hsvg;
    [run_steps; discriminate|].
  destruct (parentNode p) eqn:Hpar; [|run_steps; discriminate].
  run_steps.
  fold (Stage.optimizedRoot svgInline).
  fold (Stage.spliced svgInline p (document w)).
  fold (Stage.reoptimized svgInline p (document w)).
  destruct (getBBox B _ p) as [bbox|] eqn:Hbox; [|discriminate].
  fold (Stage.trimmed (viewBoxOf B bbox) svgInline p (document w)).
  destruct (prependSheets B t p _ _) as [[|e] d3] eqn:Hns; [|discriminate].
  intros H. inversion H; subst; clear H.
  exists source, text, svgInline, rest, bbox, d3.
  repeat split; auto; try discriminate.
  cbn [document calls]. unfold Stage.repainted, Stage.allCalls.
  f_equal. repeat rewrite <- app_assoc. reflexivity.
Qed.

(** However a conversion ends, it has made the fetch and then some of
    the further calls, in order. *)
Lemma convert_calls {Number} (B : Browser Number) t p w c w' source :
  elementAt (document w) p = Some source ->
  convertSVGtoInline B t p w = (c, w') ->
  exists n,
    calls w' = calls w
               ++ firstn (S n) (Stage.allCalls (Js.toString (imgURL B source))).
Proof.
  intros Hsrc. unfold convertSVGtoInline. rewrite Hsrc.
  set (url := Js.toString (imgURL B source)).
  destruct (fetch B url) as [text|] eqn:Hfetch.
  2:{ run_steps. intros H. inversion H. exists 0%nat. reflexivity. }
  unfold onText.
  destruct (getElementsByTagName _ _) as [|svgInline rest] eqn:Hsvg.
  { run_steps. intros H. inversion H. exists 1%nat. cbn [calls].
    now rewrite <- app_assoc. }
  destruct (parentNode p) eqn:Hpar.
  2:{ run_steps. intros H. inversion H. exists 1%nat. cbn [calls].
      now rewrite <- app_assoc. }
  run_steps.
  destruct (getBBox B _ p) as [bbox|] eqn:Hbox.
  2:{ intros H. inversion H. exists 4%nat. cbn [calls].
      repeat rewrite <- app_assoc. reflexivity. }
  destruct (prependSheets B t p _ _) as [[|e] d3] eqn:Hns;
    intros H; inversion H; cbn [calls];
    [exists 6%nat | exists 5%nat];
    repeat rewrite <- app_assoc; reflexivity.
Qed.

(** A reference to no element makes line 160 throw before any call. *)
Lemma convert_no_source {Number} (B : Browser Number) t p w :
  elementAt (document w) p = None ->
  convertSVGtoInline B t p w = (Throw Js.TypeError, w).
Proof. intros H. unfold convertSVGtoInline. now rewrite H. Qed.

(* ================================================================== *)
(** * The inserted root *)

Lemma parentNode_not_self p : parentNode p <> Some p.
Proof.
  intros H. apply parentNode_inv in H. destruct H as [i H].
  apply (f_equal (@List.length nat)) in H. rewrite length_app in H.
  simpl in H. lia.
Qed.

(** Namespacing the root at [p] leaves the root element itself alone. *)
Lemma Touches_root p d d' e :
  Touches p d d' -> elementAt d p = Some e -> elementAt d' p = Some e.
Proof.
  intros [_ H] He. specialize (H p). rewrite He in H.
  destruct (elementAt d' p) as [e'|]; try contradiction.
  destruct H as (H1 & H2 & _ & H4 & H5).
  specialize (H4 (strictlyBelow_irrefl p)).
  specialize (H5 (parentNode_not_self p)).
  destruct e, e'; simpl in *. congruence.
Qed.

Lemma elementAt_replaceAt r p d e :
  elementAt d p = Some e -> elementAt (replaceAt r p d) p = Some (element r).
Proof.
  intros He. apply elementAt_some_nodeAt in He. destruct He as [m [Hm _]].
  unfold elementAt, replaceAt. now rewrite nodeAt_updateAt_same, Hm.
Qed.

Lemma elementAt_modifyAt_same g q n :
  elementAt (modifyAt g q n) q = option_map g (elementAt n q).
Proof. now rewrite elementAt_modifyAt, pathEqb_refl. Qed.

Lemma elementAt_trimmed viewBox svgInline p doc source :
  elementAt doc p = Some source ->
  elementAt (Stage.trimmed viewBox svgInline p doc) p
  = Some (setAttribute "viewBox" viewBox
            (optimizeInlineSVG (optimizeInlineSVG (element svgInline)))).
Proof.
  intros H. unfold Stage.trimmed, Stage.reoptimized, Stage.spliced.
  rewrite !elementAt_modifyAt_same.
  now rewrite (elementAt_replaceAt _ _ _ _ H).
Qed.

Lemma getElementsByTagName_name root name m :
  In m (getElementsByTagName root name) -> qualifiedName (element m) = name.
Proof.
  unfold getElementsByTagName. intros H. apply in_flat_map in H.
  destruct H as [q [_ H]]. destruct (nodeAt root q) as [m'|]; try contradiction.
  destruct (qualifiedName (element m') =? name) eqn:E; simpl in H;
    try contradiction.
  destruct H as [<- | []]. now apply String.eqb_eq.
Qed.

(** What the element the placeholder gave way to holds once a
    conversion has fulfilled. *)
Lemma convert_root {Number} (B : Browser Number) t p w w' :
  convertSVGtoInline B t p w = (Normal, w') ->
  exists source text svgInline rest bbox,
    elementAt (document w) p = Some source
    /\ fetch B (Js.toString (imgURL B source)) = Some text
    /\ getElementsByTagName (parseFromString B text) "svg" = svgInline :: rest
    /\ getBBox B (Stage.reoptimized svgInline p (document w)) p = Some bbox
    /\ elementAt (document w') p
       = Some (setStyleDisplay "flex"
                 (setStyleDisplay "none"
                    (setAttribute "viewBox" (viewBoxOf B bbox)
                       (optimizeInlineSVG
                          (optimizeInlineSVG (element svgInline)))))).
Proof.
  intros H. apply convert_fulfilled in H.
  destruct H as (source & text & svgInline & rest & bbox & d3 &
                 Hsrc & Hfetch & Hsvg & _ & Hbox & Hns & ->).
  exists source, text, svgInline, rest, bbox. repeat split; auto.
  cbn [document]. unfold Stage.repainted.
  rewrite !elementAt_modifyAt_same.
  apply Touches_prependSheets in Hns.
  erewrite (Touches_root _ _ _ _ Hns); [reflexivity|].
  eapply elementAt_trimmed; eauto.
Qed.

Lemma qualifiedName_update el ts :
  qualifiedName (TokenList.update el ts) = qualifiedName el.
Proof.
  unfold TokenList.update.
  destruct (Attr.get "class" (attributes el)); [|destruct ts]; reflexivity.
Qed.

Lemma qualifiedName_optimizeInlineSVG el :
  qualifiedName (optimizeInlineSVG el) = qualifiedName el.
Proof.
  rewrite optimizeInlineSVG_unfold. unfold setViewport.
  destruct (_ && _); cbn [qualifiedName setAttribute removeAttribute];
    unfold TokenList.add; now rewrite !qualifiedName_update.
Qed.

(** The two ways an assignment to [style.display] goes. *)
Lemma setStyleDisplay_cases v el :
  (Attr.get "display" (inlineStyle el) = Some v /\ setStyleDisplay v el = el)
  \/ (Attr.get "display" (inlineStyle el) <> Some v
      /\ setStyleDisplay v el
         = mkElement (qualifiedName el)
             (Attr.set "style"
                (styleText (Attr.set "display" v (inlineStyle el)))
                (attributes el))
             (Attr.set "display" v (inlineStyle el)) (innerHTML el)).
Proof.
  unfold setStyleDisplay.
  destruct (Attr.get "display" (inlineStyle el)) as [old|] eqn:E.
  - destruct (old =? v) eqn:Ev.
    + apply String.eqb_eq in Ev. subst old. now left.
    + right. split; auto. apply String.eqb_neq in Ev. congruence.
  - right. split; auto. discriminate.
Qed.

Lemma qualifiedName_setStyleDisplay v el :
  qualifiedName (setStyleDisplay v el) = qualifiedName el.
Proof.
  destruct (setStyleDisplay_cases v el) as [[_ ->] | [_ ->]]; reflexivity.
Qed.

Lemma innerHTML_setStyleDisplay v el :
  innerHTML (setStyleDisplay v el) = innerHTML el.
Proof.
  destruct (setStyleDisplay_cases v el) as [[_ ->] | [_ ->]]; reflexivity.
Qed.

Lemma inlineStyle_setStyleDisplay v el :
  inlineStyle (setStyleDisplay v el) = Attr.set "display" v (inlineStyle el).
Proof.
  destruct (setStyleDisplay_cases v el) as [[H ->] | [_ ->]];
    [|reflexivity].
  symmetry. now apply AttrFacts.set_current.
Qed.

(** An assignment to [style.display] writes no attribute other than
    [style]. *)
Lemma attributes_setStyleDisplay_other v el name :
  ("style" =? name) = false ->
  Attr.get name (attributes (setStyleDisplay v el))
  = Attr.get name (attributes el).
Proof.
  intros Hne.
  destruct (setStyleDisplay_cases v el) as [[_ ->] | [_ ->]];
    [reflexivity|].
  cbn [attributes]. now apply AttrFacts.get_set_other.
Qed.

Lemma qualifiedName_repainted viewBox el :
  qualifiedName
    (setStyleDisplay "flex"
       (setStyleDisplay "none" (setAttribute "viewBox" viewBox el)))
  = qualifiedName el.
Proof. now rewrite !qualifiedName_setStyleDisplay. Qed.

Lemma display_setStyleDisplay v el :
  Attr.get "display" (inlineStyle (setStyleDisplay v el)) = Some v.
Proof.
  rewrite inlineStyle_setStyleDisplay. apply AttrFacts.get_set_same.
Qed.

(* ================================================================== *)
(** * Forced repaint *)

(** C10.  When a conversion has completed, the inline display style of
    the inserted root is flex, whatever it was in the markup; the forced
    repaint does not put a former value back. *)
Theorem C10_display_is_flex_after_conversion :
  forall Number (B : Browser Number) t p w w',
    convertSVGtoInline B t p w = (Normal, w') ->
    exists root,
      elementAt (document w') p = Some root
      /\ qualifiedName root = "svg"
      /\ Attr.get "display" (inlineStyle root) = Some "flex".
Proof.
  intros Number B t p w w' H. apply convert_root in H.
  destruct H as (source & text & svgInline & rest & bbox &
                 _ & _ & Hsvg & _ & Hroot).
  eexists. split; [exact Hroot|]. split.
  - rewrite qualifiedName_repainted, !qualifiedName_optimizeInlineSVG.
    apply (getElementsByTagName_name (parseFromString B text)).
    rewrite Hsvg. now left.
  - apply display_setStyleDisplay.
Qed.

Lemma C10_witness :
  exists root,
    elementAt (document (snd Sample.run)) Sample.imgRef = Some root
    /\ qualifiedName root = "svg"
    /\ Attr.get "display" (inlineStyle root) = Some "flex".
Proof.
  apply (C10_display_is_flex_after_conversion
           N Sample.host 7%N Sample.imgRef Sample.world).
  vm_compute. reflexivity.
Defined.

(* ================================================================== *)
(** * Bounds trimming *)

(** C3 (as amended).  When a conversion has completed, the viewBox
    attribute of the inserted root is "<x> <y> <width> <height>" of the
    box [getBBox] gave for the root in the document as it was after the
    insertion and the second attribute pass, before style namespacing;
    whatever viewBox the markup had or [setViewport] wrote is gone. *)
Theorem C3_viewBox_is_box_measured_before_namespacing :
  forall Number (B : Browser Number) t p w w',
    convertSVGtoInline B t p w = (Normal, w') ->
    exists source text svgInline rest bbox root,
      elementAt (document w) p = Some source
      /\ fetch B (Js.toString (imgURL B source)) = Some text
      /\ getElementsByTagName (parseFromString B text) "svg" = svgInline :: rest
      /\ getBBox B (Stage.reoptimized svgInline p (document w)) p = Some bbox
      /\ elementAt (document w') p = Some root
      /\ Attr.get "viewBox" (attributes root)
         = Some (Js.join " " [numberToString B (x bbox);
                              numberToString B (y bbox);
                              numberToString B (width bbox);
                              numberToString B (height bbox)]).
Proof.
  intros Number B t p w w' H. apply convert_root in H.
  destruct H as (source & text & svgInline & rest & bbox &
                 Hsrc & Hfetch & Hsvg & Hbox & Hroot).
  exists source, text, svgInline, rest, bbox. eexists.
  repeat split; eauto.
  rewrite !attributes_setStyleDisplay_other by reflexivity.
  cbn [attributes setAttribute].
  apply AttrFacts.get_set_same.
Qed.

Lemma C3_witness :
  exists root,
    elementAt (document (snd Hidden.run)) Sample.imgRef = Some root
    /\ Attr.get "viewBox" (attributes root) = Some "0 0 0 0".
Proof.
  assert (Hrun : convertSVGtoInline Hidden.host 7 Sample.imgRef Sample.world
                 = (Normal, snd Hidden.run))
    by (vm_compute; reflexivity).
  destruct (C3_viewBox_is_box_measured_before_namespacing
              N Hidden.host 7%N Sample.imgRef Sample.world _ Hrun)
    as (source & text & svgInline & rest & bbox & root &
        Hsrc & Hfetch & Hsvg & Hbox & Hroot & Hvb).
  exists root. split; [exact Hroot|]. rewrite Hvb.
  vm_compute in Hsrc. inversion Hsrc; subst source; clear Hsrc.
  vm_compute in Hfetch. inversion Hfetch; subst text; clear Hfetch.
  vm_compute in Hsvg. inversion Hsvg; subst svgInline rest; clear Hsvg.
  vm_compute in Hbox. inversion Hbox; subst bbox; clear Hbox.
  vm_compute. reflexivity.
Defined.

(** C3 as the specification words it fails: on the page of [Hidden] the
    code writes the box measured while [rect{display:none}] still hides
    the rectangle, "0 0 0 0", whereas the box of the namespaced root is
    "0 0 5 5". *)
Lemma C3_counterexample_box_measured_after_namespacing : ~ AsStated.C3.
Proof.
  intros H.
  assert (Hrun : convertSVGtoInline Hidden.host 7 Sample.imgRef Sample.world
                 = (Normal, snd Hidden.run))
    by (vm_compute; reflexivity).
  specialize (H N Hidden.host 7%N Sample.imgRef Sample.world _ Hrun).
  destruct H as (source & text & svgInline & rest & dNS & bbox & root &
                 Hsrc & Hfetch & Hsvg & Hns & Hbox & Hroot & Hvb).
  vm_compute in Hsrc. inversion Hsrc; subst source; clear Hsrc.
  vm_compute in Hfetch. inversion Hfetch; subst text; clear Hfetch.
  vm_compute in Hsvg. inversion Hsvg; subst svgInline rest; clear Hsvg.
  vm_compute in Hns. inversion Hns; subst dNS; clear Hns.
  vm_compute in Hbox. inversion Hbox; subst bbox; clear Hbox.
  vm_compute in Hroot. inversion Hroot; subst root; clear Hroot.
  vm_compute in Hvb. discriminate.
Qed.

(* ================================================================== *)
(** * Failure of the fetch *)

(** C8.  When the fetch of the resolved URL fails, the conversion ends
    in a rejection carrying the network error, the document is the one
    it started with, the only call made is the fetch, and exactly that
    one error is reported. *)
Theorem C8_failed_fetch_leaves_document_and_rejects :
  forall Number (B : Browser Number) t p w source,
    elementAt (document w) p = Some source ->
    fetch B (Js.toString (imgURL B source)) = None ->
    exists w',
      convertSVGtoInline B t p w = (Throw Js.NetworkError, w')
      /\ document w' = document w
      /\ elementAt (document w') p = Some source
      /\ calls w' = calls w ++ [CallFetch (Js.toString (imgURL B source))]
      /\ reported (fst (convertSVGtoInline B t p w)) = [Js.NetworkError].
Proof.
  intros Number B t p w source Hsrc Hfetch.
  unfold convertSVGtoInline. rewrite Hsrc, Hfetch. run_steps.
  eexists. repeat split; auto.
Qed.

Lemma C8_witness :
  exists w',
    convertSVGtoInline Sample.host 7 Sample.imgRef Sample.goneWorld
    = (Throw Js.NetworkError, w')
    /\ elementAt (document w') Sample.imgRef = Some Sample.gone
    /\ calls w' = [CallFetch "gone.svg"].
Proof.
  assert (Hsrc : elementAt (document Sample.goneWorld) Sample.imgRef
                 = Some Sample.gone) by (vm_compute; reflexivity).
  assert (Hfetch : fetch Sample.host (Js.toString (imgURL Sample.host Sample.gone))
                   = None) by (vm_compute; reflexivity).
  destruct (C8_failed_fetch_leaves_document_and_rejects
              N Sample.host 7%N Sample.imgRef Sample.goneWorld Sample.gone
              Hsrc Hfetch)
    as (w' & Hrun & _ & Hel & Hcalls & _).
  exists w'. repeat split; assumption.
Defined.

(* ================================================================== *)
(** * Resolution of the URL *)

Lemma convert_replaced_or_rejected {Number} (B : Browser Number) t p w w' :
  convertSVGtoInline B t p w = (Normal, w') -> In CallReplaceChild (calls w').
Proof.
  intros H. apply convert_fulfilled in H.
  destruct H as (source & text & svgInline & rest & bbox & d3 &
                 _ & _ & _ & _ & _ & _ & ->).
  cbn [calls]. apply in_or_app. right. simpl. auto.
Qed.

(** C5 (as amended).  A non-empty [data-svg-src] is the URL whatever the
    [src]; otherwise the URL is what the [src] property gives: on an
    element that has the property (an image, an input and so on) the
    resolved [src] attribute, or the empty string when the attribute is
    absent, and [undefined] on any other element.  There is no check of
    the result: the fetch is made with it in every case, with the empty
    string or with "undefined" when neither channel gives a usable URL,
    and a run then ends either in a rejection or, if the response holds
    a graphic, in a replacement; a run that does nothing and reports
    nothing does not exist. *)
Theorem C5_data_field_first_and_fetch_unguarded :
  forall Number (B : Browser Number) t p w source,
    elementAt (document w) p = Some source ->
    (forall v, Attr.get "data-svg-src" (attributes source) = Some v ->
               v <> "" -> imgURL B source = Js.Str v)
    /\ (Attr.get "data-svg-src" (attributes source) = None
        \/ Attr.get "data-svg-src" (attributes source) = Some "" ->
        imgURL B source = src B source
        /\ (hasSrc (qualifiedName source) = true ->
            forall v, Attr.get "src" (attributes source) = Some v ->
                      imgURL B source = Js.Str (resolveURL B v))
        /\ (hasSrc (qualifiedName source) = true ->
            Attr.get "src" (attributes source) = None ->
            imgURL B source = Js.Str "")
        /\ (hasSrc (qualifiedName source) = false ->
            imgURL B source = Js.Undefined))
    /\ (Js.truthy (dataset_svgSrc source) = false ->
        Js.truthy (src B source) = false ->
        Js.toString (imgURL B source) = ""
        \/ Js.toString (imgURL B source) = "undefined")
    /\ forall c w',
        convertSVGtoInline B t p w = (c, w') ->
        (exists rest,
            calls w' = calls w
                       ++ CallFetch (Js.toString (imgURL B source)) :: rest)
        /\ (c = Normal -> In CallReplaceChild (calls w')).
Proof.
  intros Number B t p w source Hsrc. split; [|split; [|split]].
  - intros v Hv Hne. unfold imgURL, dataset_svgSrc, Js.or. rewrite Hv.
    apply truthy_Str in Hne. now rewrite Hne.
  - intros Hdata.
    assert (E : imgURL B source = src B source).
    { unfold imgURL, dataset_svgSrc, Js.or.
      destruct Hdata as [-> | ->]; reflexivity. }
    rewrite E. unfold src. split; [reflexivity|]. split; [|split].
    + intros -> v ->. reflexivity.
    + intros -> ->. reflexivity.
    + intros ->. reflexivity.
  - intros Hd Hs. unfold imgURL, Js.or. rewrite Hd.
    unfold src in *.
    destruct (hasSrc (qualifiedName source));
      [destruct (Attr.get "src" (attributes source)) as [v|]|];
      cbn [Js.truthy Js.toString] in *.
    + left. apply negb_false_iff in Hs. now apply String.eqb_eq in Hs.
    + left. reflexivity.
    + right. reflexivity.
  - intros c w' Hrun. split.
    + destruct (convert_calls B t p w c w' source Hsrc Hrun) as [n Hn].
      rewrite Hn. simpl. eexists. reflexivity.
    + intros ->. eapply convert_replaced_or_rejected; eauto.
Qed.

Lemma C5_witness :
  imgURL Sample.host (element Sample.img) = Js.Str "logo.svg"
  /\ imgURL Sample.host More.field = Js.Str "other.svg"
  /\ imgURL Sample.host More.plain = Js.Undefined
  /\ In CallReplaceChild (calls (snd Sample.run)).
Proof.
  assert (Hsrc : elementAt (document Sample.world) Sample.imgRef
                 = Some (element Sample.img)) by (vm_compute; reflexivity).
  destruct (C5_data_field_first_and_fetch_unguarded
              N Sample.host 7%N Sample.imgRef Sample.world
              (element Sample.img) Hsrc) as (Hdata & _ & _ & Hrun).
  assert (Hfield : elementAt (mkNode More.field []) [] = Some More.field)
    by reflexivity.
  destruct (C5_data_field_first_and_fetch_unguarded
              N Sample.host 7%N [] (mkWorld (mkNode More.field []) [])
              More.field Hfield) as (_ & Hfallback & _).
  assert (Hplain : elementAt (mkNode More.plain []) [] = Some More.plain)
    by reflexivity.
  destruct (C5_data_field_first_and_fetch_unguarded
              N Sample.host 7%N [] (mkWorld (mkNode More.plain []) [])
              More.plain Hplain) as (_ & Hnone & _).
  split; [|split; [|split]].
  - apply (Hdata "logo.svg"); [vm_compute; reflexivity | discriminate].
  - destruct (Hfallback (or_introl eq_refl)) as (_ & Hurl & _).
    apply (Hurl eq_refl "other.svg"). reflexivity.
  - destruct (Hnone (or_introl eq_refl)) as (_ & _ & _ & Hundef).
    apply Hundef. reflexivity.
  - apply (Hrun (fst Sample.run) (snd Sample.run) (surjective_pairing _)).
    vm_compute. reflexivity.
Defined.

(** C5 as the specification words it fails: an image with neither
    channel set makes the code fetch the empty URL, and when that fetch
    fails the run ends in a reported rejection, not in silence. *)
Lemma C5_counterexample_no_silent_failure : ~ AsStated.C5.
Proof.
  intros H.
  assert (Hsrc : elementAt (document Sample.bareWorld) Sample.imgRef
                 = Some Sample.bare) by (vm_compute; reflexivity).
  specialize (H N Sample.host 7%N Sample.imgRef Sample.bareWorld Sample.bare
                Hsrc eq_refl eq_refl).
  destruct H as (w' & Hrun & _). vm_compute in Hrun. discriminate.
Qed.

(** The other outcome of a run without a usable URL: where the empty
    URL is answered with a graphic, the image is replaced by it. *)
Lemma bare_image_replaced_when_answered :
  imgURL Sample.openHost Sample.bare = Js.Str ""
  /\ fst (convertSVGtoInline Sample.openHost 7 Sample.imgRef Sample.bareWorld)
     = Normal
  /\ option_map qualifiedName
       (elementAt
          (document (snd (convertSVGtoInline Sample.openHost 7 Sample.imgRef
                            Sample.bareWorld)))
          Sample.imgRef) = Some "svg".
Proof. repeat split; vm_compute; reflexivity. Qed.

(* ================================================================== *)
(** * Frame of style namespacing *)

Lemma Touches_styleSheets p d d' :
  Touches p d d' -> styleSheets d' = styleSheets d.
Proof.
  intros [Hp H]. unfold styleSheets. rewrite Hp.
  apply filter_ext. intros q. specialize (H q).
  destruct (elementAt d q), (elementAt d' q); try contradiction; auto.
  destruct H as (Hname & _ & Hattr & _). unfold ownsSheet.
  now rewrite Hname, (Hattr "type") by reflexivity.
Qed.

(** C9.  Style namespacing of the root at [p], however it ends, keeps
    the list of style sheets of the document, and the text and rules of
    every sheet whose owner node is not a child of the root are what
    they were; a sheet whose text differs afterwards is owned by a child
    of the root. *)
Theorem C9_only_sheets_of_root_children_rewritten :
  forall Number (B : Browser Number) t p w c w',
    svgPrependClassIdentifiers B t p w = (c, w') ->
    styleSheets (document w') = styleSheets (document w)
    /\ (forall q,
           In q (styleSheets (document w)) -> parentNode q <> Some p ->
           exists owner owner',
             elementAt (document w) q = Some owner
             /\ elementAt (document w') q = Some owner'
             /\ innerHTML owner' = innerHTML owner
             /\ cssRules B (innerHTML owner') = cssRules B (innerHTML owner))
    /\ (forall q owner owner',
           elementAt (document w) q = Some owner ->
           elementAt (document w') q = Some owner' ->
           innerHTML owner' <> innerHTML owner -> parentNode q = Some p).
Proof.
  intros Number B t p w c w' H.
  apply svgPrependClassIdentifiers_Touches in H. destruct H as [HT _].
  split; [eapply Touches_styleSheets; eauto|]. split.
  - intros q Hq Hpar. apply filter_In in Hq. destruct Hq as [_ Hq].
    destruct HT as [_ HT]. specialize (HT q).
    destruct (elementAt (document w) q) as [owner|]; try discriminate.
    destruct (elementAt (document w') q) as [owner'|]; try contradiction.
    destruct HT as (_ & _ & _ & _ & Htext).
    exists owner, owner'. repeat split; auto. now rewrite Htext.
  - intros q owner owner' Ho Ho' Hne.
    destruct HT as [_ HT]. specialize (HT q). rewrite Ho, Ho' in HT.
    destruct HT as (_ & _ & _ & _ & Htext).
    destruct (parentNode q) as [parent|] eqn:Hpar.
    + destruct (pathEqb parent p) eqn:E.
      * apply pathEqb_eq in E. now subst.
      * apply pathEqb_neq in E. exfalso. apply Hne, Htext. congruence.
    + exfalso. apply Hne, Htext. discriminate.
Qed.

Lemma C9_witness :
  (exists owner',
      elementAt (document (snd Sample.namespaced)) Sample.headStyle = Some owner'
      /\ innerHTML owner' = ".a{color:blue}")
  /\ option_map innerHTML
       (elementAt (document (snd Sample.namespaced))
                  (Sample.inlinedRoot ++ [0%nat]))
     = Some (".uid-7-a{fill: red;}" ++ LF)%string.
Proof.
  split; [|vm_compute; reflexivity].
  destruct (C9_only_sheets_of_root_children_rewritten
              N Sample.host 7%N Sample.inlinedRoot (mkWorld Sample.inlined [])
              (fst Sample.namespaced) (snd Sample.namespaced)
              (surjective_pairing _)) as (_ & Hother & _).
  destruct (Hother Sample.headStyle) as (owner & owner' & Ho & Ho' & Htext & _).
  - vm_compute. auto.
  - discriminate.
  - exists owner'. split; [exact Ho'|].
    rewrite Htext. vm_compute in Ho. now inversion Ho.
Defined.

(* ================================================================== *)
(** * Identifier and class of the placeholder *)

(** What [optimizeInlineSVG] writes into the id attribute is the id the
    element already has, or the empty string. *)
Lemma optimizeInlineSVG_id el :
  Attr.get "id" (attributes (optimizeInlineSVG el))
  = Some (Js.toString (id el)).
Proof.
  rewrite optimizeInlineSVG_unfold. unfold setViewport.
  destruct (_ && _); cbn [attributes setAttribute removeAttribute].
  1: rewrite AttrFacts.get_set_other by reflexivity.
  all: rewrite AttrFacts.get_remove_other by reflexivity.
  all: rewrite !attributes_add_other by reflexivity.
  all: apply AttrFacts.get_set_same.
Qed.

(** C1, on the code.  The image has the id logo and the graphic has no
    id; the conversion completes and the inserted root has the id
    attribute with the empty value: [optimizeInlineSVG] reads [id] from
    the graphic it is given, never from the image. *)
Theorem C1_placeholder_id_not_carried :
  option_map (fun e => Attr.get "id" (attributes e))
             (elementAt Sample.page Sample.imgRef) = Some (Some "logo")
  /\ fst Sample.run = Normal
  /\ option_map (fun e => Attr.get "id" (attributes e))
       (elementAt
          (document (snd Sample.run))
          Sample.imgRef) = Some (Some "").
Proof. repeat split; vm_compute; reflexivity. Qed.

(** C2, on the code.  The image has no class attribute; the conversion
    completes and the inserted root carries replaced-svg as well as
    img-fluid: [optimizeInlineSVG] tests [className] of the graphic it
    is given, which is never [undefined]. *)
Theorem C2_marker_added_without_placeholder_class :
  option_map (fun e => Attr.get "class" (attributes e))
             (elementAt Sample.page Sample.imgRef) = Some None
  /\ fst Sample.run = Normal
  /\ option_map TokenList.tokens
       (elementAt
          (document (snd Sample.run))
          Sample.imgRef) = Some ["replaced-svg"; "img-fluid"].
Proof. repeat split; vm_compute; reflexivity. Qed.

(* ================================================================== *)
(** * Class lists *)

Module TokenFacts.

Lemma str_app_assoc a b c : ((a ++ b) ++ c = a ++ (b ++ c))%string.
Proof. induction a; simpl; congruence. Qed.

Lemma str_app_nil_r a : (a ++ "" = a)%string.
Proof. induction a; simpl; congruence. Qed.

Lemma hasWhitespace_app a b :
  TokenList.hasWhitespace (a ++ b)
  = TokenList.hasWhitespace a || TokenList.hasWhitespace b.
Proof.
  induction a; simpl; auto. rewrite IHa. now rewrite orb_assoc.
Qed.

Lemma app_char_nonempty cur c : (cur ++ String c "")%string <> "".
Proof. destruct cur; discriminate. Qed.

Lemma validate_valid t : TokenList.validate t = None <-> validToken t.
Proof.
  unfold TokenList.validate, validToken.
  destruct (t =? "") eqn:E.
  - apply String.eqb_eq in E. split; [discriminate | intros [H _]; contradiction].
  - apply String.eqb_neq in E.
    destruct (TokenList.hasWhitespace t); split; auto; try discriminate.
    intros [_ H]. discriminate.
Qed.

Lemma mem_In t l : TokenList.mem t l = true <-> In t l.
Proof.
  unfold TokenList.mem. rewrite existsb_exists. split.
  - intros [x [Hx E]]. apply String.eqb_eq in E. now subst.
  - intros H. exists t. split; auto. apply String.eqb_refl.
Qed.

Lemma mem_false t l : TokenList.mem t l = false <-> ~ In t l.
Proof.
  rewrite <- mem_In. destruct (TokenList.mem t l); split; auto; try discriminate.
  intros H. exfalso. auto.
Qed.

Lemma split_valid s : forall cur,
  TokenList.hasWhitespace cur = false ->
  Forall validToken (TokenList.split s cur).
Proof.
  induction s as [|c s IH]; intros cur Hc; simpl.
  - destruct (cur =? "") eqn:E; constructor; auto.
    split; auto. now apply String.eqb_neq.
  - destruct (TokenList.isWhitespace c) eqn:Ec.
    + destruct (cur =? "") eqn:E; [now apply IH|].
      constructor; [|now apply IH].
      split; auto. now apply String.eqb_neq.
    + apply IH. rewrite hasWhitespace_app. simpl. now rewrite Hc, Ec.
Qed.

Lemma In_append x l t :
  In x (TokenList.append l t) <-> In x l \/ x = t.
Proof.
  unfold TokenList.append. destruct (TokenList.mem t l) eqn:E.
  - apply mem_In in E. split; auto. intros [H | ->]; auto.
  - rewrite in_app_iff. simpl. intuition.
Qed.

Lemma tokenSet_append l t :
  tokenSet l -> validToken t -> tokenSet (TokenList.append l t).
Proof.
  intros [Hn Hv] Ht. unfold TokenList.append.
  destruct (TokenList.mem t l) eqn:E; [split; auto|].
  apply mem_false in E. split.
  - apply NoDup_app; auto.
    + constructor; auto. constructor.
    + intros a Ha [<- | []]. contradiction.
  - apply Forall_app. auto.
Qed.

Lemma tokenSet_fold l : forall acc,
  tokenSet acc -> Forall validToken l ->
  tokenSet (fold_left TokenList.append l acc).
Proof.
  induction l as [|a l IH]; intros acc Hacc Hl; simpl; auto.
  inversion Hl; subst. apply IH; auto. now apply tokenSet_append.
Qed.

(** A list that is an ordered set already is read back as it is. *)
Lemma fold_append_set l : forall acc,
  NoDup (acc ++ l) -> fold_left TokenList.append l acc = (acc ++ l)%list.
Proof.
  induction l as [|a l IH]; intros acc H; simpl.
  - now rewrite app_nil_r.
  - assert (Ha : ~ In a acc).
    { apply NoDup_remove_2 in H. intros Hin. apply H.
      apply in_or_app. now left. }
    apply mem_false in Ha. unfold TokenList.append at 2. rewrite Ha.
    rewrite IH; rewrite <- app_assoc; auto.
Qed.

Lemma tokenSet_parse s : tokenSet (TokenList.parse s).
Proof.
  unfold TokenList.parse. apply tokenSet_fold.
  - split; constructor.
  - now apply split_valid.
Qed.

Lemma tokenSet_tokens el : tokenSet (TokenList.tokens el).
Proof.
  unfold TokenList.tokens. destruct (Attr.get "class" (attributes el)).
  - apply tokenSet_parse.
  - split; constructor.
Qed.

(** Reading a token that is followed by [rest]. *)
Lemma split_token a : TokenList.hasWhitespace a = false ->
  forall rest cur,
    TokenList.split (a ++ rest) cur = TokenList.split rest (cur ++ a).
Proof.
  induction a as [|c a IH]; intros Ha rest cur; simpl.
  - now rewrite str_app_nil_r.
  - simpl in Ha. apply orb_false_elim in Ha. destruct Ha as [Hc Ha].
    rewrite Hc, IH by assumption. now rewrite str_app_assoc.
Qed.

Lemma split_serialize ts :
  Forall validToken ts -> TokenList.split (TokenList.serialize ts) "" = ts.
Proof.
  unfold TokenList.serialize.
  induction ts as [|a ts IH]; intros H; auto.
  inversion H as [|? ? [Hne Hws] Hts]; subst.
  apply String.eqb_neq in Hne.
  destruct ts as [|b r].
  - cbn [Js.join]. rewrite <- (str_app_nil_r a) at 1.
    rewrite split_token by assumption. simpl. now rewrite Hne.
  - cbn [Js.join] in *. rewrite split_token by assumption.
    simpl. rewrite Hne. f_equal. now apply IH.
Qed.

(** Serialising an ordered set and parsing it back gives the set. *)
Lemma parse_serialize ts :
  tokenSet ts -> TokenList.parse (TokenList.serialize ts) = ts.
Proof.
  intros [Hn Hv]. unfold TokenList.parse.
  rewrite split_serialize by assumption.
  now rewrite fold_append_set.
Qed.

Lemma tokens_update el ts :
  tokenSet ts -> TokenList.tokens (TokenList.update el ts) = ts.
Proof.
  intros H. unfold TokenList.update.
  destruct (Attr.get "class" (attributes el)) eqn:E; [|destruct ts].
  - unfold TokenList.tokens. simpl. rewrite AttrFacts.get_set_same.
    now apply parse_serialize.
  - unfold TokenList.tokens. now rewrite E.
  - unfold TokenList.tokens. simpl. rewrite AttrFacts.get_set_same.
    now apply parse_serialize.
Qed.

Lemma class_update el ts :
  ts <> [] ->
  Attr.get "class" (attributes (TokenList.update el ts))
  = Some (TokenList.serialize ts).
Proof.
  intros H. unfold TokenList.update.
  destruct (Attr.get "class" (attributes el)); [|destruct ts; try contradiction];
    simpl; apply AttrFacts.get_set_same.
Qed.

Lemma append_nonempty l t : TokenList.append l t <> [].
Proof.
  intros H. assert (Hin : In t (TokenList.append l t))
    by (apply In_append; auto).
  rewrite H in Hin. contradiction.
Qed.

Lemma tokens_add t el :
  validToken t ->
  TokenList.tokens (TokenList.add t el)
  = TokenList.append (TokenList.tokens el) t.
Proof.
  intros Ht. unfold TokenList.add. apply tokens_update.
  apply tokenSet_append; auto. apply tokenSet_tokens.
Qed.

Lemma classNormal_add t el : validToken t -> classNormal (TokenList.add t el).
Proof.
  intros Ht. unfold classNormal. rewrite tokens_add by assumption.
  unfold TokenList.add. apply class_update, append_nonempty.
Qed.

Lemma setAttribute_current name v el :
  Attr.get name (attributes el) = Some v -> setAttribute name v el = el.
Proof.
  intros H. unfold setAttribute. rewrite AttrFacts.set_current by assumption.
  now destruct el.
Qed.

(** Adding a class the element carries changes nothing, once the class
    attribute is in serialised form. *)
Lemma add_present t el :
  classNormal el -> TokenList.mem t (TokenList.tokens el) = true ->
  TokenList.add t el = el.
Proof.
  intros Hn Hm. unfold TokenList.add, TokenList.append. rewrite Hm.
  unfold TokenList.update. rewrite Hn.
  now apply setAttribute_current.
Qed.

End TokenFacts.

(* ================================================================== *)
(** * A second attribute pass changes nothing *)

Lemma distinct_set name v l :
  Attr.distinct l = true -> Attr.distinct (Attr.set name v l) = true.
Proof.
  induction l as [|[k u] r IH]; simpl; auto.
  destruct (Attr.get k r) eqn:Hk; try discriminate. intros Hr.
  destruct (k =? name) eqn:E; simpl.
  - now rewrite Hk.
  - rewrite AttrFacts.get_set_other, Hk; auto.
    rewrite String.eqb_sym. exact E.
Qed.

Lemma distinct_update el ts :
  Attr.distinct (attributes el) = true ->
  Attr.distinct (attributes (TokenList.update el ts)) = true.
Proof.
  intros H. unfold TokenList.update.
  destruct (Attr.get "class" (attributes el)); [|destruct ts];
    simpl; auto using distinct_set.
Qed.

Lemma removeAttribute_absent name el :
  Attr.get name (attributes el) = None -> removeAttribute name el = el.
Proof.
  intros H. unfold removeAttribute. rewrite AttrFacts.remove_absent by assumption.
  now destruct el.
Qed.

Lemma validToken_replaced_svg : validToken "replaced-svg".
Proof. split; [discriminate | reflexivity]. Qed.

Lemma validToken_img_fluid : validToken "img-fluid".
Proof. split; [discriminate | reflexivity]. Qed.

(** On an element in that state every step of [optimizeInlineSVG] is
    void. *)
Lemma optimizeInlineSVG_Optimized el :
  Optimized el -> optimizeInlineSVG el = el.
Proof.
  intros ([v Hid] & Hn & Hr & Hi & Hx & Hvp).
  rewrite optimizeInlineSVG_unfold. unfold id. rewrite Hid. cbn [Js.toString].
  rewrite (TokenFacts.setAttribute_current _ _ _ Hid).
  rewrite (TokenFacts.add_present _ _ Hn Hr).
  rewrite (TokenFacts.add_present _ _ Hn Hi).
  rewrite (removeAttribute_absent _ _ Hx).
  unfold setViewport. now rewrite Hvp.
Qed.

Lemma tokens_same_class a b :
  Attr.get "class" (attributes a) = Attr.get "class" (attributes b) ->
  TokenList.tokens a = TokenList.tokens b.
Proof. unfold TokenList.tokens. now intros ->. Qed.

Lemma tokens_setViewport s :
  TokenList.tokens (setViewport s) = TokenList.tokens s.
Proof.
  apply tokens_same_class. unfold setViewport.
  destruct (_ && _); auto. simpl. now apply AttrFacts.get_set_other.
Qed.

(** The class list [optimizeInlineSVG] leaves: the one the element had,
    with the two markers appended where missing.  Nothing else enters
    it. *)
Lemma tokens_optimizeInlineSVG el :
  TokenList.tokens (optimizeInlineSVG el)
  = TokenList.append (TokenList.append (TokenList.tokens el) "replaced-svg")
                     "img-fluid".
Proof.
  rewrite optimizeInlineSVG_unfold, tokens_setViewport.
  rewrite (tokens_same_class (removeAttribute "xmlns:a" _)
             (TokenList.add "img-fluid"
                (TokenList.add "replaced-svg"
                   (setAttribute "id" (Js.toString (id el)) el))))
    by (simpl; now apply AttrFacts.get_remove_other).
  rewrite !TokenFacts.tokens_add
    by (apply validToken_img_fluid || apply validToken_replaced_svg).
  do 2 f_equal. apply tokens_same_class. simpl.
  now apply AttrFacts.get_set_other.
Qed.

Lemma Optimized_setViewport s :
  (exists v, Attr.get "id" (attributes s) = Some v) ->
  classNormal s ->
  TokenList.mem "replaced-svg" (TokenList.tokens s) = true ->
  TokenList.mem "img-fluid" (TokenList.tokens s) = true ->
  Attr.get "xmlns:a" (attributes s) = None ->
  Optimized (setViewport s).
Proof.
  intros Hid Hn Hr Hi Hx. unfold setViewport.
  destruct (negb (Js.truthy (getAttribute s "viewBox"))
            && Js.truthy (getAttribute s "height")
            && Js.truthy (getAttribute s "width")) eqn:Hc.
  - set (V := ("0 0 " ++ _)%string).
    assert (Ht : TokenList.tokens (setAttribute "viewBox" V s) = TokenList.tokens s).
    { apply tokens_same_class. simpl.
      now apply AttrFacts.get_set_other. }
    repeat split.
    + destruct Hid as [v Hv]. exists v. simpl.
      rewrite AttrFacts.get_set_other; auto.
    + unfold classNormal. rewrite Ht. simpl.
      rewrite AttrFacts.get_set_other; auto.
    + now rewrite Ht.
    + now rewrite Ht.
    + simpl. rewrite AttrFacts.get_set_other; auto.
    + unfold getAttribute at 1. simpl. rewrite AttrFacts.get_set_same.
      reflexivity.
  - repeat split; auto.
Qed.

(** What [optimizeInlineSVG] returns is in that state. *)
Lemma Optimized_optimizeInlineSVG el :
  Attr.distinct (attributes el) = true -> Optimized (optimizeInlineSVG el).
Proof.
  intros Hd. rewrite optimizeInlineSVG_unfold.
  set (s1 := setAttribute "id" _ el).
  set (s2 := TokenList.add "replaced-svg" s1).
  set (s3 := TokenList.add "img-fluid" s2).
  assert (Ht3 : TokenList.tokens s3
                = TokenList.append (TokenList.tokens s2) "img-fluid")
    by (apply TokenFacts.tokens_add, validToken_img_fluid).
  assert (Ht2 : TokenList.tokens s2
                = TokenList.append (TokenList.tokens s1) "replaced-svg")
    by (apply TokenFacts.tokens_add, validToken_replaced_svg).
  assert (Hn3 : classNormal s3)
    by (apply TokenFacts.classNormal_add, validToken_img_fluid).
  assert (Hd3 : Attr.distinct (attributes s3) = true).
  { unfold s3, s2, TokenList.add. do 2 apply distinct_update.
    simpl. now apply distinct_set. }
  assert (Ht4 : TokenList.tokens (removeAttribute "xmlns:a" s3) = TokenList.tokens s3).
  { apply tokens_same_class. simpl. now apply AttrFacts.get_remove_other. }
  apply Optimized_setViewport.
  - exists (Js.toString (id el)). simpl.
    rewrite AttrFacts.get_remove_other by reflexivity.
    unfold s3, s2. rewrite !attributes_add_other by reflexivity.
    simpl. apply AttrFacts.get_set_same.
  - unfold classNormal. rewrite Ht4. simpl.
    rewrite AttrFacts.get_remove_other by reflexivity. exact Hn3.
  - rewrite Ht4, Ht3. apply TokenFacts.mem_In, TokenFacts.In_append. left.
    rewrite Ht2. apply TokenFacts.In_append. now right.
  - rewrite Ht4, Ht3. apply TokenFacts.mem_In, TokenFacts.In_append. now right.
  - simpl. now apply AttrFacts.get_remove_same.
Qed.

(** [optimizeInlineSVG] is idempotent on an element with distinct
    attribute names. *)
Lemma optimizeInlineSVG_idempotent el :
  Attr.distinct (attributes el) = true ->
  optimizeInlineSVG (optimizeInlineSVG el) = optimizeInlineSVG el.
Proof.
  intros H. now apply optimizeInlineSVG_Optimized, Optimized_optimizeInlineSVG.
Qed.

Lemma updateNth_id {A} (f : A -> A) l i :
  (forall a, nth_error l i = Some a -> f a = a) -> updateNth i f l = l.
Proof.
  revert i. induction l as [|a l IH]; intros i H; auto.
  destruct i; simpl.
  - now rewrite (H a).
  - now rewrite IH.
Qed.

(** A change that gives the element back gives the document back. *)
Lemma modifyAt_id g q : forall n e,
  elementAt n q = Some e -> g e = e -> modifyAt g q n = n.
Proof.
  unfold modifyAt. induction q as [|i q IH]; intros [e0 cs] e He Hg.
  - unfold elementAt in He. simpl in He. inversion He; subst. simpl.
    now rewrite Hg.
  - cbn [updateAt element childNodes]. f_equal.
    apply updateNth_id. intros c Hc. apply (IH c e); auto.
    rewrite elementAt_cons in He. cbn [childNodes] in He. now rewrite Hc in He.
Qed.

(* ================================================================== *)
(** * One replacement, of the optimised root, before the fixups *)

Lemma replacements_prefix url n :
  replacements (firstn n (Stage.allCalls url)) <= 1.
Proof.
  unfold Stage.allCalls, replacements.
  do 8 (destruct n as [|n]; [simpl; lia|]). simpl. lia.
Qed.



(* ================================================================== *)
(** * The names namespacing gives *)

Module NameFacts.

Lemma prefix_app a r : String.prefix a (a ++ r) = true.
Proof.
  induction a as [|c a IH]; simpl.
  - now destruct r.
  - destruct (ascii_dec c c); [exact IH | contradiction].
Qed.

Lemma prefix_inv a : forall c,
  String.prefix a c = true -> exists r, c = (a ++ r)%string.
Proof.
  induction a as [|x a IH]; intros c H.
  - now exists c.
  - destruct c as [|y c]; simpl in H; try discriminate.
    destruct (ascii_dec x y) as [<-|]; try discriminate.
    destruct (IH _ H) as [r ->]. now exists r.
Qed.

Lemma prefix_trans a b c :
  String.prefix a b = true -> String.prefix b c = true ->
  String.prefix a c = true.
Proof.
  intros Hab Hbc. apply prefix_inv in Hab. destruct Hab as [r ->].
  apply prefix_inv in Hbc. destruct Hbc as [r' ->].
  rewrite TokenFacts.str_app_assoc. apply prefix_app.
Qed.

(** The replacement of leading digits never applies: the string starts
    with the letter u. *)
Lemma uid_eq t : uid t = ("uid-" ++ Js.natToString t)%string.
Proof. reflexivity. Qed.

Lemma newElementClass_eq t c :
  newElementClass t c = ((uid t ++ "-") ++ c)%string.
Proof.
  unfold newElementClass. now rewrite TokenFacts.str_app_assoc.
Qed.

Lemma uidPrefixed_new t c : uidPrefixed t (newElementClass t c) = true.
Proof.
  unfold uidPrefixed. rewrite newElementClass_eq. apply prefix_app.
Qed.

Lemma uidPrefixed_uid t c :
  uidPrefixed t c = true -> String.prefix "uid-" c = true.
Proof.
  unfold uidPrefixed. intros H.
  apply (prefix_trans _ (uid t ++ "-")); auto.
  rewrite uid_eq. rewrite TokenFacts.str_app_assoc. apply prefix_app.
Qed.

Lemma new_has_uid t c : String.prefix "uid-" (newElementClass t c) = true.
Proof. apply (uidPrefixed_uid t), uidPrefixed_new. Qed.

(** A new name differs from the name it replaces. *)
Lemma new_neq_old t c : newElementClass t c <> c.
Proof.
  intros H. apply (f_equal String.length) in H.
  rewrite newElementClass_eq, uid_eq in H.
  assert (L : forall a b, String.length (a ++ b) = (String.length a + String.length b)%nat).
  { induction a; simpl; auto. }
  rewrite !L in H. simpl in H. lia.
Qed.

(** Two runs of digits, each followed by a dash, that start the same
    string are the same run. *)
Lemma digits_dash_inj d : forall d' r r',
  (NilEmpty.string_of_uint d ++ String "-" r
   = NilEmpty.string_of_uint d' ++ String "-" r')%string ->
  d = d'.
Proof.
  induction d; intros d' r r' H; destruct d'; simpl in H;
    try discriminate; try reflexivity;
    injection H as H; f_equal; eauto.
Qed.

(** No string carries the prefixes of two clock readings. *)
Lemma uidPrefixed_inj t t' c :
  uidPrefixed t c = true -> uidPrefixed t' c = true -> t = t'.
Proof.
  unfold uidPrefixed. intros H H'.
  apply prefix_inv in H. destruct H as [r ->].
  apply prefix_inv in H'. destruct H' as [r' H'].
  rewrite !uid_eq in H'. unfold Js.natToString in H'.
  rewrite !TokenFacts.str_app_assoc in H'. simpl in H'.
  injection H' as H'.
  apply digits_dash_inj in H'. now apply DecimalN.Unsigned.to_uint_inj.
Qed.

(** The names two conversions at different clock readings give to
    classes differ, whatever the classes. *)
Lemma newElementClass_inj t t' c c' :
  newElementClass t c = newElementClass t' c' -> t = t'.
Proof.
  intros H. apply (uidPrefixed_inj t t' (newElementClass t c)).
  - apply uidPrefixed_new.
  - rewrite H. apply uidPrefixed_new.
Qed.

End NameFacts.

(* ================================================================== *)
(** * Replacing a class on one element *)

Module ReplaceFacts.

Lemma In_replaceIn c t u l :
  In c (TokenList.replaceIn t u l) -> c = u \/ In c l.
Proof.
  induction l as [|a l IH]; simpl; auto.
  destruct ((a =? t) || (a =? u)) eqn:E; simpl.
  - intros [<- | H]; auto. apply filter_In in H. tauto.
  - intros [<- | H]; auto. destruct (IH H); auto.
Qed.

(** Every class but the replaced one stays. *)
Lemma replaceIn_keeps c t u l :
  In c l -> c <> t -> In c (TokenList.replaceIn t u l).
Proof.
  intros Hin Hne. induction l as [|a l IH]; simpl in *; auto.
  destruct ((a =? t) || (a =? u)) eqn:E.
  - destruct (String.eqb_spec c u) as [-> | Hcu]; [now left | right].
    destruct Hin as [-> | Hin].
    + apply orb_true_iff in E. destruct E as [E | E];
        apply String.eqb_eq in E; contradiction.
    + apply filter_In. split; auto.
      apply negb_true_iff, orb_false_iff.
      split; now apply String.eqb_neq.
  - destruct Hin as [-> | Hin]; [now left | right; auto].
Qed.

(** The new class is there when the replaced one was. *)
Lemma replaceIn_new t u l : In t l -> In u (TokenList.replaceIn t u l).
Proof.
  induction l as [|a l IH]; simpl; try contradiction.
  destruct ((a =? t) || (a =? u)) eqn:E; [now left|].
  intros [-> | H].
  - rewrite String.eqb_refl in E. discriminate.
  - right. auto.
Qed.

(** The replaced class is gone. *)
Lemma replaceIn_old t u l : t <> u -> ~ In t (TokenList.replaceIn t u l).
Proof.
  intros Hne. induction l as [|a l IH]; simpl; auto.
  destruct ((a =? t) || (a =? u)) eqn:E; simpl.
  - intros [H | H]; [congruence|].
    apply filter_In in H. destruct H as [_ H].
    rewrite String.eqb_refl in H. discriminate.
  - intros [-> | H]; auto.
    rewrite String.eqb_refl in E. discriminate.
Qed.

Lemma tokenSet_replaceIn t u l :
  tokenSet l -> validToken u -> tokenSet (TokenList.replaceIn t u l).
Proof.
  intros [Hn Hv] Hu. split.
  - clear Hv. induction Hn as [|a l Ha Hn IH]; simpl; [constructor|].
    destruct ((a =? t) || (a =? u)) eqn:E.
    + constructor.
      * intros H. apply filter_In in H. destruct H as [_ H].
        rewrite String.eqb_refl, orb_true_r in H. discriminate.
      * now apply NoDup_filter.
    + constructor; auto. intros H. apply In_replaceIn in H.
      destruct H as [-> | H]; auto.
      rewrite String.eqb_refl, orb_true_r in E. discriminate.
  - apply Forall_forall. intros c Hc. apply In_replaceIn in Hc.
    destruct Hc as [-> | Hc]; auto.
    rewrite Forall_forall in Hv. auto.
Qed.

(** What [classList.replace] returns: the element as it was if it does
    not carry the class, and otherwise an element that differs in the
    class attribute only and whose class list is the one with the class
    replaced. *)
Lemma replace_inr t u el el' :
  TokenList.replace t u el = inr el' ->
  validToken t /\ validToken u
  /\ innerHTML el' = innerHTML el
  /\ (TokenList.mem t (TokenList.tokens el) = false /\ el' = el
      \/ TokenList.mem t (TokenList.tokens el) = true
         /\ TokenList.tokens el'
            = TokenList.replaceIn t u (TokenList.tokens el)).
Proof.
  unfold TokenList.replace.
  destruct (TokenList.validate t) eqn:Ht; try discriminate.
  destruct (TokenList.validate u) eqn:Hu; try discriminate.
  apply TokenFacts.validate_valid in Ht. apply TokenFacts.validate_valid in Hu.
  destruct (TokenList.mem t (TokenList.tokens el)) eqn:Hm;
    intros H; inversion H; subst;
    (split; [exact Ht|]); (split; [exact Hu|]); split.
  - unfold TokenList.update.
    destruct (Attr.get "class" (attributes el));
      [|destruct (TokenList.replaceIn t u (TokenList.tokens el))]; reflexivity.
  - right. split; auto. apply TokenFacts.tokens_update.
    apply tokenSet_replaceIn; auto. apply TokenFacts.tokenSet_tokens.
  - reflexivity.
  - left. auto.
Qed.

(** A class token read from a string on its own. *)
Lemma parse_token t : validToken t -> TokenList.parse t = [t].
Proof.
  intros H. apply (TokenFacts.parse_serialize [t]). split.
  - constructor; [intros []|constructor].
  - constructor; auto.
Qed.

End ReplaceFacts.

(* ================================================================== *)
(** * Class lists through style namespacing *)

Lemma TokRel_refl t a e : TokRel t a e e.
Proof. repeat split; auto. Qed.

Lemma TokRel_trans t a e1 e2 e3 :
  TokRel t a e1 e2 -> TokRel t a e2 e3 -> TokRel t a e1 e3.
Proof.
  intros (A1 & A2 & A3) (B1 & B2 & B3). repeat split; auto.
  intros c Hc. destruct (B1 c Hc) as [H | H]; auto.
Qed.

Lemma TokRel_same_tokens t a e e' :
  TokenList.tokens e' = TokenList.tokens e -> TokRel t a e e'.
Proof. intros H. unfold TokRel. rewrite H. repeat split; auto. Qed.

(** One [classList.replace] of a rule's class by its new name, when
    neither the class of the rule nor [a] starts with uid-. *)
Lemma TokRel_replace t a old el el' :
  String.prefix "uid-" old = false ->
  String.prefix "uid-" a = false ->
  TokenList.replace old (newElementClass t old) el = inr el' ->
  TokRel t a el el'.
Proof.
  intros Hold Ha Hr. apply ReplaceFacts.replace_inr in Hr.
  destruct Hr as (_ & _ & _ & [[_ ->] | [Hm Ht]]); [apply TokRel_refl|].
  apply TokenFacts.mem_In in Hm.
  unfold TokRel. rewrite Ht. repeat split.
  - intros c Hc. apply ReplaceFacts.In_replaceIn in Hc.
    destruct Hc as [-> | Hc]; auto. right. apply NameFacts.uidPrefixed_new.
  - intros [H | H]; apply TokenFacts.mem_In in H.
    + destruct (String.eqb_spec a old) as [-> | Hne].
      * right. apply TokenFacts.mem_In. now apply ReplaceFacts.replaceIn_new.
      * left. apply TokenFacts.mem_In. now apply ReplaceFacts.replaceIn_keeps.
    + right. apply TokenFacts.mem_In. apply ReplaceFacts.replaceIn_keeps; auto.
      intros E. rewrite <- E, NameFacts.new_has_uid in Hold. discriminate.
  - intros H. apply TokenFacts.mem_false. apply TokenFacts.mem_false in H.
    intros Hc. apply ReplaceFacts.In_replaceIn in Hc.
    destruct Hc as [E | Hc]; auto.
    rewrite E, NameFacts.new_has_uid in Ha. discriminate.
Qed.

(* ================================================================== *)
(** * The nodes of a tree *)

(** Induction on a tree, with the property known of every child. *)
Lemma Node_induction (P : Node -> Prop) :
  (forall e cs, Forall P cs -> P (mkNode e cs)) -> forall n, P n.
Proof.
  intros H. fix IH 1. intros [e cs]. apply H.
  induction cs as [|c cs IHcs]; constructor; auto.
Qed.

Lemma In_pathsBelow cs : forall k i c r,
  nth_error cs i = Some c -> In r (paths c) ->
  In ((k + i)%nat :: r) (pathsBelow k cs).
Proof.
  induction cs as [|c0 cs IH]; intros k i c r Hc Hr.
  - destruct i; discriminate.
  - simpl. apply in_or_app. destruct i as [|j]; simpl in Hc.
    + left. inversion Hc; subst. rewrite Nat.add_0_r. now apply in_map.
    + right. replace (k + S j)%nat with (S k + j)%nat by lia. eauto.
Qed.

(** [paths] lists every node there is. *)
Lemma nodeAt_In_paths q : forall n m, nodeAt n q = Some m -> In q (paths n).
Proof.
  induction q as [|i q IH]; intros [e cs] m H; rewrite paths_unfold.
  - now left.
  - right. simpl in H. destruct (nth_error cs i) as [c|] eqn:Hc; try discriminate.
    apply (In_pathsBelow cs 0 i c q Hc). eauto.
Qed.

Lemma nodeAt_In_descendants q n m :
  q <> [] -> nodeAt n q = Some m -> In q (descendants n).
Proof.
  intros Hq H. apply nodeAt_In_paths in H. destruct n as [e cs].
  unfold descendants. rewrite paths_unfold in *. simpl.
  destruct H as [<- | H]; [contradiction | exact H].
Qed.

Lemma pathsBelow_head cs : forall k q,
  In q (pathsBelow k cs) -> exists i r, q = i :: r /\ (k <= i)%nat.
Proof.
  induction cs as [|c cs IH]; simpl; intros k q H; try contradiction.
  apply in_app_or in H. destruct H as [H | H].
  - apply in_map_iff in H. destruct H as [r [<- _]]. exists k, r. auto.
  - destruct (IH _ _ H) as (i & r & -> & Hi). exists i, r. split; auto. lia.
Qed.

Lemma NoDup_map_cons (k : nat) (l : list Path) :
  NoDup l -> NoDup (map (cons k) l).
Proof.
  induction 1 as [|a l Ha Hl IH]; simpl; constructor; auto.
  intros H. apply in_map_iff in H. destruct H as [x [E Hx]].
  inversion E; subst. contradiction.
Qed.

Lemma NoDup_pathsBelow cs :
  Forall (fun c => NoDup (paths c)) cs -> forall k, NoDup (pathsBelow k cs).
Proof.
  induction 1 as [|c cs Hc Hcs IH]; intros k; simpl; [constructor|].
  apply NoDup_app; auto using NoDup_map_cons.
  intros q Hq Hq'. apply in_map_iff in Hq. destruct Hq as [r [<- _]].
  apply pathsBelow_head in Hq'. destruct Hq' as (i & r' & E & Hi).
  inversion E. lia.
Qed.

(** [paths] lists no node twice. *)
Lemma NoDup_paths n : NoDup (paths n).
Proof.
  induction n as [e cs IH] using Node_induction.
  rewrite paths_unfold. constructor.
  - intros H. apply pathsBelow_nonempty in H. contradiction.
  - now apply NoDup_pathsBelow.
Qed.

Lemma NoDup_styleSheets d : NoDup (styleSheets d).
Proof. apply NoDup_filter, NoDup_paths. Qed.

(** A change below [p], seen from [p]. *)
Lemma nodeAt_updateAt_above f p rel : forall n,
  nodeAt (updateAt f (p ++ rel) n) p = option_map (updateAt f rel) (nodeAt n p).
Proof.
  induction p as [|i p IH]; intros n; auto.
  cbn [app updateAt nodeAt childNodes]. rewrite nth_error_updateNth, Nat.eqb_refl.
  destruct (nth_error (childNodes n) i); cbn [option_map]; auto.
Qed.

(* ================================================================== *)
(** * The live collection of [getElementsByClassName] *)

Lemma getElementsByClassName_In doc p names q :
  In q (getElementsByClassName doc p names) ->
  exists rel el,
    q = (p ++ rel)%list /\ rel <> []
    /\ elementAt doc q = Some el
    /\ TokenList.hasAll (TokenList.parse names) el = true.
Proof.
  unfold getElementsByClassName.
  destruct (nodeAt doc p) as [root|] eqn:Hroot; try contradiction.
  destruct (TokenList.parse names) as [|c cs] eqn:Hp; try contradiction.
  intros H. apply in_map_iff in H. destruct H as [rel [<- H]].
  apply filter_In in H. destruct H as [Hd H].
  destruct (elementAt root rel) as [el|] eqn:Hel; try discriminate.
  exists rel, el. repeat split; auto.
  - eapply descendants_nonempty; eauto.
  - now rewrite elementAt_app, Hroot.
Qed.

(** With a valid class, an element in the collection carries it. *)
Lemma getElementsByClassName_carries doc p c q el :
  validToken c ->
  In q (getElementsByClassName doc p c) -> elementAt doc q = Some el ->
  TokenList.mem c (TokenList.tokens el) = true.
Proof.
  intros Hc Hq Hel. apply getElementsByClassName_In in Hq.
  destruct Hq as (rel & el' & _ & _ & Hel' & Hall).
  rewrite Hel in Hel'. inversion Hel'; subst el'.
  rewrite ReplaceFacts.parse_token in Hall by assumption.
  simpl in Hall. now rewrite andb_true_r in Hall.
Qed.

(** An empty collection: no descendant carries the class. *)
Lemma empty_collection_noCarrier doc p c :
  getElementsByClassName doc p c = [] -> noCarrier p c doc.
Proof.
  intros Hempty q e Hq He.
  destruct (TokenList.mem c (TokenList.tokens e)) eqn:Hm; auto. exfalso.
  assert (Hc : validToken c).
  { apply TokenFacts.mem_In in Hm.
    destruct (TokenFacts.tokenSet_tokens e) as [_ Hv].
    rewrite Forall_forall in Hv. auto. }
  unfold strictlyBelow in Hq. apply andb_true_iff in Hq. destruct Hq as [Hpre Hne].
  apply isPrefix_inv in Hpre. destruct Hpre as [rel ->].
  assert (Hrel : rel <> []).
  { intros ->. rewrite app_nil_r, pathEqb_refl in Hne. discriminate. }
  revert Hempty. unfold getElementsByClassName.
  rewrite elementAt_app in He.
  destruct (nodeAt doc p) as [root|] eqn:Hroot; try discriminate.
  rewrite ReplaceFacts.parse_token by assumption.
  intros Hempty. apply map_eq_nil in Hempty.
  assert (Hin : In rel (filter
                          (fun q => match elementAt root q with
                                    | Some el => TokenList.hasAll [c] el
                                    | None => false
                                    end) (descendants root))).
  { apply filter_In. split.
    - apply elementAt_some_nodeAt in He. destruct He as [m [Hm' _]].
      eapply nodeAt_In_descendants; eauto.
    - rewrite He. simpl. now rewrite Hm. }
  rewrite Hempty in Hin. contradiction.
Qed.

Lemma filter_length_lt {A} (f f' : A -> bool) l x :
  (forall y, In y l -> f' y = true -> f y = true) ->
  In x l -> f x = true -> f' x = false ->
  (length (filter f' l) < length (filter f l))%nat.
Proof.
  intros Hle Hx Hfx Hfx'.
  assert (Hmono : forall l', (forall y, In y l' -> f' y = true -> f y = true) ->
                             (length (filter f' l') <= length (filter f l'))%nat).
  { induction l' as [|a l' IH]; intros H; simpl; auto.
    assert (IH' := IH (fun y Hy => H y (or_intror Hy))).
    destruct (f' a) eqn:Ea.
    - rewrite (H a (or_introl eq_refl) Ea). simpl. lia.
    - destruct (f a); simpl; lia. }
  induction l as [|a l IH]; simpl in *; try contradiction.
  destruct Hx as [-> | Hx].
  - rewrite Hfx, Hfx'. simpl.
    specialize (Hmono l (fun y Hy => Hle y (or_intror Hy))). lia.
  - assert (IH' := IH (fun y Hy => Hle y (or_intror Hy)) Hx).
    destruct (f' a) eqn:Ea.
    + rewrite (Hle a (or_introl eq_refl) Ea). simpl. lia.
    + destruct (f a); simpl; lia.
Qed.

(** Once an element of the collection no longer matches, the collection
    is shorter. *)
Lemma getElementsByClassName_shrinks doc p c q el' :
  validToken c ->
  In q (getElementsByClassName doc p c) ->
  TokenList.mem c (TokenList.tokens el') = false ->
  (length (getElementsByClassName (modifyAt (fun _ => el') q doc) p c)
   < length (getElementsByClassName doc p c))%nat.
Proof.
  intros Hc Hq Hel'. unfold getElementsByClassName in *.
  destruct (nodeAt doc p) as [root|] eqn:Hroot; try contradiction.
  rewrite ReplaceFacts.parse_token in * by assumption.
  apply in_map_iff in Hq. destruct Hq as [rel [<- Hq]].
  unfold modifyAt. rewrite nodeAt_updateAt_above, Hroot. cbn [option_map].
  fold (modifyAt (fun _ => el') rel root).
  unfold descendants. rewrite paths_modifyAt. fold (descendants root).
  rewrite !length_map. apply filter_In in Hq. destruct Hq as [Hd Hm].
  apply (filter_length_lt _ _ _ rel); auto.
  - intros r _. rewrite elementAt_modifyAt.
    destruct (pathEqb rel r) eqn:E; auto.
    destruct (elementAt root r); simpl; auto.
    now rewrite Hel'.
  - rewrite elementAt_modifyAt, pathEqb_refl.
    destruct (elementAt root rel); simpl; auto. now rewrite Hel'.
Qed.

(* ================================================================== *)
(** * Style namespacing, class by class *)

Section Namespacing.

Variable t : N.
Variable a : string.
Variable p : Path.
Hypothesis a_fresh : String.prefix "uid-" a = false.

Lemma Renames_refl ss d : Renames t a p ss d d.
Proof.
  split; [apply Touches_refl|]. intros q e e' H H'.
  rewrite H in H'. inversion H'. split; auto using TokRel_refl.
Qed.

Lemma Renames_trans ss1 ss2 d1 d2 d3 :
  Renames t a p ss1 d1 d2 -> Renames t a p ss2 d2 d3 ->
  Renames t a p (ss1 ++ ss2) d1 d3.
Proof.
  intros [T1 H1] [T2 H2]. split; [eapply Touches_trans; eauto|].
  intros q e e'' He He''.
  destruct T1 as [_ T1]. specialize (T1 q). rewrite He in T1.
  destruct (elementAt d2 q) as [e'|] eqn:He'; try contradiction.
  destruct (H1 q e e' He He') as [R1 X1].
  destruct (H2 q e' e'' He' He'') as [R2 X2].
  split; [eapply TokRel_trans; eauto|].
  intros Hq. rewrite X2, X1; auto; intros Hin; apply Hq, in_or_app; auto.
Qed.

Lemma Renames_mono ss ss' d d' :
  incl ss ss' -> Renames t a p ss d d' -> Renames t a p ss' d d'.
Proof.
  intros Hi [T H]. split; auto. intros q e e' He He'.
  destruct (H q e e' He He') as [R X]. split; auto.
Qed.

Lemma Renames_modifyAt ss g q d :
  (forall e, elementAt d q = Some e ->
     keptBy p q e (g e) /\ TokRel t a e (g e)
     /\ (~ In q ss -> innerHTML (g e) = innerHTML e)) ->
  Renames t a p ss d (modifyAt g q d).
Proof.
  intros H. split.
  - apply Touches_modifyAt. intros e He. now apply H.
  - intros q' e e' He. rewrite elementAt_modifyAt.
    destruct (pathEqb q q') eqn:E.
    + apply pathEqb_eq in E. subst q'. rewrite He. simpl.
      intros H'. inversion H'; subst. destruct (H e He) as (_ & R & X). auto.
    + rewrite He. intros H'. inversion H'. split; auto using TokRel_refl.
Qed.

(** A document in which no descendant carries [a] stays so. *)
Lemma noCarrier_Renames ss d d' :
  Renames t a p ss d d' -> noCarrier p a d -> noCarrier p a d'.
Proof.
  intros [[_ T] H] Hn q e' Hq He'. specialize (T q). rewrite He' in T.
  destruct (elementAt d q) as [e|] eqn:He; try contradiction.
  destruct (H q e e' He He') as [(_ & _ & R) _]. apply R. eapply Hn; eauto.
Qed.

Lemma Renames_emitRule s newClass decls d :
  parentNode s = Some p ->
  Renames t a p [s] d (emitRule s newClass decls d).
Proof.
  intros Hp. unfold emitRule. revert d.
  induction decls as [|decl decls IH]; intros d; simpl.
  - apply Renames_refl.
  - apply (Renames_mono ([s] ++ [s])); [intros x Hx; apply in_app_or in Hx; tauto|].
    eapply Renames_trans; [|apply IH].
    apply Renames_modifyAt. intros e _. split; [|split].
    + now apply keptBy_setInnerHTML.
    + now apply TokRel_same_tokens.
    + intros Hn. exfalso. apply Hn. now left.
Qed.

Lemma Renames_replace_step old q d el el' :
  String.prefix "uid-" old = false ->
  strictlyBelow p q = true ->
  elementAt d q = Some el ->
  TokenList.replace old (newElementClass t old) el = inr el' ->
  Renames t a p [] d (modifyAt (fun _ => el') q d).
Proof.
  intros Hold Hq Hel Hr. apply Renames_modifyAt. intros e He.
  rewrite Hel in He. inversion He; subst e. split; [|split].
  - eapply keptBy_replace; eauto.
  - eapply TokRel_replace; eauto.
  - intros _. now apply ReplaceFacts.replace_inr in Hr.
Qed.

(** The loop over the collection, however it ends. *)
Lemma Renames_alterClasses old m : forall d c d',
  String.prefix "uid-" old = false ->
  alterClasses p old (newElementClass t old) m d = (c, d') ->
  Renames t a p [] d d'.
Proof.
  induction m as [|m IH]; intros d c d' Hold; cbn [alterClasses];
    destruct (nth_error (getElementsByClassName d p old) _) as [q|] eqn:Hq.
  all: try (apply nth_error_In, getElementsByClassName_below in Hq).
  all: try destruct (elementAt d q) as [el|] eqn:Hel.
  all: try destruct (TokenList.replace old (newElementClass t old) el)
         as [e|el'] eqn:Hr.
  all: intros H; try (inversion H; subst; apply Renames_refl).
  - inversion H; subst. eapply Renames_replace_step; eauto.
  - apply (Renames_trans [] [] d (modifyAt (fun _ => el') q d) d');
      [eapply Renames_replace_step | eapply IH]; eauto.
  - eapply IH; eauto.
  - eapply IH; eauto.
Qed.

Lemma collection_step old d q el el' n :
  In q (getElementsByClassName d p old) ->
  elementAt d q = Some el ->
  TokenList.replace old (newElementClass t old) el = inr el' ->
  (length (getElementsByClassName d p old) <= S n)%nat ->
  (length (getElementsByClassName (modifyAt (fun _ => el') q d) p old) <= n)%nat.
Proof.
  intros Hq Hel Hr Hlen.
  apply ReplaceFacts.replace_inr in Hr.
  destruct Hr as (Hv & _ & _ & Hcase).
  assert (Hm := getElementsByClassName_carries _ _ _ _ _ Hv Hq Hel).
  destruct Hcase as [[Hm' _] | [_ Ht]]; [congruence|].
  assert (Hgone : TokenList.mem old (TokenList.tokens el') = false).
  { apply TokenFacts.mem_false. rewrite Ht.
    apply ReplaceFacts.replaceIn_old. intros E.
    symmetry in E. now apply NameFacts.new_neq_old in E. }
  pose proof (getElementsByClassName_shrinks d p old q el' Hv Hq Hgone). lia.
Qed.

(** When the loop over the collection ends normally, the collection is
    empty. *)
Lemma alterClasses_exhausts old m : forall d d',
  alterClasses p old (newElementClass t old) m d = (Normal, d') ->
  (length (getElementsByClassName d p old) <= S m)%nat ->
  getElementsByClassName d' p old = [].
Proof.
  induction m as [|m' IH]; intros d d'; cbn [alterClasses];
    destruct (nth_error (getElementsByClassName d p old) _) as [q|] eqn:Hq.
  - destruct (elementAt d q) as [el|] eqn:Hel.
    + destruct (TokenList.replace old (newElementClass t old) el)
        as [e|el'] eqn:Hr; intros H Hlen; inversion H; subst.
      apply length_zero_iff_nil. apply nth_error_In in Hq.
      pose proof (collection_step _ _ _ _ _ _ Hq Hel Hr Hlen). lia.
    + apply nth_error_In, getElementsByClassName_In in Hq.
      destruct Hq as (_ & el & _ & _ & Hel' & _). congruence.
  - intros H Hlen. inversion H; subst. apply nth_error_None in Hq.
    apply length_zero_iff_nil. lia.
  - destruct (elementAt d q) as [el|] eqn:Hel.
    + destruct (TokenList.replace old (newElementClass t old) el)
        as [e|el'] eqn:Hr; intros H Hlen; try discriminate.
      apply (IH _ _ H). apply nth_error_In in Hq.
      apply (collection_step _ _ _ _ _ _ Hq Hel Hr Hlen).
    + apply nth_error_In, getElementsByClassName_In in Hq.
      destruct Hq as (_ & el & _ & _ & Hel' & _). congruence.
  - intros H Hlen. apply nth_error_None in Hq. apply (IH _ _ H). lia.
Qed.

(** One rule: the class lists change as [Renames] says, only the text of
    the style node changes, and when the turn ends normally no
    descendant of the root carries the class of the rule any more. *)
Lemma prependRule_spec s sel decls d c d' :
  parentNode s = Some p ->
  String.prefix "uid-" (Js.substring1 sel) = false ->
  prependRule t p s (CSSStyleRule sel decls) d = (c, d') ->
  Renames t a p [s] d d'
  /\ (c = Normal -> noCarrier p (Js.substring1 sel) d').
Proof.
  intros Hp Hold. unfold prependRule.
  set (old := Js.substring1 sel) in *.
  set (d1 := emitRule s (newElementClass t old) decls d).
  assert (R1 : Renames t a p [s] d d1) by (apply Renames_emitRule; exact Hp).
  destruct (length (getElementsByClassName d1 p old)) as [|m] eqn:Hlen; intros H.
  - inversion H; subst. split; auto. intros _.
    apply empty_collection_noCarrier. now apply length_zero_iff_nil.
  - split.
    + apply (Renames_mono ([s] ++ [])); [now rewrite app_nil_r|].
      eapply Renames_trans; eauto. eapply Renames_alterClasses; eauto.
    + intros ->. apply empty_collection_noCarrier.
      eapply alterClasses_exhausts; eauto. lia.
Qed.

(** The rules of one sheet. *)
Lemma prependRules_spec s rules : forall d c d',
  parentNode s = Some p ->
  (forall r old, In r rules -> ruleOldClass r = Some old ->
                 String.prefix "uid-" old = false) ->
  prependRules t p s rules d = (c, d') ->
  Renames t a p [s] d d'
  /\ (c = Normal ->
      forall decls, In (CSSStyleRule ("." ++ a) decls) rules ->
                    noCarrier p a d').
Proof.
  induction rules as [|r rules IH]; intros d c d' Hp Hfresh; simpl.
  - intros H. inversion H; subst. split; [apply Renames_refl|].
    intros _ decls [].
  - destruct (prependRule t p s r d) as [[|e] d1] eqn:E; intros H.
    + destruct r as [sel decls0|]; [|discriminate].
      destruct (prependRule_spec s sel decls0 d Normal d1 Hp) as [R1 N1]; auto.
      { apply (Hfresh (CSSStyleRule sel decls0)); [now left | reflexivity]. }
      destruct (IH d1 c d' Hp) as [R2 N2]; auto.
      { intros r old Hr. apply Hfresh. now right. }
      split.
      * apply (Renames_mono ([s] ++ [s]));
          [intros x Hx; apply in_app_or in Hx; tauto|].
        eapply Renames_trans; eauto.
      * intros Hc decls [Hd | Hd]; [|now apply (N2 Hc decls)].
        inversion Hd; subst. eapply noCarrier_Renames; eauto.
    + inversion H; subst. split; [|discriminate].
      destruct r as [sel decls0|].
      * eapply prependRule_spec; eauto.
        apply (Hfresh (CSSStyleRule sel decls0)); [now left | reflexivity].
      * simpl in E. inversion E. apply Renames_refl.
Qed.

Lemma Renames_text ss d d' q :
  Renames t a p ss d d' -> ~ In q ss ->
  option_map innerHTML (elementAt d' q) = option_map innerHTML (elementAt d q).
Proof.
  intros [[_ T] H] Hq. specialize (T q).
  destruct (elementAt d q) as [e|] eqn:He,
           (elementAt d' q) as [e'|] eqn:He'; try contradiction; auto.
  simpl. f_equal. now apply (H q e e' He He').
Qed.

Section Sheets.

Context {Number : Type}.
Variable B : Browser Number.

Lemma prependSheet_spec s d c d' :
  FreshIn B p [s] d ->
  prependSheet B t p s d = (c, d') ->
  Renames t a p [s] d d'
  /\ (c = Normal -> DefinedIn B a p [s] d -> noCarrier p a d').
Proof.
  intros Hfresh. unfold prependSheet.
  destruct (parentNode s) as [parent|] eqn:Hp.
  2:{ intros H. inversion H; subst. split; [apply Renames_refl|].
      intros _ (s0 & el & decls & [<- | []] & Hp0 & _). congruence. }
  destruct (pathEqb p parent) eqn:E.
  2:{ intros H. inversion H; subst. split; [apply Renames_refl|].
      intros _ (s0 & el & decls & [<- | []] & Hp0 & _).
      rewrite Hp in Hp0. inversion Hp0; subst.
      rewrite pathEqb_refl in E. discriminate. }
  apply pathEqb_eq in E. subst parent.
  destruct (elementAt d s) as [el|] eqn:Hel.
  2:{ intros H. inversion H; subst. split; [apply Renames_refl|].
      intros _ (s0 & el & decls & [<- | []] & _ & Hel0 & _). congruence. }
  set (d1 := modifyAt (setInnerHTML "") s d). intros H.
  assert (R1 : Renames t a p [s] d d1).
  { apply Renames_modifyAt. intros e _. split; [|split].
    - now apply keptBy_setInnerHTML.
    - now apply TokRel_same_tokens.
    - intros Hn. exfalso. apply Hn. now left. }
  destruct (prependRules_spec s (cssRules B (innerHTML el)) d1 c d' Hp)
    as [R2 N2]; auto.
  { intros r old Hr Ho. apply (Hfresh s el r old); auto. now left. }
  split.
  - apply (Renames_mono ([s] ++ [s]));
      [intros x Hx; apply in_app_or in Hx; tauto|].
    eapply Renames_trans; eauto.
  - intros Hc (s0 & el0 & decls & [<- | []] & _ & Hel0 & Hrule).
    rewrite Hel in Hel0. inversion Hel0; subst el0. eauto.
Qed.

Lemma FreshIn_step s rest d d1 :
  ~ In s rest -> Renames t a p [s] d d1 ->
  FreshIn B p (s :: rest) d -> FreshIn B p rest d1.
Proof.
  intros Hs R Hfresh s' el1 r old Hin Hp Hel1 Hr Ho.
  assert (Hne : ~ In s' [s]) by (intros [-> | []]; contradiction).
  pose proof (Renames_text _ _ _ s' R Hne) as Ht. rewrite Hel1 in Ht.
  destruct (elementAt d s') as [el|] eqn:Hel; try discriminate.
  simpl in Ht. inversion Ht as [Ht'].
  apply (Hfresh s' el r old); auto. now right. now rewrite <- Ht'.
Qed.

Lemma DefinedIn_step s rest d d1 :
  ~ In s rest -> Renames t a p [s] d d1 ->
  DefinedIn B a p rest d -> DefinedIn B a p rest d1.
Proof.
  intros Hs R (s' & el & decls & Hin & Hp & Hel & Hrule).
  assert (Hne : ~ In s' [s]) by (intros [-> | []]; contradiction).
  pose proof (Renames_text _ _ _ s' R Hne) as Ht. rewrite Hel in Ht.
  destruct (elementAt d1 s') as [el1|] eqn:Hel1; try discriminate.
  simpl in Ht. inversion Ht as [Ht'].
  exists s', el1, decls. repeat split; auto. now rewrite Ht'.
Qed.

(** All sheets: when namespacing ends normally and a style node under
    the root defines [.a], no descendant of the root carries [a]. *)
Lemma prependSheets_spec ss : forall d c d',
  NoDup ss -> FreshIn B p ss d ->
  prependSheets B t p ss d = (c, d') ->
  Renames t a p ss d d'
  /\ (c = Normal -> DefinedIn B a p ss d -> noCarrier p a d').
Proof.
  induction ss as [|s rest IH]; intros d c d' Hnd Hfresh; simpl.
  - intros H. inversion H; subst. split; [apply Renames_refl|].
    intros _ (s & _ & _ & [] & _).
  - inversion Hnd as [|? ? Hs Hrest]; subst.
    destruct (prependSheet B t p s d) as [[|e] d1] eqn:E; intros H.
    + destruct (prependSheet_spec s d Normal d1) as [R1 N1]; auto.
      { intros s0 el r old [<- | []]. apply Hfresh. now left. }
      destruct (IH d1 c d' Hrest) as [R2 N2]; auto.
      { eapply FreshIn_step; eauto. }
      split.
      * apply (Renames_trans [s] rest d d1 d'); auto.
      * intros Hc (s0 & el & decls & [<- | Hin] & Hp & Hel & Hrule).
        -- eapply noCarrier_Renames; eauto. apply N1; auto.
           exists s, el, decls. repeat split; auto. now left.
        -- apply N2; auto. eapply DefinedIn_step; eauto.
           exists s0, el, decls. auto.
    + inversion H; subst. split; [|discriminate].
      apply (Renames_mono [s]); [intros x [<- | []]; now left|].
      eapply prependSheet_spec; eauto.
      intros s0 el r old [<- | []]. apply Hfresh. now left.
Qed.

End Sheets.

End Namespacing.

(* ================================================================== *)
(** * A conversion, seen from outside and from inside the root *)

(** Outside the root, namespacing changes nothing. *)
Lemma Touches_outside p d d' q :
  Touches p d d' -> isPrefix p q = false -> elementAt d' q = elementAt d q.
Proof.
  intros [_ H] Hq. specialize (H q).
  destruct (elementAt d q) as [e|], (elementAt d' q) as [e'|];
    try contradiction; auto.
  destruct H as (H1 & H2 & _ & H4 & H5).
  assert (Hs : strictlyBelow p q = false)
    by (unfold strictlyBelow; now rewrite Hq).
  assert (Hp : parentNode q <> Some p).
  { intros Hp. apply parentNode_inv in Hp. destruct Hp as [i ->].
    rewrite isPrefix_app in Hq. discriminate. }
  specialize (H4 Hs). specialize (H5 Hp).
  destruct e, e'; simpl in *. congruence.
Qed.

Lemma pathEqb_isPrefix p q : isPrefix p q = false -> pathEqb p q = false.
Proof.
  intros H. apply pathEqb_neq. intros ->.
  rewrite <- (app_nil_r q) in H at 2. rewrite isPrefix_app in H. discriminate.
Qed.

(** A completed conversion changes nothing outside the node it
    replaces. *)
Lemma convert_outside {Number} (B : Browser Number) t p w w' q :
  convertSVGtoInline B t p w = (Normal, w') ->
  isPrefix p q = false ->
  elementAt (document w') q = elementAt (document w) q.
Proof.
  intros H Hq. apply convert_fulfilled in H.
  destruct H as (source & text & svgInline & rest & bbox & d3 &
                 _ & _ & _ & _ & _ & Hns & ->).
  apply Touches_prependSheets in Hns.
  pose proof (pathEqb_isPrefix _ _ Hq) as Hne.
  cbn [document]. unfold Stage.repainted.
  rewrite !elementAt_modifyAt, Hne.
  rewrite (Touches_outside _ _ _ _ Hns Hq).
  unfold Stage.trimmed, Stage.reoptimized, Stage.spliced, replaceAt.
  rewrite !elementAt_modifyAt, Hne.
  now apply elementAt_updateAt_off.
Qed.

Lemma pathEqb_app_false p rel : rel <> [] -> pathEqb p (p ++ rel) = false.
Proof.
  intros Hrel. apply pathEqb_neq. intros E.
  rewrite <- (app_nil_r p) in E at 1. apply app_inv_head in E. auto.
Qed.

(** Below the root, the document after the bounds trimming has what the
    parsed graphic has. *)
Lemma trimmed_below viewBox svgInline p doc source rel :
  elementAt doc p = Some source -> rel <> [] ->
  elementAt (Stage.trimmed viewBox svgInline p doc) (p ++ rel)
  = elementAt svgInline rel.
Proof.
  intros Hsrc Hrel.
  unfold Stage.trimmed, Stage.reoptimized, Stage.spliced, replaceAt.
  rewrite !elementAt_modifyAt, pathEqb_app_false by assumption.
  unfold elementAt. rewrite nodeAt_updateAt_below.
  apply elementAt_some_nodeAt in Hsrc. destruct Hsrc as [m [-> _]].
  destruct rel as [|i rel]; [contradiction|].
  destruct svgInline as [e cs]. reflexivity.
Qed.

Lemma isPrefix_app_cases p2 : forall p1 rel,
  isPrefix p2 (p1 ++ rel) = true ->
  isPrefix p2 p1 = true \/ isPrefix p1 p2 = true.
Proof.
  induction p2 as [|i p2 IH]; intros p1 rel H; [now left|].
  destruct p1 as [|j p1]; [now right|].
  simpl in *. apply andb_true_iff in H. destruct H as [Hij H].
  rewrite Hij. simpl. rewrite Nat.eqb_sym, Hij. simpl. eauto.
Qed.

Section Conversion.

Context {Number : Type}.
Variable B : Browser Number.
Variables (t : N) (p : Path) (svgInline : Node) (a : string).
Hypothesis fresh : freshRules B svgInline = true.
Hypothesis defined : definesClass B svgInline a = true.

(** The rules of the style nodes that are children of the graphic. *)
Lemma childSheets_In i c :
  nth_error (childNodes svgInline) i = Some c ->
  ownsSheet (element c) = true ->
  In (cssRules B (innerHTML (element c))) (childSheets B svgInline).
Proof.
  intros Hc Hname. unfold childSheets. apply in_flat_map.
  exists c. split; [eapply nth_error_In; eauto|].
  rewrite Hname. now left.
Qed.

Lemma defined_class_fresh : String.prefix "uid-" a = false.
Proof.
  unfold definesClass in defined. apply existsb_exists in defined.
  destruct defined as (rules & Hrules & Hex).
  apply existsb_exists in Hex. destruct Hex as (r & Hr & Hsel).
  destruct r as [sel decls|]; try discriminate.
  apply String.eqb_eq in Hsel. subst sel.
  unfold freshRules in fresh. rewrite forallb_forall in fresh.
  specialize (fresh rules Hrules). rewrite forallb_forall in fresh.
  specialize (fresh _ Hr). simpl in fresh.
  now apply negb_true_iff in fresh.
Qed.

Variables (doc : Node) (source : Element) (viewBox : string).
Hypothesis placeholder : elementAt doc p = Some source.

Lemma elementAt_child i el :
  elementAt (Stage.trimmed viewBox svgInline p doc) (p ++ [i]) = Some el ->
  exists c, nth_error (childNodes svgInline) i = Some c /\ element c = el.
Proof.
  rewrite (trimmed_below _ _ _ _ source) by (auto; discriminate).
  rewrite elementAt_cons.
  destruct (nth_error (childNodes svgInline) i) as [c|]; try discriminate.
  unfold elementAt. simpl. intros H. inversion H. now exists c.
Qed.

Lemma FreshIn_trimmed :
  FreshIn B p (styleSheets (Stage.trimmed viewBox svgInline p doc))
          (Stage.trimmed viewBox svgInline p doc).
Proof.
  intros s el r old Hs Hp Hel Hr Hold.
  apply parentNode_inv in Hp. destruct Hp as [i ->].
  apply filter_In in Hs. destruct Hs as [_ Hname]. rewrite Hel in Hname.
  apply elementAt_child in Hel. destruct Hel as (c & Hc & <-).
  pose proof (childSheets_In i c Hc Hname) as Hin.
  unfold freshRules in fresh. rewrite forallb_forall in fresh.
  specialize (fresh _ Hin). rewrite forallb_forall in fresh.
  specialize (fresh _ Hr). rewrite Hold in fresh.
  now apply negb_true_iff in fresh.
Qed.

Lemma DefinedIn_trimmed :
  DefinedIn B a p (styleSheets (Stage.trimmed viewBox svgInline p doc))
            (Stage.trimmed viewBox svgInline p doc).
Proof.
  unfold definesClass in defined. apply existsb_exists in defined.
  destruct defined as (rules & Hrules & Hex).
  apply existsb_exists in Hex. destruct Hex as (r & Hr & Hsel).
  destruct r as [sel decls|]; try discriminate.
  apply String.eqb_eq in Hsel. subst sel.
  unfold childSheets in Hrules. apply in_flat_map in Hrules.
  destruct Hrules as (c & Hc & Hin).
  destruct (ownsSheet (element c)) eqn:Hname;
    [|contradiction]. destruct Hin as [<- | []].
  apply In_nth_error in Hc. destruct Hc as [i Hc].
  assert (Hel : elementAt (Stage.trimmed viewBox svgInline p doc) (p ++ [i])
                = Some (element c)).
  { rewrite (trimmed_below _ _ _ _ source) by (auto; discriminate).
    rewrite elementAt_cons, Hc. reflexivity. }
  exists (p ++ [i])%list, (element c), decls. repeat split; auto.
  - apply filter_In. split.
    + apply elementAt_some_nodeAt in Hel. destruct Hel as [m [Hm _]].
      eapply nodeAt_In_paths; eauto.
    + now rewrite Hel.
  - apply parentNode_app.
Qed.

(** What style namespacing does to the classes of the graphic in a
    conversion. *)
Lemma namespaced_below d3 :
  prependSheets B t p (styleSheets (Stage.trimmed viewBox svgInline p doc))
                (Stage.trimmed viewBox svgInline p doc) = (Normal, d3) ->
  forall rel e0,
    rel <> [] -> elementAt svgInline rel = Some e0 ->
    exists e,
      elementAt d3 (p ++ rel) = Some e
      /\ TokRel t a e0 e
      /\ TokenList.mem a (TokenList.tokens e) = false.
Proof.
  intros Hns rel e0 Hrel He0.
  destruct (prependSheets_spec t a p defined_class_fresh B _ _ _ _
              (NoDup_styleSheets _) FreshIn_trimmed Hns) as [[[_ T] R] N].
  specialize (N eq_refl DefinedIn_trimmed).
  rewrite <- (trimmed_below viewBox _ p doc source) in He0 by assumption.
  specialize (T (p ++ rel)%list). rewrite He0 in T.
  destruct (elementAt d3 (p ++ rel)) as [e|] eqn:He; try contradiction.
  exists e. split; auto. split.
  - now apply (R _ _ _ He0 He).
  - apply (N _ _ (strictlyBelow_app p rel Hrel) He).
Qed.

End Conversion.

(* ================================================================== *)
(** * Two graphics in one page *)

Lemma freshClasses_In svgInline rel e0 c :
  freshClasses svgInline = true ->
  rel <> [] -> elementAt svgInline rel = Some e0 ->
  In c (TokenList.tokens e0) -> String.prefix "uid-" c = false.
Proof.
  intros Hf Hrel He0 Hc. unfold freshClasses in Hf.
  rewrite forallb_forall in Hf.
  assert (Hin : In rel (descendants svgInline)).
  { apply elementAt_some_nodeAt in He0. destruct He0 as [m [Hm _]].
    eapply nodeAt_In_descendants; eauto. }
  specialize (Hf rel Hin). rewrite He0 in Hf.
  rewrite forallb_forall in Hf. specialize (Hf c Hc).
  now apply negb_true_iff in Hf.
Qed.

(** One completed conversion at clock reading [t], as far as the classes
    of the inserted graphic go, against any other clock reading. *)
Lemma convert_NamespacedUnder {Number} (B : Browser Number) t t' p w w'
    source text svgInline rest a :
  convertSVGtoInline B t p w = (Normal, w') ->
  elementAt (document w) p = Some source ->
  fetch B (Js.toString (imgURL B source)) = Some text ->
  getElementsByTagName (parseFromString B text) "svg" = svgInline :: rest ->
  t <> t' ->
  definesClass B svgInline a = true ->
  freshRules B svgInline = true ->
  freshClasses svgInline = true ->
  NamespacedUnder t t' a svgInline p (document w').
Proof.
  intros Hrun Hsrc Hfetch Hsvg Ht Hdef Hfr Hfc rel e0 Hrel He0.
  apply convert_fulfilled in Hrun.
  destruct Hrun as (source' & text' & svg' & rest' & bbox & d3 &
                    Hsrc' & Hfetch' & Hsvg' & _ & _ & Hns & ->).
  rewrite Hsrc in Hsrc'. inversion Hsrc'; subst source'.
  rewrite Hfetch in Hfetch'. inversion Hfetch'; subst text'.
  rewrite Hsvg in Hsvg'. inversion Hsvg'; subst svg' rest'.
  destruct (namespaced_below B t p svgInline a Hfr Hdef (document w) source
              (viewBoxOf B bbox) Hsrc d3 Hns rel e0 Hrel He0)
    as (e & He & (R1 & R2 & R3) & Hgone).
  exists e. split.
  { cbn [document]. unfold Stage.repainted.
    now rewrite !elementAt_modifyAt, pathEqb_app_false. }
  split; [|split; [exact Hgone|split; [|exact R1]]].
  - intros Hm. destruct (R2 (or_introl Hm)) as [H | H]; [congruence | exact H].
  - apply TokenFacts.mem_false. intros Hin.
    destruct (R1 _ Hin) as [H0 | Hpre].
    + pose proof (NameFacts.new_has_uid t' a) as Hu.
      rewrite (freshClasses_In _ _ _ _ Hfc Hrel He0 H0) in Hu. discriminate.
    + apply Ht. apply (NameFacts.uidPrefixed_inj t t' _ Hpre).
      apply NameFacts.uidPrefixed_new.
Qed.

Lemma NamespacedUnder_kept {Number} (B : Browser Number) t t' a svgInline p
    t2 p2 w1 w2 :
  convertSVGtoInline B t2 p2 w1 = (Normal, w2) ->
  isPrefix p p2 = false -> isPrefix p2 p = false ->
  NamespacedUnder t t' a svgInline p (document w1) ->
  NamespacedUnder t t' a svgInline p (document w2).
Proof.
  intros Hrun H12 H21 H rel e0 Hrel He0.
  destruct (H rel e0 Hrel He0) as (e & He & Hrest).
  exists e. split; auto.
  rewrite (convert_outside B t2 p2 w1 w2 _ Hrun); auto.
  destruct (isPrefix p2 (p ++ rel)) eqn:E; auto.
  apply isPrefix_app_cases in E. destruct E; congruence.
Qed.

Lemma tokens_repainted viewBox el :
  TokenList.tokens
    (setStyleDisplay "flex"
       (setStyleDisplay "none" (setAttribute "viewBox" viewBox el)))
  = TokenList.tokens el.
Proof.
  apply tokens_same_class.
  rewrite !attributes_setStyleDisplay_other by reflexivity.
  cbn [attributes setAttribute]. now apply AttrFacts.get_set_other.
Qed.

Lemma append_present l t :
  In t l -> TokenList.append l t = l.
Proof.
  intros H. apply TokenFacts.mem_In in H. unfold TokenList.append.
  now rewrite H.
Qed.

(** The class list of the inserted root after a completed conversion. *)
Lemma convert_RootClassesKept {Number} (B : Browser Number) t p w w'
    source text svgInline rest :
  convertSVGtoInline B t p w = (Normal, w') ->
  elementAt (document w) p = Some source ->
  fetch B (Js.toString (imgURL B source)) = Some text ->
  getElementsByTagName (parseFromString B text) "svg" = svgInline :: rest ->
  RootClassesKept svgInline p (document w').
Proof.
  intros Hrun Hsrc Hfetch Hsvg. apply convert_root in Hrun.
  destruct Hrun as (source' & text' & svg' & rest' & bbox &
                    Hsrc' & Hfetch' & Hsvg' & _ & Hroot).
  rewrite Hsrc in Hsrc'. inversion Hsrc'; subst source'.
  rewrite Hfetch in Hfetch'. inversion Hfetch'; subst text'.
  rewrite Hsvg in Hsvg'. inversion Hsvg'; subst svg' rest'.
  eexists. split; [exact Hroot|].
  rewrite tokens_repainted, !tokens_optimizeInlineSVG.
  set (ts := TokenList.append
               (TokenList.append (TokenList.tokens (element svgInline))
                                 "replaced-svg") "img-fluid").
  assert (H1 : In "replaced-svg" ts).
  { apply TokenFacts.In_append. left. apply TokenFacts.In_append. now right. }
  assert (H2 : In "img-fluid" ts) by (apply TokenFacts.In_append; now right).
  rewrite (append_present ts "replaced-svg" H1).
  now rewrite (append_present ts "img-fluid" H2).
Qed.



(** What the theorem says of the roots, on that page: after both
    conversions the two svg elements carry the class [a] both, while the
    rectangles below them carry uid-7-a and uid-8-a. *)
Lemma root_class_is_not_renamed :
  option_map TokenList.tokens
    (elementAt (document (snd (Pair.afterBoth Pair.rooted 7 8))) Pair.first)
  = Some ["a"; "replaced-svg"; "img-fluid"]
  /\ option_map TokenList.tokens
       (elementAt (document (snd (Pair.afterBoth Pair.rooted 7 8)))
                  Pair.second)
     = Some ["a"; "replaced-svg"; "img-fluid"]
  /\ option_map TokenList.tokens
       (elementAt (document (snd (Pair.afterBoth Pair.rooted 7 8)))
                  (Pair.first ++ [1%nat])) = Some ["uid-7-a"]
  /\ option_map TokenList.tokens
       (elementAt (document (snd (Pair.afterBoth Pair.rooted 7 8)))
                  (Pair.second ++ [1%nat])) = Some ["uid-8-a"].
Proof. repeat split; vm_compute; reflexivity. Qed.


(** The other way the names can coincide: two conversions that read the
    same millisecond from the clock give both graphics the name
    uid-7-a, for the elements and for the rules. *)
Lemma same_clock_reading_same_names :
  fst (Pair.afterBoth Pair.graphic 7 7) = Normal
  /\ option_map TokenList.tokens
       (elementAt (document (snd (Pair.afterBoth Pair.graphic 7 7)))
                  (Pair.first ++ [1%nat])) = Some ["uid-7-a"]
  /\ option_map TokenList.tokens
       (elementAt (document (snd (Pair.afterBoth Pair.graphic 7 7)))
                  (Pair.second ++ [1%nat])) = Some ["uid-7-a"]
  /\ option_map innerHTML
       (elementAt (document (snd (Pair.afterBoth Pair.graphic 7 7)))
                  (Pair.first ++ [0%nat]))
     = Some (".uid-7-a{fill: red;}" ++ LF)%string
  /\ option_map innerHTML
       (elementAt (document (snd (Pair.afterBoth Pair.graphic 7 7)))
                  (Pair.second ++ [0%nat]))
     = Some (".uid-7-a{fill: blue;}" ++ LF)%string.
Proof. repeat split; vm_compute; reflexivity. Qed.

(* ================================================================== *)
(** * More on the attribute pass *)

Lemma attributes_setViewport_other name svg :
  ("viewBox" =? name) = false ->
  Attr.get name (attributes (setViewport svg)) = Attr.get name (attributes svg).
Proof.
  intros H. unfold setViewport. destruct (_ && _); auto.
  simpl. now apply AttrFacts.get_set_other.
Qed.

Lemma inlineStyle_update el ts :
  inlineStyle (TokenList.update el ts) = inlineStyle el.
Proof.
  unfold TokenList.update.
  destruct (Attr.get "class" (attributes el)); [|destruct ts]; reflexivity.
Qed.

Lemma innerHTML_update el ts :
  innerHTML (TokenList.update el ts) = innerHTML el.
Proof.
  unfold TokenList.update.
  destruct (Attr.get "class" (attributes el)); [|destruct ts]; reflexivity.
Qed.

(** What the attribute pass leaves alone. *)
Lemma optimizeInlineSVG_rest (el : Element) :
    qualifiedName (optimizeInlineSVG el) = qualifiedName el
    /\ inlineStyle (optimizeInlineSVG el) = inlineStyle el
    /\ innerHTML (optimizeInlineSVG el) = innerHTML el
    /\ forall name,
        ("id" =? name) = false -> ("class" =? name) = false ->
        ("xmlns:a" =? name) = false -> ("viewBox" =? name) = false ->
        Attr.get name (attributes (optimizeInlineSVG el))
        = Attr.get name (attributes el).
Proof.
  split; [apply qualifiedName_optimizeInlineSVG|].
  rewrite optimizeInlineSVG_unfold. repeat split.
  - unfold setViewport. destruct (_ && _);
      cbn [inlineStyle setAttribute removeAttribute];
      unfold TokenList.add; now rewrite !inlineStyle_update.
  - unfold setViewport. destruct (_ && _);
      cbn [innerHTML setAttribute removeAttribute];
      unfold TokenList.add; now rewrite !innerHTML_update.
  - intros name H1 H2 H3 H4.
    rewrite attributes_setViewport_other by assumption.
    now apply optimize_prefix_other.
Qed.

(** X1.  [optimizeInlineSVG] changes at most the attributes id, class,
    xmlns:a and viewBox: every other attribute reads as before, and the
    name, the inline style and the text of the element are kept. *)
Theorem X1_optimizeInlineSVG_keeps_other_attributes :
  forall el : Element,
    qualifiedName (optimizeInlineSVG el) = qualifiedName el
    /\ inlineStyle (optimizeInlineSVG el) = inlineStyle el
    /\ innerHTML (optimizeInlineSVG el) = innerHTML el
    /\ forall name,
        ("id" =? name) = false -> ("class" =? name) = false ->
        ("xmlns:a" =? name) = false -> ("viewBox" =? name) = false ->
        Attr.get name (attributes (optimizeInlineSVG el))
        = Attr.get name (attributes el).
Proof.
  intros el. apply optimizeInlineSVG_rest.
Qed.

Lemma X1_witness :
  Attr.get "data-name" (attributes (optimizeInlineSVG More.exported))
  = Some "Layer 1".
Proof.
  rewrite (proj2 (proj2 (proj2 (X1_optimizeInlineSVG_keeps_other_attributes
                                  More.exported))) "data-name");
    reflexivity.
Defined.

(** X2.  On an element with distinct attribute names, what
    [optimizeInlineSVG] returns has no xmlns:a attribute and has an id
    attribute, whose value is the one the element had or the empty
    string. *)
Theorem X2_optimizeInlineSVG_removes_xmlns_a :
  forall el : Element,
    Attr.distinct (attributes el) = true ->
    Attr.get "xmlns:a" (attributes (optimizeInlineSVG el)) = None
    /\ Attr.get "id" (attributes (optimizeInlineSVG el))
       = Some (match Attr.get "id" (attributes el) with
               | Some v => v
               | None => ""
               end).
Proof.
  intros el Hd. split.
  - now destruct (Optimized_optimizeInlineSVG el Hd) as (_ & _ & _ & _ & H & _).
  - rewrite optimizeInlineSVG_id. unfold id.
    now destruct (Attr.get "id" (attributes el)).
Qed.

Lemma X2_witness :
  Attr.get "xmlns:a" (attributes More.exported)
  = Some "http://ns.adobe.com/AdobeSVGViewerExtensions/3.0/"
  /\ Attr.get "xmlns:a" (attributes (optimizeInlineSVG More.exported)) = None
  /\ Attr.get "id" (attributes (optimizeInlineSVG More.exported)) = Some "".
Proof.
  split; [reflexivity|].
  apply (X2_optimizeInlineSVG_removes_xmlns_a More.exported). reflexivity.
Defined.

Lemma append_extends l t :
  exists added, TokenList.append l t = (l ++ added)%list /\ incl added [t].
Proof.
  unfold TokenList.append. destruct (TokenList.mem t l).
  - exists []. split; [now rewrite app_nil_r | intros x []].
  - exists [t]. split; auto. apply incl_refl.
Qed.

(** X3.  The class list [optimizeInlineSVG] leaves is the class list the
    element had, in its order, followed by those of replaced-svg and
    img-fluid it did not have yet; both markers are in it and no class is
    in it twice. *)
Theorem X3_optimizeInlineSVG_class_list :
  forall el : Element,
    (exists added,
        TokenList.tokens (optimizeInlineSVG el)
        = (TokenList.tokens el ++ added)%list
        /\ incl added ["replaced-svg"; "img-fluid"])
    /\ In "replaced-svg" (TokenList.tokens (optimizeInlineSVG el))
    /\ In "img-fluid" (TokenList.tokens (optimizeInlineSVG el))
    /\ NoDup (TokenList.tokens (optimizeInlineSVG el)).
Proof.
  intros el. rewrite tokens_optimizeInlineSVG. repeat split.
  - destruct (append_extends (TokenList.tokens el) "replaced-svg")
      as (a1 & E1 & I1).
    destruct (append_extends (TokenList.append (TokenList.tokens el) "replaced-svg")
                             "img-fluid") as (a2 & E2 & I2).
    exists (a1 ++ a2)%list. split.
    + now rewrite E2, E1, app_assoc.
    + intros x Hx. apply in_app_or in Hx. destruct Hx as [Hx | Hx].
      * apply I1 in Hx. destruct Hx as [<- | []]. now left.
      * apply I2 in Hx. destruct Hx as [<- | []]. right. now left.
  - apply TokenFacts.In_append. left. apply TokenFacts.In_append. now right.
  - apply TokenFacts.In_append. now right.
  - apply TokenFacts.tokenSet_append; [|apply validToken_img_fluid].
    apply TokenFacts.tokenSet_append; [|apply validToken_replaced_svg].
    apply TokenFacts.tokenSet_tokens.
Qed.

(** X4.  [setViewport] changes no attribute but viewBox, and applying it
    twice is applying it once. *)
Theorem X4_setViewport_idempotent :
  forall svg : Element,
    setViewport (setViewport svg) = setViewport svg
    /\ forall name,
        ("viewBox" =? name) = false ->
        Attr.get name (attributes (setViewport svg))
        = Attr.get name (attributes svg).
Proof.
  intros svg. split; [|intros name H; now apply attributes_setViewport_other].
  unfold setViewport at 2 3.
  destruct (negb (Js.truthy (getAttribute svg "viewBox"))
            && Js.truthy (getAttribute svg "height")
            && Js.truthy (getAttribute svg "width")) eqn:Hc.
  - unfold setViewport. unfold getAttribute at 1. cbn [attributes setAttribute].
    rewrite AttrFacts.get_set_same. reflexivity.
  - unfold setViewport. now rewrite Hc.
Qed.

Lemma X4_witness :
  Attr.get "height" (attributes (setViewport More.exported)) = Some "100".
Proof.
  rewrite (proj2 (X4_setViewport_idempotent More.exported) "height");
    reflexivity.
Defined.

(* ================================================================== *)
(** * More on the names *)

Lemma hasWhitespace_digits d :
  TokenList.hasWhitespace (NilEmpty.string_of_uint d) = false.
Proof. induction d; simpl; auto. Qed.

Lemma hasWhitespace_new t c :
  TokenList.hasWhitespace (newElementClass t c) = TokenList.hasWhitespace c.
Proof.
  rewrite NameFacts.newElementClass_eq, NameFacts.uid_eq.
  rewrite !TokenFacts.hasWhitespace_app. unfold Js.natToString.
  now rewrite hasWhitespace_digits.
Qed.

Lemma str_app_inv_head a : forall b c, (a ++ b = a ++ c)%string -> b = c.
Proof. induction a; simpl; intros b c H; auto. injection H. auto. Qed.

(** X5.  The replacement of leading digits on line 46 never removes
    anything: the prefix is uid- followed by the clock reading in
    decimal.  The new name of a class starts with the letter u, is a
    class token [classList] accepts whenever the old name is one, and is
    refused for its whitespace whenever the old name has whitespace. *)
Theorem X5_new_name_is_a_class_token :
  forall (t : N) (c : string),
    uid t = ("uid-" ++ Js.natToString t)%string
    /\ String.prefix "uid-" (newElementClass t c) = true
    /\ (validToken c -> validToken (newElementClass t c))
    /\ (TokenList.hasWhitespace c = true ->
        TokenList.validate (newElementClass t c)
        = Some Js.InvalidCharacterError).
Proof.
  intros t c. split; [apply NameFacts.uid_eq|].
  split; [apply NameFacts.new_has_uid|]. split.
  - intros [_ Hws]. split.
    + intros E. pose proof (NameFacts.new_has_uid t c) as H.
      rewrite E in H. discriminate.
    + now rewrite hasWhitespace_new.
  - intros Hws. unfold TokenList.validate.
    destruct (newElementClass t c =? "") eqn:E.
    + apply String.eqb_eq in E. pose proof (NameFacts.new_has_uid t c) as H.
      rewrite E in H. discriminate.
    + now rewrite hasWhitespace_new, Hws.
Qed.

Lemma X5_witness :
  validToken (newElementClass 1700000000000 "cls-1")
  /\ TokenList.validate (newElementClass 1700000000000 "a, .b")
     = Some Js.InvalidCharacterError.
Proof.
  split.
  - apply (proj1 (proj2 (proj2 (X5_new_name_is_a_class_token
                                  1700000000000 "cls-1")))).
    split; [discriminate | reflexivity].
  - apply (proj2 (proj2 (proj2 (X5_new_name_is_a_class_token
                                  1700000000000 "a, .b")))).
    reflexivity.
Defined.

(** X6.  Names are never merged: two new names are equal only for the
    same clock reading and the same old name. *)
Theorem X6_newElementClass_injective :
  forall t t' c c',
    newElementClass t c = newElementClass t' c' -> t = t' /\ c = c'.
Proof.
  intros t t' c c' H.
  assert (Ht : t = t') by (eapply NameFacts.newElementClass_inj; eauto).
  subst t'. split; auto.
  rewrite !NameFacts.newElementClass_eq in H.
  now apply str_app_inv_head in H.
Qed.

Lemma X6_witness :
  7%N = 7%N /\ "a" = "a".
Proof.
  apply (X6_newElementClass_injective 7 7 "a" "a"). reflexivity.
Defined.

(* ================================================================== *)
(** * Runs that do not complete *)

(** X7.  When the response holds no svg element, the run ends in a
    TypeError (line 126 reads [id] of [undefined]); the only calls are
    the fetch and [optimizeInlineSVG], and the document is untouched. *)
Theorem X7_no_svg_element_rejects_and_leaves_document :
  forall Number (B : Browser Number) t p w source text,
    elementAt (document w) p = Some source ->
    fetch B (Js.toString (imgURL B source)) = Some text ->
    getElementsByTagName (parseFromString B text) "svg" = [] ->
    convertSVGtoInline B t p w
    = (Throw Js.TypeError,
       mkWorld (document w)
               (calls w ++ [CallFetch (Js.toString (imgURL B source));
                            CallOptimizeInlineSVG])).
Proof.
  intros Number B t p w source text Hsrc Hfetch Hsvg.
  unfold convertSVGtoInline. rewrite Hsrc, Hfetch. unfold onText.
  rewrite Hsvg. run_steps. now rewrite <- app_assoc.
Qed.

Lemma X7_witness :
  convertSVGtoInline More.noGraphic 7 Sample.imgRef Sample.world
  = (Throw Js.TypeError,
     mkWorld Sample.page [CallFetch "logo.svg"; CallOptimizeInlineSVG]).
Proof.
  apply (X7_no_svg_element_rejects_and_leaves_document
           N More.noGraphic 7%N Sample.imgRef Sample.world
           (element Sample.img) "<svg/>");
    vm_compute; reflexivity.
Defined.

(** X8.  When the placeholder has no parent node, the run ends in a
    TypeError at the replacement (line 178): the graphic has been
    fetched, parsed and optimised, [replaceChild] is not called and the
    tree the placeholder is in is untouched. *)
Theorem X8_placeholder_without_parent_rejects :
  forall Number (B : Browser Number) t w source text svgInline rest,
    elementAt (document w) [] = Some source ->
    fetch B (Js.toString (imgURL B source)) = Some text ->
    getElementsByTagName (parseFromString B text) "svg" = svgInline :: rest ->
    convertSVGtoInline B t [] w
    = (Throw Js.TypeError,
       mkWorld (document w)
               (calls w ++ [CallFetch (Js.toString (imgURL B source));
                            CallOptimizeInlineSVG])).
Proof.
  intros Number B t w source text svgInline rest Hsrc Hfetch Hsvg.
  unfold convertSVGtoInline. rewrite Hsrc, Hfetch. unfold onText.
  rewrite Hsvg. run_steps. now rewrite <- app_assoc.
Qed.

Lemma X8_witness :
  convertSVGtoInline Sample.host 7 [] More.detached
  = (Throw Js.TypeError,
     mkWorld Sample.img [CallFetch "logo.svg"; CallOptimizeInlineSVG]).
Proof.
  apply (X8_placeholder_without_parent_rejects
           N Sample.host 7%N More.detached (element Sample.img) "<svg/>"
           (hd Sample.logo (childNodes Sample.logo)) []);
    vm_compute; reflexivity.
Defined.

(** X9.  When [getBBox] throws on the inserted root, the run ends in a
    TypeError after the replacement: the placeholder is gone, the
    optimised root is in its place, and neither the style namespacing
    nor the repaint has run, so the root has no viewBox from the bounds
    trimming and the display style the markup gave it. *)
Theorem X9_getBBox_failure_leaves_root_inserted :
  forall Number (B : Browser Number) t p w source text svgInline rest i,
    elementAt (document w) (p ++ [i]) = Some source ->
    fetch B (Js.toString (imgURL B source)) = Some text ->
    getElementsByTagName (parseFromString B text) "svg" = svgInline :: rest ->
    getBBox B (Stage.reoptimized svgInline (p ++ [i]) (document w)) (p ++ [i])
    = None ->
    convertSVGtoInline B t (p ++ [i]) w
    = (Throw Js.TypeError,
       mkWorld (Stage.reoptimized svgInline (p ++ [i]) (document w))
               (calls w ++ firstn 5 (Stage.allCalls
                                       (Js.toString (imgURL B source)))))
    /\ elementAt (Stage.reoptimized svgInline (p ++ [i]) (document w)) (p ++ [i])
       = Some (optimizeInlineSVG (optimizeInlineSVG (element svgInline))).
Proof.
  intros Number B t p w source text svgInline rest i Hsrc Hfetch Hsvg Hbox.
  split.
  - unfold convertSVGtoInline. rewrite Hsrc, Hfetch. unfold onText.
    rewrite Hsvg, parentNode_app. run_steps.
    fold (Stage.optimizedRoot svgInline).
    fold (Stage.spliced svgInline (p ++ [i]) (document w)).
    fold (Stage.reoptimized svgInline (p ++ [i]) (document w)).
    rewrite Hbox. f_equal. f_equal. simpl.
    repeat rewrite <- app_assoc. reflexivity.
  - unfold Stage.reoptimized, Stage.spliced.
    rewrite elementAt_modifyAt_same.
    now rewrite (elementAt_replaceAt _ _ _ _ Hsrc).
Qed.

Lemma X9_witness :
  fst (convertSVGtoInline More.noBox 7 Sample.imgRef Sample.world)
  = Throw Js.TypeError
  /\ option_map qualifiedName
       (elementAt
          (document (snd (convertSVGtoInline More.noBox 7 Sample.imgRef
                            Sample.world)))
          Sample.imgRef) = Some "svg".
Proof.
  destruct (X9_getBBox_failure_leaves_root_inserted
              N More.noBox 7%N [0; 0]%nat Sample.world (element Sample.img)
              "<svg/>" (hd Sample.logo (childNodes Sample.logo)) [] 0%nat)
    as [Hrun Hroot]; try (vm_compute; reflexivity).
  change ([0; 0]%nat ++ [0%nat])%list with Sample.imgRef in *.
  rewrite Hrun. split; [reflexivity|].
  cbn [snd document]. rewrite Hroot. vm_compute. reflexivity.
Defined.

(* ================================================================== *)
(** * What a run leaves alone *)

(** X10.  However a run ends, every element of the document that is
    neither the placeholder nor below it is what it was: nothing outside
    the place of the placeholder is written. *)
Theorem X10_conversion_writes_nothing_outside_the_placeholder :
  forall Number (B : Browser Number) t p w c w' q,
    convertSVGtoInline B t p w = (c, w') ->
    isPrefix p q = false ->
    elementAt (document w') q = elementAt (document w) q.
Proof.
  intros Number B t p w c w' q Hrun Hq.
  pose proof (pathEqb_isPrefix _ _ Hq) as Hne.
  revert Hrun. unfold convertSVGtoInline.
  destruct (elementAt (document w) p) as [source|];
    [|intros H; now inversion H].
  destruct (fetch B _) as [text|];
    [|run_steps; intros H; now inversion H].
  unfold onText.
  destruct (getElementsByTagName _ _) as [|svgInline rest];
    [run_steps; intros H; now inversion H|].
  destruct (parentNode p); [|run_steps; intros H; now inversion H].
  run_steps.
  assert (Hre : forall d, elementAt (modifyAt optimizeInlineSVG p
                                       (replaceAt d p (document w))) q
                          = elementAt (document w) q).
  { intros d. rewrite elementAt_modifyAt, Hne. unfold replaceAt.
    now apply elementAt_updateAt_off. }
  destruct (getBBox B _ p) as [bbox|].
  2:{ intros H. inversion H; subst. cbn [document]. apply Hre. }
  destruct (prependSheets B t p _ _) as [c3 d3] eqn:Hns.
  apply Touches_prependSheets in Hns.
  pose proof (Touches_outside _ _ _ _ Hns Hq) as Hout.
  cbn [document] in Hout. rewrite elementAt_modifyAt, Hne, Hre in Hout.
  destruct c3; intros H; inversion H; subst; cbn [document]; auto.
  now rewrite !elementAt_modifyAt, Hne.
Qed.

Lemma X10_witness :
  elementAt (document (snd (Pair.afterFirst Pair.graphic 7))) Pair.second
  = Some (Sample.el "img" [("data-svg-src", "two.svg")]).
Proof.
  rewrite (X10_conversion_writes_nothing_outside_the_placeholder
             N (Pair.host Pair.graphic) 7%N Pair.first (mkWorld Pair.page [])
             (fst (Pair.afterFirst Pair.graphic 7))
             (snd (Pair.afterFirst Pair.graphic 7)) Pair.second
             (surjective_pairing _));
    vm_compute; reflexivity.
Defined.

(** X11.  After a completed conversion the id and the class list of the
    inserted root come from the fetched markup alone: the id attribute is
    the one the svg element had, or empty, and the class list is the one
    it had followed by replaced-svg and img-fluid where missing.  The
    second attribute pass adds nothing to the class list. *)
Theorem X11_root_id_and_classes_come_from_the_markup :
  forall Number (B : Browser Number) t p w w',
    convertSVGtoInline B t p w = (Normal, w') ->
    exists source text svgInline rest root,
      elementAt (document w) p = Some source
      /\ fetch B (Js.toString (imgURL B source)) = Some text
      /\ getElementsByTagName (parseFromString B text) "svg" = svgInline :: rest
      /\ elementAt (document w') p = Some root
      /\ Attr.get "id" (attributes root)
         = Some (match Attr.get "id" (attributes (element svgInline)) with
                 | Some v => v
                 | None => ""
                 end)
      /\ TokenList.tokens root
         = TokenList.append
             (TokenList.append (TokenList.tokens (element svgInline))
                               "replaced-svg")
             "img-fluid".
Proof.
  intros Number B t p w w' H. apply convert_root in H.
  destruct H as (source & text & svgInline & rest & bbox &
                 Hsrc & Hfetch & Hsvg & _ & Hroot).
  exists source, text, svgInline, rest. eexists.
  repeat split; eauto.
  - rewrite !attributes_setStyleDisplay_other by reflexivity.
    cbn [attributes setAttribute].
    rewrite AttrFacts.get_set_other by reflexivity.
    rewrite !optimizeInlineSVG_id. unfold id at 1.
    rewrite optimizeInlineSVG_id. cbn [Js.toString]. unfold id.
    now destruct (Attr.get "id" (attributes (element svgInline))).
  - rewrite tokens_repainted, !tokens_optimizeInlineSVG.
    set (ts := TokenList.append
                 (TokenList.append (TokenList.tokens (element svgInline))
                                   "replaced-svg") "img-fluid").
    assert (H1 : In "replaced-svg" ts).
    { apply TokenFacts.In_append. left. apply TokenFacts.In_append. now right. }
    assert (H2 : In "img-fluid" ts) by (apply TokenFacts.In_append; now right).
    rewrite (append_present ts "replaced-svg" H1).
    now rewrite (append_present ts "img-fluid" H2).
Qed.

Lemma X11_witness :
  exists root,
    elementAt (document (snd Sample.run)) Sample.imgRef = Some root
    /\ Attr.get "id" (attributes root) = Some ""
    /\ TokenList.tokens root = ["replaced-svg"; "img-fluid"].
Proof.
  assert (Hrun : convertSVGtoInline Sample.host 7 Sample.imgRef Sample.world
                 = (Normal, snd Sample.run)) by (vm_compute; reflexivity).
  destruct (X11_root_id_and_classes_come_from_the_markup
              N Sample.host 7%N Sample.imgRef Sample.world _ Hrun)
    as (source & text & svgInline & rest & root &
        Hsrc & Hfetch & Hsvg & Hroot & Hid & Hcls).
  exists root. split; [exact Hroot|].
  vm_compute in Hsrc. inversion Hsrc; subst source; clear Hsrc.
  vm_compute in Hfetch. inversion Hfetch; subst text; clear Hfetch.
  vm_compute in Hsvg. inversion Hsvg; subst svgInline rest; clear Hsvg.
  split; [rewrite Hid | rewrite Hcls]; vm_compute; reflexivity.
Defined.

(* ================================================================== *)
(** * The text of the style nodes through namespacing *)

Lemma textAt_modifyAt g q d q' :
  textAt (modifyAt g q d) q' =
  if pathEqb q q' then option_map (fun e => innerHTML (g e)) (elementAt d q')
  else textAt d q'.
Proof.
  unfold textAt. rewrite elementAt_modifyAt.
  destruct (pathEqb q q'); auto. now destruct (elementAt d q').
Qed.

Lemma textAt_modifyAt_kept g q d q' :
  (forall e, innerHTML (g e) = innerHTML e) ->
  textAt (modifyAt g q d) q' = textAt d q'.
Proof.
  intros H. rewrite textAt_modifyAt. destruct (pathEqb q q'); auto.
  unfold textAt. destruct (elementAt d q'); simpl; auto. now rewrite H.
Qed.

(** The loop over the collection writes no text. *)
Lemma textAt_alterClasses p old new m : forall d c d' q,
  alterClasses p old new m d = (c, d') -> textAt d' q = textAt d q.
Proof.
  assert (Hstep : forall d q0 el el' q,
             elementAt d q0 = Some el ->
             TokenList.replace old new el = inr el' ->
             textAt (modifyAt (fun _ => el') q0 d) q = textAt d q).
  { intros d q0 el el' q Hel Hr. rewrite textAt_modifyAt.
    destruct (pathEqb q0 q) eqn:E; auto.
    apply pathEqb_eq in E. subst q. unfold textAt. rewrite Hel. simpl.
    apply ReplaceFacts.replace_inr in Hr. f_equal. apply Hr. }
  induction m as [|m IH]; intros d c d' q; cbn [alterClasses];
    destruct (nth_error (getElementsByClassName d p old) _) as [q0|];
    try destruct (elementAt d q0) as [el|] eqn:Hel;
    try destruct (TokenList.replace old new el) as [e|el'] eqn:Hr;
    intros H; try (inversion H; subst; reflexivity).
  - inversion H; subst. eapply Hstep; eauto.
  - rewrite (IH _ _ _ _ H). eapply Hstep; eauto.
  - eapply IH; eauto.
  - eapply IH; eauto.
Qed.

(** The emission of a rule appends its lines to the style node and
    writes nowhere else. *)
Lemma textAt_emitRule s newClass decls : forall d q,
  textAt (emitRule s newClass decls d) q =
  if pathEqb s q
  then option_map (fun x => (x ++ declsText newClass decls)%string) (textAt d q)
  else textAt d q.
Proof.
  unfold emitRule. induction decls as [|decl decls IH]; intros d q; simpl.
  - destruct (pathEqb s q); auto. unfold textAt.
    destruct (elementAt d q); simpl; auto.
    now rewrite TokenFacts.str_app_nil_r.
  - rewrite IH. rewrite textAt_modifyAt.
    destruct (pathEqb s q); auto.
    unfold textAt. destruct (elementAt d q); simpl; auto.
    now rewrite TokenFacts.str_app_assoc.
Qed.

Lemma textAt_prependRule t p s sel decls d c d' q :
  prependRule t p s (CSSStyleRule sel decls) d = (c, d') ->
  textAt d' q =
  if pathEqb s q
  then option_map
         (fun x => (x ++ declsText (newElementClass t (Js.substring1 sel))
                                   decls)%string) (textAt d q)
  else textAt d q.
Proof.
  unfold prependRule. destruct (length _); intros H.
  - inversion H; subst. apply textAt_emitRule.
  - rewrite (textAt_alterClasses _ _ _ _ _ _ _ q H). apply textAt_emitRule.
Qed.

(** No rule writes outside the style node it belongs to. *)
Lemma textAt_prependRules_other t p s rules : forall d c d' q,
  pathEqb s q = false ->
  prependRules t p s rules d = (c, d') -> textAt d' q = textAt d q.
Proof.
  induction rules as [|r rules IH]; intros d c d' q Hq; simpl.
  - intros H. now inversion H.
  - destruct (prependRule t p s r d) as [[|e] d1] eqn:E; intros H.
    + rewrite (IH _ _ _ _ Hq H). destruct r as [sel decls|]; [|discriminate].
      rewrite (textAt_prependRule _ _ _ _ _ _ _ _ q E). now rewrite Hq.
    + inversion H; subst. destruct r as [sel decls|].
      * rewrite (textAt_prependRule _ _ _ _ _ _ _ _ q E). now rewrite Hq.
      * simpl in E. now inversion E.
Qed.

(** When the rules of a sheet have all been gone through, the style
    node has got the lines of all of them. *)
Lemma textAt_prependRules_normal t p s rules : forall d d',
  prependRules t p s rules d = (Normal, d') ->
  textAt d' s
  = option_map (fun x => (x ++ rulesText t rules)%string) (textAt d s)
  /\ ~ In CSSOtherRule rules.
Proof.
  induction rules as [|r rules IH]; intros d d'; simpl.
  - intros H. inversion H; subst. split; auto.
    unfold textAt. destruct (elementAt d' s); simpl; auto.
    now rewrite TokenFacts.str_app_nil_r.
  - destruct (prependRule t p s r d) as [[|e] d1] eqn:E; intros H;
      [|discriminate].
    destruct r as [sel decls|]; [|discriminate].
    destruct (IH _ _ H) as [Ht Hn]. split.
    + rewrite Ht, (textAt_prependRule _ _ _ _ _ _ _ _ s E), pathEqb_refl.
      destruct (textAt d s); simpl; auto.
      now rewrite TokenFacts.str_app_assoc.
    + intros [Hr | Hr]; [discriminate | auto].
Qed.

Section SheetTexts.

Context {Number : Type}.
Variable B : Browser Number.
Variables (t : N) (p : Path).

Lemma textAt_prependSheet_other s d c d' q :
  pathEqb s q = false ->
  prependSheet B t p s d = (c, d') -> textAt d' q = textAt d q.
Proof.
  intros Hq. unfold prependSheet.
  destruct (parentNode s); [destruct (pathEqb p p0);
    [destruct (elementAt d s)|]|];
    intros H; try (now inversion H).
  rewrite (textAt_prependRules_other _ _ _ _ _ _ _ _ Hq H).
  now rewrite textAt_modifyAt, Hq.
Qed.

(** A sheet of a child of the root that has been gone through: the
    style node holds the lines of its rules and nothing else, and none
    of the rules was an at-rule. *)
Lemma prependSheet_normal s d d' el :
  parentNode s = Some p -> elementAt d s = Some el ->
  prependSheet B t p s d = (Normal, d') ->
  textAt d' s = Some (rulesText t (cssRules B (innerHTML el)))
  /\ ~ In CSSOtherRule (cssRules B (innerHTML el)).
Proof.
  intros Hp Hel. unfold prependSheet. rewrite Hp, pathEqb_refl, Hel.
  intros H. apply textAt_prependRules_normal in H. destruct H as [Ht Hn].
  split; auto. rewrite Ht, textAt_modifyAt, pathEqb_refl, Hel. reflexivity.
Qed.

Lemma textAt_prependSheets_other ss : forall d c d' q,
  ~ In q ss ->
  prependSheets B t p ss d = (c, d') -> textAt d' q = textAt d q.
Proof.
  induction ss as [|s ss IH]; intros d c d' q Hq; simpl.
  - intros H. now inversion H.
  - assert (Hs : pathEqb s q = false).
    { apply pathEqb_neq. intros ->. apply Hq. now left. }
    assert (Hq' : ~ In q ss) by (intros H; apply Hq; now right).
    destruct (prependSheet B t p s d) as [[|e] d1] eqn:E; intros H.
    + rewrite (IH _ _ _ _ Hq' H). eapply textAt_prependSheet_other; eauto.
    + inversion H; subst. eapply textAt_prependSheet_other; eauto.
Qed.

(** All sheets, when namespacing ends normally: every sheet of a child
    of the root has been rewritten from the rules it had at the start,
    and none of those rules was an at-rule. *)
Lemma prependSheets_normal ss : forall d d' s el,
  NoDup ss ->
  prependSheets B t p ss d = (Normal, d') ->
  In s ss -> parentNode s = Some p -> elementAt d s = Some el ->
  textAt d' s = Some (rulesText t (cssRules B (innerHTML el)))
  /\ ~ In CSSOtherRule (cssRules B (innerHTML el)).
Proof.
  induction ss as [|s0 ss IH]; intros d d' s el Hnd H Hin Hp Hel;
    [contradiction|].
  inversion Hnd as [|? ? Hs0 Hss]; subst. simpl in H.
  destruct (prependSheet B t p s0 d) as [[|e] d1] eqn:E; [|discriminate].
  destruct Hin as [-> | Hin].
  - destruct (prependSheet_normal s d d1 el Hp Hel E) as [Ht Hn].
    split; auto.
    now rewrite (textAt_prependSheets_other ss d1 Normal d' s Hs0 H).
  - assert (Hne : pathEqb s0 s = false).
    { apply pathEqb_neq. intros ->. contradiction. }
    pose proof (textAt_prependSheet_other s0 d Normal d1 s Hne E) as Ht.
    unfold textAt in Ht. rewrite Hel in Ht.
    destruct (elementAt d1 s) as [el1|] eqn:Hel1; try discriminate.
    simpl in Ht. injection Ht as Ht'.
    rewrite <- Ht'. eapply IH; eauto.
Qed.

End SheetTexts.

(** The sheets of a document are owned by its style elements that own
    one. *)
Lemma styleSheets_In d s el :
  elementAt d s = Some el ->
  (In s (styleSheets d) <-> ownsSheet el = true).
Proof.
  intros Hel. unfold styleSheets. rewrite filter_In, Hel. split.
  - now intros [_ H].
  - intros H. split; auto.
    apply elementAt_some_nodeAt in Hel. destruct Hel as [m [Hm _]].
    eapply nodeAt_In_paths; eauto.
Qed.

(** What a normal end of [svgPrependClassIdentifiers] means for a sheet
    of a child of the root. *)
Lemma namespacing_normal_sheet {Number} (B : Browser Number) t p w w' s el :
  svgPrependClassIdentifiers B t p w = (Normal, w') ->
  In s (styleSheets (document w)) -> parentNode s = Some p ->
  elementAt (document w) s = Some el ->
  (exists el', elementAt (document w') s = Some el'
               /\ innerHTML el'
                  = rulesText t (cssRules B (innerHTML el)))
  /\ ~ In CSSOtherRule (cssRules B (innerHTML el)).
Proof.
  unfold svgPrependClassIdentifiers. run_steps.
  destruct (prependSheets B t p _ _) as [c d'] eqn:E.
  intros H Hin Hp Hel. inversion H; subst. cbn [document].
  destruct (prependSheets_normal B t p _ _ _ s el
              (NoDup_styleSheets _) E Hin Hp Hel) as [Ht Hn].
  split; auto. unfold textAt in Ht.
  destruct (elementAt d' s) as [el'|]; try discriminate.
  exists el'. split; auto. simpl in Ht. now inversion Ht.
Qed.

(** Style namespacing, however it ends, leaves the text of a node that
    owns no sheet. *)
Lemma namespacing_no_sheet {Number} (B : Browser Number) t p w c w' s el :
  svgPrependClassIdentifiers B t p w = (c, w') ->
  elementAt (document w) s = Some el -> ownsSheet el = false ->
  exists el', elementAt (document w') s = Some el'
              /\ innerHTML el' = innerHTML el.
Proof.
  unfold svgPrependClassIdentifiers. run_steps.
  destruct (prependSheets B t p _ _) as [c' d'] eqn:E.
  intros H Hel Hno. inversion H; subst. cbn [document].
  assert (Hout : ~ In s (styleSheets (document w))).
  { intros Hin. apply (styleSheets_In _ _ _ Hel) in Hin. congruence. }
  pose proof (textAt_prependSheets_other B t p _ _ _ _ s Hout E) as Ht.
  unfold textAt in Ht. rewrite Hel in Ht.
  destruct (elementAt d' s) as [el'|]; try discriminate.
  exists el'. split; auto. simpl in Ht. now inversion Ht.
Qed.

(** X12.  When style namespacing ends normally, every style element
    that is a child of the root and owns a style sheet holds exactly the
    lines written for the rules its sheet had: for each rule in order
    and each of its declarations in order,
    [.uid-<t>-<old>{<property>: <value>;}] and a line feed, where <old>
    is the selector without its first character; none of those rules
    was an at-rule.  A child of the root that owns no style sheet (a
    style element with a type that is not text/css among them) keeps
    its text. *)
Theorem X12_child_sheets_rewritten_line_by_line :
  forall Number (B : Browser Number) t p w w' s el,
    svgPrependClassIdentifiers B t p w = (Normal, w') ->
    parentNode s = Some p ->
    elementAt (document w) s = Some el ->
    exists el',
      elementAt (document w') s = Some el'
      /\ innerHTML el'
         = (if ownsSheet el
            then rulesText t (cssRules B (innerHTML el))
            else innerHTML el)
      /\ (ownsSheet el = true ->
          ~ In CSSOtherRule (cssRules B (innerHTML el))).
Proof.
  intros Number B t p w w' s el Hrun Hp Hel.
  destruct (ownsSheet el) eqn:Hs.
  - apply (styleSheets_In _ _ _ Hel) in Hs.
    destruct (namespacing_normal_sheet B t p w w' s el Hrun Hs Hp Hel)
      as [(el' & Hel' & Ht) Hn].
    exists el'. repeat split; auto.
  - destruct (namespacing_no_sheet B t p w Normal w' s el Hrun Hel Hs)
      as (el' & Hel' & Ht).
    exists el'. repeat split; auto. discriminate.
Qed.

Lemma X12_witness :
  (exists el',
      elementAt (document (snd More.typedRun)) [0; 0]%nat = Some el'
      /\ innerHTML el' = ".a{fill:red}")
  /\ (exists el',
         elementAt (document (snd More.typedRun)) [0; 1]%nat = Some el'
         /\ innerHTML el' = (".uid-7-a{fill: red;}" ++ LF)%string).
Proof.
  assert (Hrun : svgPrependClassIdentifiers Sample.host 7 [0%nat]
                   (mkWorld More.typed [])
                 = (Normal, snd More.typedRun))
    by (vm_compute; reflexivity).
  split.
  - destruct (X12_child_sheets_rewritten_line_by_line
                N Sample.host 7%N [0%nat] (mkWorld More.typed [])
                _ [0; 0]%nat
                (mkElement "style" [("type", "text/x-none")] [] ".a{fill:red}")
                Hrun)
      as (el' & Hel' & Ht & _);
      try (vm_compute; reflexivity).
    exists el'. split; [exact Hel'|]. rewrite Ht. vm_compute. reflexivity.
  - destruct (X12_child_sheets_rewritten_line_by_line
                N Sample.host 7%N [0%nat] (mkWorld More.typed [])
                _ [0; 1]%nat
                (mkElement "style" [("type", "text/css")] [] ".a{fill:red}")
                Hrun)
      as (el' & Hel' & Ht & _);
      try (vm_compute; reflexivity).
    exists el'. split; [exact Hel'|]. rewrite Ht. vm_compute. reflexivity.
Defined.

(** X13.  A style sheet of a child of the root that has a rule other
    than a style rule (an at-rule) makes style namespacing throw: it
    never ends normally. *)
Theorem X13_at_rule_makes_namespacing_throw :
  forall Number (B : Browser Number) t p w c w' s el,
    svgPrependClassIdentifiers B t p w = (c, w') ->
    In s (styleSheets (document w)) -> parentNode s = Some p ->
    elementAt (document w) s = Some el ->
    In CSSOtherRule (cssRules B (innerHTML el)) ->
    exists e, c = Throw e.
Proof.
  intros Number B t p w c w' s el Hrun Hin Hp Hel Hat.
  destruct c as [|e]; [|now exists e]. exfalso.
  now destruct (namespacing_normal_sheet B t p w w' s el Hrun Hin Hp Hel) as [_ Hn].
Qed.

Lemma X13_witness : exists e, fst More.responsiveRun = Throw e.
Proof.
  apply (X13_at_rule_makes_namespacing_throw
           N More.mediaHost 7%N [0%nat] (mkWorld More.responsive [])
           (fst More.responsiveRun) (snd More.responsiveRun) [0%nat; 0%nat]
           (mkElement "style" [] [] "@media print{.a{fill:black}}")
           (surjective_pairing _));
    vm_compute; auto.
Defined.

(* ================================================================== *)
(** * One rule and the class lists *)

Lemma elementAt_emitRule s newClass decls : forall d q e,
  elementAt d q = Some e ->
  exists e1, elementAt (emitRule s newClass decls d) q = Some e1
             /\ attributes e1 = attributes e
             /\ qualifiedName e1 = qualifiedName e
             /\ inlineStyle e1 = inlineStyle e.
Proof.
  unfold emitRule. induction decls as [|decl decls IH]; intros d q e He; simpl.
  - eauto.
  - assert (H0 : exists e0,
               elementAt
                 (modifyAt (fun el => setInnerHTML
                                        (innerHTML el ++ ruleText newClass decl) el)
                           s d) q = Some e0
               /\ attributes e0 = attributes e
               /\ qualifiedName e0 = qualifiedName e
               /\ inlineStyle e0 = inlineStyle e).
    { rewrite elementAt_modifyAt, He. destruct (pathEqb s q); simpl; eauto. }
    destruct H0 as (e0 & H0 & A0 & Q0 & I0).
    destruct (IH _ _ _ H0) as (e1 & H1 & A1 & Q1 & I1).
    exists e1. repeat split; congruence.
Qed.

(** A class that is no token is carried by no element. *)
Lemma invalid_not_carried old e el :
  TokenList.validate old = Some e ->
  TokenList.mem old (TokenList.tokens el) = false.
Proof.
  intros Hv. apply TokenFacts.mem_false. intros Hin.
  destruct (TokenFacts.tokenSet_tokens el) as [_ Hall].
  rewrite Forall_forall in Hall. apply Hall in Hin.
  apply TokenFacts.validate_valid in Hin. congruence.
Qed.

(** The turn of a rule whose class is no token: the loop stops at its
    first element. *)
Lemma prependRule_invalid t p s sel decls d c d' e :
  TokenList.validate (Js.substring1 sel) = Some e ->
  prependRule t p s (CSSStyleRule sel decls) d = (c, d') ->
  d' = emitRule s (newElementClass t (Js.substring1 sel)) decls d
  /\ (getElementsByClassName d' p (Js.substring1 sel) = [] /\ c = Normal
      \/ getElementsByClassName d' p (Js.substring1 sel) <> [] /\ c = Throw e).
Proof.
  intros Hv. unfold prependRule.
  set (old := Js.substring1 sel) in *.
  set (d1 := emitRule s (newElementClass t old) decls d).
  destruct (getElementsByClassName d1 p old) as [|q0 l] eqn:Hc.
  - simpl. intros H. inversion H; subst. split; auto.
  - cbn [length].
    assert (Hlast : exists q, nth_error (q0 :: l) (length l) = Some q).
    { destruct (nth_error (q0 :: l) (length l)) eqn:E; eauto.
      apply nth_error_None in E. simpl in E. lia. }
    destruct Hlast as [q Hq].
    assert (Hin : In q (getElementsByClassName d1 p old))
      by (rewrite Hc; eapply nth_error_In; eauto).
    apply getElementsByClassName_In in Hin.
    destruct Hin as (rel & el & _ & _ & Hel & _).
    assert (Hr : TokenList.replace old (newElementClass t old) el = inl e)
      by (unfold TokenList.replace; now rewrite Hv).
    destruct (length l) as [|m] eqn:Hl; cbn [alterClasses];
      rewrite Hc, Hq, Hel, Hr; intros H; inversion H; subst;
      (split; [reflexivity|]); right; rewrite Hc; split; auto; discriminate.
Qed.

Lemma RenamedOnce_step p old new d0 d q el el' :
  new <> old ->
  RenamedOnce p old new d0 d ->
  In q (getElementsByClassName d p old) ->
  elementAt d q = Some el ->
  TokenList.replace old new el = inr el' ->
  RenamedOnce p old new d0 (modifyAt (fun _ => el') q d).
Proof.
  intros Hne Inv Hin Hel Hr q' e e' He He'.
  rewrite elementAt_modifyAt in He'.
  destruct (pathEqb q q') eqn:E.
  - apply pathEqb_eq in E. subst q'. rewrite Hel in He'. simpl in He'.
    inversion He'; subst e'; clear He'.
    pose proof (ReplaceFacts.replace_inr _ _ _ _ Hr) as (Hvo & _ & _ & Hcase).
    pose proof (getElementsByClassName_carries _ _ _ _ _ Hvo Hin Hel) as Hm.
    destruct (Inv q e el He Hel) as [-> | (Hb & Hme & Ht)].
    + right. split; [eapply getElementsByClassName_below; eauto|].
      destruct Hcase as [[Hf _] | [_ Ht]]; [congruence|]. auto.
    + exfalso. apply TokenFacts.mem_In in Hm. rewrite Ht in Hm.
      apply (ReplaceFacts.replaceIn_old old new (TokenList.tokens e)); auto.
  - now apply Inv.
Qed.

Lemma RenamedOnce_alterClasses p old new d0 m : forall d c d',
  new <> old ->
  RenamedOnce p old new d0 d ->
  alterClasses p old new m d = (c, d') ->
  RenamedOnce p old new d0 d'.
Proof.
  induction m as [|m IH]; intros d c d' Hne Inv; cbn [alterClasses];
    destruct (nth_error (getElementsByClassName d p old) _) as [q|] eqn:Hq;
    try destruct (elementAt d q) as [el|] eqn:Hel;
    try destruct (TokenList.replace old new el) as [e|el'] eqn:Hr;
    intros H; try (inversion H; subst; exact Inv).
  - inversion H; subst. eapply RenamedOnce_step; eauto using nth_error_In.
  - eapply IH; [exact Hne| |exact H].
    eapply RenamedOnce_step; eauto using nth_error_In.
  - eapply IH; eauto.
  - eapply IH; eauto.
Qed.

(** A rule gone through normally leaves no carrier of its class below
    the root. *)
Lemma prependRule_exhausts t p s sel decls d d' :
  prependRule t p s (CSSStyleRule sel decls) d = (Normal, d') ->
  noCarrier p (Js.substring1 sel) d'.
Proof.
  destruct (TokenList.validate (Js.substring1 sel)) as [e|] eqn:Hv.
  - intros H. destruct (prependRule_invalid _ _ _ _ _ _ _ _ _ Hv H)
      as [_ [[Hc _] | [_ Hc]]]; [|discriminate].
    now apply empty_collection_noCarrier.
  - unfold prependRule.
    destruct (length (getElementsByClassName _ p _)) as [|m] eqn:Hl; intros H.
    + inversion H; subst. apply empty_collection_noCarrier.
      now apply length_zero_iff_nil.
    + apply empty_collection_noCarrier.
      eapply alterClasses_exhausts; [exact H|]. lia.
Qed.

Lemma prependRule_RenamedOnce t p s sel decls d c d' :
  prependRule t p s (CSSStyleRule sel decls) d = (c, d') ->
  RenamedOnce p (Js.substring1 sel)
              (newElementClass t (Js.substring1 sel))
              (emitRule s (newElementClass t (Js.substring1 sel)) decls d) d'.
Proof.
  unfold prependRule.
  assert (R0 : forall d1, RenamedOnce p (Js.substring1 sel)
                            (newElementClass t (Js.substring1 sel)) d1 d1).
  { intros d1 q e e' He He'. left. congruence. }
  destruct (length (getElementsByClassName _ p _)) as [|m]; intros H.
  - inversion H; subst. apply R0.
  - eapply RenamedOnce_alterClasses; [apply NameFacts.new_neq_old|apply R0|].
    exact H.
Qed.

(** X14.  A rule whose selector without its first character is not a
    class token (it is empty or holds white space, as for a compound or
    grouped selector) renames no element: its lines are written to the
    style node and nothing else changes.  The turn ends normally when no
    descendant of the root carries all the classes that text names;
    otherwise [classList.replace] throws at the first element. *)
Theorem X14_selector_that_is_no_class_renames_nothing :
  forall t p s sel decls d c d' e,
    TokenList.validate (Js.substring1 sel) = Some e ->
    prependRule t p s (CSSStyleRule sel decls) d = (c, d') ->
    d' = emitRule s (newElementClass t (Js.substring1 sel)) decls d
    /\ (getElementsByClassName d' p (Js.substring1 sel) = [] /\ c = Normal
        \/ getElementsByClassName d' p (Js.substring1 sel) <> []
           /\ c = Throw e).
Proof.
  intros t p s sel decls d c d' e. apply prependRule_invalid.
Qed.

Lemma X14_witness :
  snd More.compound
  = emitRule (Sample.inlinedRoot ++ [0%nat]) "uid-7-a rect" [("fill", "red")]
             Sample.inlined
  /\ fst More.compound = Normal.
Proof.
  destruct (X14_selector_that_is_no_class_renames_nothing
              7%N Sample.inlinedRoot (Sample.inlinedRoot ++ [0%nat])%list
              ".a rect" [("fill", "red")] Sample.inlined
              (fst More.compound) (snd More.compound)
              Js.InvalidCharacterError)
    as [Hd Hc].
  - vm_compute. reflexivity.
  - apply surjective_pairing.
  - split; [exact Hd|].
    destruct Hc as [[_ Hc] | [Hne _]]; [exact Hc|].
    exfalso. apply Hne. vm_compute. reflexivity.
Defined.

(** X15.  When the turn of a style rule ends normally, every element
    that is a descendant of the root and carried the rule's class has had
    that class replaced, in place, by the new name, and no other class
    list has changed: the loop over the live collection renames every
    carrier exactly once. *)
Theorem X15_rule_renames_every_carrier_once :
  forall t p s sel decls d d',
    prependRule t p s (CSSStyleRule sel decls) d = (Normal, d') ->
    forall q e,
      elementAt d q = Some e ->
      exists e',
        elementAt d' q = Some e'
        /\ TokenList.tokens e'
           = if strictlyBelow p q
                && TokenList.mem (Js.substring1 sel) (TokenList.tokens e)
             then TokenList.replaceIn (Js.substring1 sel)
                    (newElementClass t (Js.substring1 sel))
                    (TokenList.tokens e)
             else TokenList.tokens e.
Proof.
  intros t p s sel decls d d' H q e He.
  pose proof (prependRule_exhausts _ _ _ _ _ _ _ H) as Hno.
  pose proof (prependRule_RenamedOnce _ _ _ _ _ _ _ _ H) as Inv.
  destruct (elementAt_emitRule s (newElementClass t (Js.substring1 sel))
              decls d q e He) as (e1 & He1 & Ha & _ & _).
  assert (Ht : TokenList.tokens e1 = TokenList.tokens e)
    by (apply tokens_same_class; now rewrite Ha).
  assert (Hex : exists e', elementAt d' q = Some e').
  { unfold prependRule in H.
    destruct (length (getElementsByClassName _ p _)) as [|m].
    - inversion H; subst. eauto.
    - apply Touches_alterClasses in H. destruct H as [_ H].
      specialize (H q). rewrite He1 in H.
      destruct (elementAt d' q) as [e'|]; [eauto|contradiction]. }
  destruct Hex as [e' He']. exists e'. split; [exact He'|].
  rewrite <- Ht.
  destruct (Inv q e1 e' He1 He') as [-> | (Hb & Hm & Hr)].
  - destruct (strictlyBelow p q) eqn:Hb; simpl; auto.
    now rewrite (Hno q e1 Hb He').
  - now rewrite Hb, Hm.
Qed.

Lemma X15_witness :
  exists e',
    elementAt (snd More.simple) (Sample.inlinedRoot ++ [1%nat]) = Some e'
    /\ TokenList.tokens e' = ["uid-7-a"].
Proof.
  assert (Hrun : prependRule 7 Sample.inlinedRoot
                   (Sample.inlinedRoot ++ [0%nat])
                   (CSSStyleRule ".a" [("fill", "red")]) Sample.inlined
                 = (Normal, snd More.simple)) by (vm_compute; reflexivity).
  destruct (X15_rule_renames_every_carrier_once
              7%N Sample.inlinedRoot (Sample.inlinedRoot ++ [0%nat])%list
              ".a" [("fill", "red")] Sample.inlined _ Hrun
              (Sample.inlinedRoot ++ [1%nat])%list
              (Sample.el "rect" [("class", "a")]))
    as (e' & He' & Ht).
  - vm_compute. reflexivity.
  - exists e'. split; [exact He'|]. rewrite Ht. vm_compute. reflexivity.
Defined.

(** X16.  Style namespacing, however it ends, adds and removes no node,
    keeps the name and the inline style of every element and every
    attribute other than class, and changes no attribute at all of an
    element that is not a descendant of the root (the root itself
    included). *)
Theorem X16_namespacing_changes_only_class_attributes_below_the_root :
  forall Number (B : Browser Number) t p w c w',
    svgPrependClassIdentifiers B t p w = (c, w') ->
    paths (document w') = paths (document w)
    /\ forall q e,
         elementAt (document w) q = Some e ->
         exists e',
           elementAt (document w') q = Some e'
           /\ qualifiedName e' = qualifiedName e
           /\ inlineStyle e' = inlineStyle e
           /\ (forall name, name <> "class" ->
                            Attr.get name (attributes e')
                            = Attr.get name (attributes e))
           /\ (strictlyBelow p q = false -> attributes e' = attributes e).
Proof.
  intros Number B t p w c w' H.
  apply svgPrependClassIdentifiers_Touches in H.
  destruct H as [[Hp Hq] _]. split; [exact Hp|].
  intros q e He. specialize (Hq q). rewrite He in Hq.
  destruct (elementAt (document w') q) as [e'|]; [|contradiction].
  destruct Hq as (Hn & Hi & Ha & Hb & _).
  exists e'. repeat split; auto.
  intros name Hname. rewrite Ha; auto.
  apply String.eqb_neq. congruence.
Qed.

Lemma X16_witness :
  exists e',
    elementAt (document (snd Sample.namespaced)) Sample.inlinedRoot = Some e'
    /\ attributes e' = [].
Proof.
  destruct (X16_namespacing_changes_only_class_attributes_below_the_root
              N Sample.host 7%N Sample.inlinedRoot (mkWorld Sample.inlined [])
              (fst Sample.namespaced) (snd Sample.namespaced)
              (surjective_pairing _)) as [_ H].
  destruct (H Sample.inlinedRoot (Sample.el "svg" []))
    as (e' & He' & _ & _ & _ & Ha).
  - vm_compute. reflexivity.
  - exists e'. split; [exact He'|]. rewrite Ha; vm_compute; reflexivity.
Defined.

Lemma inlineStyle_setAttribute name v el :
  inlineStyle (setAttribute name v el) = inlineStyle el.
Proof. reflexivity. Qed.

Lemma attributes_setAttribute name v el :
  attributes (setAttribute name v el) = Attr.set name v (attributes el).
Proof. reflexivity. Qed.

(** After the two assignments of the repaint the [style] attribute is
    the text of the inline style: the second assignment always changes
    the declaration the first one left. *)
Lemma style_attribute_repainted el :
  Attr.get "style"
    (attributes (setStyleDisplay "flex" (setStyleDisplay "none" el)))
  = Some (styleText
            (inlineStyle (setStyleDisplay "flex" (setStyleDisplay "none" el)))).
Proof.
  destruct (setStyleDisplay_cases "flex" (setStyleDisplay "none" el))
    as [[H _] | [_ ->]].
  - rewrite display_setStyleDisplay in H. discriminate.
  - cbn [attributes inlineStyle]. apply AttrFacts.get_set_same.
Qed.

(** X17.  After a completed conversion the inserted root has, apart from
    the inline display property and the attributes id, class, xmlns:a,
    viewBox and style, exactly what the svg element of the fetched
    markup had: every other inline style declaration and every other
    attribute.  Its style attribute is the text of its inline style, as
    the assignments to [style.display] have rewritten it. *)
Theorem X17_root_keeps_the_rest_of_the_markup :
  forall Number (B : Browser Number) t p w w',
    convertSVGtoInline B t p w = (Normal, w') ->
    exists source text svgInline rest root,
      elementAt (document w) p = Some source
      /\ fetch B (Js.toString (imgURL B source)) = Some text
      /\ getElementsByTagName (parseFromString B text) "svg" = svgInline :: rest
      /\ elementAt (document w') p = Some root
      /\ (forall name, name <> "display" ->
            Attr.get name (inlineStyle root)
            = Attr.get name (inlineStyle (element svgInline)))
      /\ (forall name,
            name <> "id" -> name <> "class" -> name <> "xmlns:a" ->
            name <> "viewBox" -> name <> "style" ->
            Attr.get name (attributes root)
            = Attr.get name (attributes (element svgInline)))
      /\ Attr.get "style" (attributes root)
         = Some (styleText (inlineStyle root)).
Proof.
  intros Number B t p w w' H. apply convert_root in H.
  destruct H as (source & text & svgInline & rest & bbox &
                 Hsrc & Hfetch & Hsvg & _ & Hroot).
  set (e := element svgInline) in *.
  set (o := optimizeInlineSVG (optimizeInlineSVG e)) in *.
  exists source, text, svgInline, rest,
    (setStyleDisplay "flex"
       (setStyleDisplay "none" (setAttribute "viewBox" (viewBoxOf B bbox) o))).
  split; [exact Hsrc|]. split; [exact Hfetch|]. split; [exact Hsvg|].
  split; [exact Hroot|].
  destruct (optimizeInlineSVG_rest (optimizeInlineSVG e)) as (_ & I1 & _ & A1).
  destruct (optimizeInlineSVG_rest e) as (_ & I2 & _ & A2).
  fold o in I1, A1. split; [|split].
  - intros name Hname.
    assert (Hd : ("display" =? name) = false)
      by (apply String.eqb_neq; congruence).
    rewrite inlineStyle_setStyleDisplay, AttrFacts.get_set_other by exact Hd.
    rewrite inlineStyle_setStyleDisplay, AttrFacts.get_set_other by exact Hd.
    rewrite inlineStyle_setAttribute, I1. now rewrite I2.
  - intros name H1 H2 H3 H4 H5.
    assert (E1 : ("id" =? name) = false) by (apply String.eqb_neq; congruence).
    assert (E2 : ("class" =? name) = false)
      by (apply String.eqb_neq; congruence).
    assert (E3 : ("xmlns:a" =? name) = false)
      by (apply String.eqb_neq; congruence).
    assert (E4 : ("viewBox" =? name) = false)
      by (apply String.eqb_neq; congruence).
    assert (E5 : ("style" =? name) = false)
      by (apply String.eqb_neq; congruence).
    rewrite !attributes_setStyleDisplay_other by exact E5.
    rewrite attributes_setAttribute.
    rewrite AttrFacts.get_set_other by exact E4.
    rewrite (A1 name E1 E2 E3 E4). exact (A2 name E1 E2 E3 E4).
  - apply style_attribute_repainted.
Qed.

Lemma X17_witness :
  exists root,
    elementAt (document (snd Sample.run)) Sample.imgRef = Some root
    /\ Attr.get "height" (attributes root) = Some "100"
    /\ Attr.get "style" (attributes root) = Some "display: flex;".
Proof.
  assert (Hrun : convertSVGtoInline Sample.host 7 Sample.imgRef Sample.world
                 = (Normal, snd Sample.run)) by (vm_compute; reflexivity).
  destruct (X17_root_keeps_the_rest_of_the_markup
              N Sample.host 7%N Sample.imgRef Sample.world _ Hrun)
    as (source & text & svgInline & rest & root &
        Hsrc & Hfetch & Hsvg & Hroot & Hstyle & Hattr & Htext).
  exists root. split; [exact Hroot|].
  vm_compute in Hsrc. inversion Hsrc; subst source; clear Hsrc.
  vm_compute in Hfetch. inversion Hfetch; subst text; clear Hfetch.
  vm_compute in Hsvg. inversion Hsvg; subst svgInline rest; clear Hsvg.
  split.
  - rewrite Hattr; try (apply String.eqb_neq; reflexivity).
    vm_compute. reflexivity.
  - rewrite Htext. f_equal.
    vm_compute in Hroot. inversion Hroot. reflexivity.
Defined.

(* ================================================================== *)
(** * A graphic with an at-rule *)

Lemma hasAtRule_child {Number} (B : Browser Number) svgInline :
  hasAtRule B svgInline = true ->
  exists j c,
    nth_error (childNodes svgInline) j = Some c
    /\ ownsSheet (element c) = true
    /\ In CSSOtherRule (cssRules B (innerHTML (element c))).
Proof.
  unfold hasAtRule. intros H. apply existsb_exists in H.
  destruct H as (rules & Hrules & Hex).
  apply existsb_exists in Hex. destruct Hex as (r & Hr & Hat).
  destruct r as [sel decls|]; try discriminate.
  unfold childSheets in Hrules. apply in_flat_map in Hrules.
  destruct Hrules as (c & Hc & Hin).
  destruct (ownsSheet (element c)) eqn:Hname;
    [|contradiction]. destruct Hin as [<- | []].
  apply In_nth_error in Hc. destruct Hc as [j Hc].
  exists j, c. repeat split; auto.
Qed.

(** The style nodes of the graphic are sheets of the document once the
    graphic is in it. *)
Lemma child_sheet_trimmed viewBox svgInline p doc source j c :
  elementAt doc p = Some source ->
  nth_error (childNodes svgInline) j = Some c ->
  ownsSheet (element c) = true ->
  elementAt (Stage.trimmed viewBox svgInline p doc) (p ++ [j])
  = Some (element c)
  /\ In (p ++ [j])%list (styleSheets (Stage.trimmed viewBox svgInline p doc)).
Proof.
  intros Hsrc Hc Hname.
  assert (Hel : elementAt (Stage.trimmed viewBox svgInline p doc) (p ++ [j])
                = Some (element c)).
  { rewrite (trimmed_below _ _ _ _ source) by (auto; discriminate).
    rewrite elementAt_cons, Hc. reflexivity. }
  split; [exact Hel|]. apply filter_In. split.
  - apply elementAt_some_nodeAt in Hel. destruct Hel as [m [Hm _]].
    eapply nodeAt_In_paths; eauto.
  - rewrite Hel, Hname. reflexivity.
Qed.

(** X18.  A graphic one of whose child style nodes has an at-rule is
    inserted but its conversion never completes: the run rejects in the
    style namespacing, after the placeholder has been replaced and the
    root has got the viewBox of its bounds, and the forced repaint is
    not reached. *)
Theorem X18_at_rule_stops_the_conversion_before_the_repaint :
  forall Number (B : Browser Number) t p w source text svgInline rest i bbox,
    elementAt (document w) (p ++ [i]) = Some source ->
    fetch B (Js.toString (imgURL B source)) = Some text ->
    getElementsByTagName (parseFromString B text) "svg" = svgInline :: rest ->
    getBBox B (Stage.reoptimized svgInline (p ++ [i]) (document w)) (p ++ [i])
    = Some bbox ->
    hasAtRule B svgInline = true ->
    exists e w',
      convertSVGtoInline B t (p ++ [i]) w = (Throw e, w')
      /\ calls w'
         = calls w ++ firstn 6 (Stage.allCalls (Js.toString (imgURL B source)))
      /\ elementAt (document w') (p ++ [i])
         = Some (setAttribute "viewBox" (viewBoxOf B bbox)
                   (optimizeInlineSVG (optimizeInlineSVG (element svgInline)))).
Proof.
  intros Number B t p w source text svgInline rest i bbox
         Hsrc Hfetch Hsvg Hbox Hat.
  unfold convertSVGtoInline. rewrite Hsrc, Hfetch. unfold onText.
  rewrite Hsvg, parentNode_app. run_steps.
  fold (Stage.optimizedRoot svgInline).
  fold (Stage.spliced svgInline (p ++ [i]) (document w)).
  fold (Stage.reoptimized svgInline (p ++ [i]) (document w)).
  rewrite Hbox. cbn [document calls].
  fold (Stage.trimmed (viewBoxOf B bbox) svgInline (p ++ [i]) (document w)).
  set (d2 := Stage.trimmed (viewBoxOf B bbox) svgInline (p ++ [i]) (document w)).
  destruct (prependSheets B t (p ++ [i]) (styleSheets d2) d2)
    as [[|e] d3] eqn:Hns.
  - exfalso. apply hasAtRule_child in Hat.
    destruct Hat as (j & c & Hc & Hname & Hrule).
    destruct (child_sheet_trimmed (viewBoxOf B bbox) svgInline (p ++ [i])
                (document w) source j c Hsrc Hc Hname) as [Hel Hin].
    fold d2 in Hel, Hin.
    destruct (prependSheets_normal B t (p ++ [i])%list _ _ _ _ _
                (NoDup_styleSheets d2) Hns Hin (parentNode_app _ _) Hel)
      as [_ Hno].
    contradiction.
  - eexists. eexists. split; [reflexivity|]. cbn [calls document]. split.
    + simpl. repeat rewrite <- app_assoc. reflexivity.
    + apply Touches_prependSheets in Hns.
      apply (Touches_root _ _ _ _ Hns). unfold d2.
      eapply elementAt_trimmed; eauto.
Qed.

Lemma X18_witness :
  exists e, fst More.mediaRun = Throw e.
Proof.
  destruct (X18_at_rule_stops_the_conversion_before_the_repaint
              N More.mediaHost 7%N [0; 0]%nat Sample.world (element Sample.img)
              "<svg/>" (hd More.responsive (childNodes More.responsive)) []
              0%nat (mkRect 1%N 2%N 30%N 40%N))
    as (e & w' & Hrun & _); try (vm_compute; reflexivity).
  exists e. unfold More.mediaRun.
  change Sample.imgRef with ([0; 0]%nat ++ [0%nat])%list.
  rewrite Hrun. reflexivity.
Defined.
